(** * AIQuickFix: route discovery and execution engine of [src/extension.ts]

    A shallow embedding of the CLI route catalog, the process executor, the
    route prober / resolver, the fixer runner and the host-command
    availability check, followed by the properties established about them.

    Conventions.
    - A JavaScript string is a [string] (a sequence of 8-bit code units); the
      string primitives below are their JavaScript namesakes on these
      units ([toLowerCase] folds the ASCII letters).
    - [null] / [undefined] are [None]; a [number] exit code is a [Z].
    - Module-level mutable bindings ([cliRouteCache], [cliProbeCache],
      [commandAvailabilityCache], [extensionContextRef], [OUTPUT]) are the
      fields of [State], threaded explicitly.
    - An [await] that never settles is [None] in the monad [M]. *)

From Stdlib Require Import ZArith Ascii String List Lia DecimalString.
From stdpp Require Import base option list gmap strings.

Local Open Scope Z_scope.
Local Open Scope string_scope.

(* ===================================================================== *)
(** ** JavaScript string primitives *)
(* ===================================================================== *)

Module Js.

(** [s.length] *)
Definition strlen (s : string) : Z := Z.of_nat (String.length s).

(** [s.slice(0, n)] for a non-negative [n] (the only use in the source). *)
Definition slice0 (s : string) (n : Z) : string :=
  String.substring 0 (Z.to_nat n) s.

(** [s.startsWith(p)] *)
Definition startsWith (s p : string) : bool := String.prefix p s.

(** [s.includes(sub)] *)
Fixpoint includes (s sub : string) : bool :=
  String.prefix sub s
  || match s with
     | EmptyString => false
     | String _ s' => includes s' sub
     end.

Definition lowerAscii (c : ascii) : ascii :=
  let n := nat_of_ascii c in
  if (Nat.leb 65 n && Nat.leb n 90)%bool then ascii_of_nat (n + 32) else c.

(** [s.toLowerCase()] *)
Fixpoint toLowerCase (s : string) : string :=
  match s with
  | EmptyString => EmptyString
  | String c s' => String (lowerAscii c) (toLowerCase s')
  end.

(** [parts.join(sep)] *)
Fixpoint join (sep : string) (parts : list string) : string :=
  match parts with
  | [] => ""
  | [p] => p
  | p :: ps => p +:+ sep +:+ join sep ps
  end.

(** White space removed by [trim], among the code units below 256: tab,
    LF, VT, FF, CR, space and the no-break space U+00A0.  (U+0085 is not
    white space for [trim].) *)
Definition isSpace (c : ascii) : bool :=
  let n := nat_of_ascii c in
  (Nat.leb 9 n && Nat.leb n 13 || Nat.eqb n 32 || Nat.eqb n 160)%bool.

Fixpoint trimStart (s : string) : string :=
  match s with
  | EmptyString => EmptyString
  | String c s' => if isSpace c then trimStart s' else s
  end.

(** Drops trailing white space: a character is kept when it is not a
    space or something is kept after it. *)
Fixpoint trimEnd (s : string) : string :=
  match s with
  | EmptyString => EmptyString
  | String c s' =>
      match trimEnd s' with
      | EmptyString => if isSpace c then EmptyString else String c EmptyString
      | t => String c t
      end
  end.

(** [s.trim()] *)
Definition trim (s : string) : string := trimEnd (trimStart s).

(** [s.split(/\r?\n/, 1)[0]]: the text before the first line break. *)
Fixpoint firstLine (s : string) : string :=
  match s with
  | EmptyString => EmptyString
  | String c s' =>
      if Nat.eqb (nat_of_ascii c) 10 then EmptyString
      else if (Nat.eqb (nat_of_ascii c) 13
               && match s' with
                  | String d _ => Nat.eqb (nat_of_ascii d) 10
                  | EmptyString => false
                  end)%bool
           then EmptyString
           else String c (firstLine s')
  end.

(** Decimal rendering of an integer, as [`${n}`] does for integral numbers. *)
Definition showZ (n : Z) : string := NilZero.string_of_int (Z.to_int n).

(** Truthiness of [string | undefined]: the empty string is falsy. *)
Definition truthy (o : option string) : bool :=
  match o with
  | Some s => negb (String.eqb s "")
  | None => false
  end.

(** A value of type [unknown] read from settings or storage. *)
Inductive unknown : Type :=
| JString (s : string)
| JBoolean (b : bool)
| JOther.

End Js.

(* ===================================================================== *)
(** ** Data model *)
(* ===================================================================== *)

Inductive CliFixerId : Type := CodexCli | ClaudeCli.

(** The string a [CliFixerId] is at run time; it keys the route cache and
    the persisted record. *)
Definition fixerKey (fixerId : CliFixerId) : string :=
  match fixerId with
  | CodexCli => "codex-cli"
  | ClaudeCli => "claude-cli"
  end.

(** [FIXERS[fixerId].label] *)
Definition fixerLabel (fixerId : CliFixerId) : string :=
  match fixerId with
  | CodexCli => "Codex CLI"
  | ClaudeCli => "Claude CLI"
  end.

Record CommandSpec : Type := mkCommandSpec {
  command : string;
  args : list string
}.

Record CliRoute : Type := mkCliRoute {
  id : string;
  display : string;
  probe : CommandSpec;
  buildRun : string -> CommandSpec
}.

Record ProcessResult : Type := mkProcessResult {
  exitCode : option Z;
  stdout : string;
  stderr : string;
  timedOut : bool;
  errorCode : option string
}.

Definition CLI_PROBE_TIMEOUT_MS : Z := 3000.
Definition CLI_RUN_TIMEOUT_MS : Z := 180000.
Definition MAX_PROCESS_OUTPUT_CHARS : Z := 12000.
Definition MAX_BOX_CONTENT_CHARS : Z := 4000.
Definition MAX_FAILURE_SUMMARY_LINES : Z := 8.

(* ===================================================================== *)
(** ** Route Catalog *)
(* ===================================================================== *)

Definition apostrophe : string := String (ascii_of_nat 39) EmptyString.
Definition backslash : string := String (ascii_of_nat 92) EmptyString.

(** [value.replace(/'/g, `'\\''`)] *)
Fixpoint escapeApostrophes (value : string) : string :=
  match value with
  | EmptyString => EmptyString
  | String c rest =>
      if Nat.eqb (nat_of_ascii c) 39
      then apostrophe +:+ backslash +:+ apostrophe +:+ apostrophe
           +:+ escapeApostrophes rest
      else String c (escapeApostrophes rest)
  end.

Definition quoteForPosixShell (value : string) : string :=
  apostrophe +:+ escapeApostrophes value +:+ apostrophe.

(** One element of the [variants] array of [getCodexCliRoutes]. *)
Record CodexVariant : Type := mkCodexVariant {
  idSuffix : string;
  displaySuffix : string;
  runArgs : string -> list string;
  runShell : string -> string
}.

Definition codexVariants (binary : string) : list CodexVariant :=
  [ {| idSuffix := "workspace-write-skipgit";
       displaySuffix := " (--sandbox workspace-write --skip-git-repo-check)";
       runArgs := fun prompt =>
         ["exec"; "--sandbox"; "workspace-write"; "--skip-git-repo-check"; prompt];
       runShell := fun prompt =>
         binary +:+ " exec --sandbox workspace-write --skip-git-repo-check "
                +:+ quoteForPosixShell prompt |};
    {| idSuffix := "auto-skipgit";
       displaySuffix := " (--full-auto --skip-git-repo-check)";
       runArgs := fun prompt =>
         ["exec"; "--full-auto"; "--skip-git-repo-check"; prompt];
       runShell := fun prompt =>
         binary +:+ " exec --full-auto --skip-git-repo-check "
                +:+ quoteForPosixShell prompt |};
    {| idSuffix := "skipgit";
       displaySuffix := " (--skip-git-repo-check)";
       runArgs := fun prompt => ["exec"; "--skip-git-repo-check"; prompt];
       runShell := fun prompt =>
         binary +:+ " exec --skip-git-repo-check " +:+ quoteForPosixShell prompt |};
    {| idSuffix := "plain";
       displaySuffix := "";
       runArgs := fun prompt => ["exec"; prompt];
       runShell := fun prompt =>
         binary +:+ " exec " +:+ quoteForPosixShell prompt |} ].

(** The four routes pushed for one [(binary, variant)] pair. *)
Definition codexRoutesFor (binary : string) (variant : CodexVariant) : list CliRoute :=
  [ {| id := "native:" +:+ binary +:+ ":exec:" +:+ idSuffix variant;
       display := binary +:+ " exec" +:+ displaySuffix variant;
       probe := {| command := binary; args := ["exec"; "--help"] |};
       buildRun := fun prompt =>
         {| command := binary; args := runArgs variant prompt |} |};
    {| id := "bash:" +:+ binary +:+ ":exec:" +:+ idSuffix variant;
       display := "bash -> " +:+ binary +:+ " exec" +:+ displaySuffix variant;
       probe := {| command := "bash"; args := ["-lc"; binary +:+ " exec --help"] |};
       buildRun := fun prompt =>
         {| command := "bash"; args := ["-lc"; runShell variant prompt] |} |};
    {| id := "wsl:" +:+ binary +:+ ":exec:" +:+ idSuffix variant;
       display := "wsl bash -> " +:+ binary +:+ " exec" +:+ displaySuffix variant;
       probe := {| command := "wsl";
                   args := ["bash"; "-lc"; binary +:+ " exec --help"] |};
       buildRun := fun prompt =>
         {| command := "wsl"; args := ["bash"; "-lc"; runShell variant prompt] |} |};
    {| id := "wsl-exec:" +:+ binary +:+ ":exec:" +:+ idSuffix variant;
       display := "wsl --exec " +:+ binary +:+ " exec" +:+ displaySuffix variant;
       probe := {| command := "wsl"; args := ["--exec"; binary; "exec"; "--help"] |};
       buildRun := fun prompt =>
         {| command := "wsl";
            args := (["--exec"; binary] ++ runArgs variant prompt)%list |} |} ].

Definition codexBinaries : list string := ["codex"; "codex-cli"].

Definition getCodexCliRoutes : list CliRoute :=
  flat_map (fun binary => flat_map (codexRoutesFor binary) (codexVariants binary))
           codexBinaries.

(** The five routes pushed for one binary by [getClaudeCliRoutes]. *)
Definition claudeRoutesFor (binary : string) : list CliRoute :=
  [ {| id := "native:" +:+ binary +:+ ":p";
       display := binary +:+ " -p";
       probe := {| command := binary; args := ["--help"] |};
       buildRun := fun prompt => {| command := binary; args := ["-p"; prompt] |} |};
    {| id := "native:" +:+ binary +:+ ":print";
       display := binary +:+ " --print";
       probe := {| command := binary; args := ["--help"] |};
       buildRun := fun prompt =>
         {| command := binary; args := ["--print"; prompt] |} |};
    {| id := "bash:" +:+ binary +:+ ":p";
       display := "bash -> " +:+ binary +:+ " -p";
       probe := {| command := "bash"; args := ["-lc"; binary +:+ " --help"] |};
       buildRun := fun prompt =>
         {| command := "bash";
            args := ["-lc"; binary +:+ " -p " +:+ quoteForPosixShell prompt] |} |};
    {| id := "wsl:" +:+ binary +:+ ":p";
       display := "wsl bash -> " +:+ binary +:+ " -p";
       probe := {| command := "wsl"; args := ["bash"; "-lc"; binary +:+ " --help"] |};
       buildRun := fun prompt =>
         {| command := "wsl";
            args := ["bash"; "-lc";
                     binary +:+ " -p " +:+ quoteForPosixShell prompt] |} |};
    {| id := "wsl-exec:" +:+ binary +:+ ":p";
       display := "wsl --exec " +:+ binary +:+ " -p";
       probe := {| command := "wsl"; args := ["--exec"; binary; "--help"] |};
       buildRun := fun prompt =>
         {| command := "wsl"; args := ["--exec"; binary; "-p"; prompt] |} |} ].

Definition claudeBinaries : list string := ["claude"; "claude-cli"].

Definition getClaudeCliRoutes : list CliRoute :=
  flat_map claudeRoutesFor claudeBinaries.

(** Settings are read through [config.get<unknown>(key)]; an absent key is
    [undefined]. *)
Definition Configuration : Type := gmap string Js.unknown.

Definition parseBoolean (value : option Js.unknown) (fallback : bool) : bool :=
  match value with
  | Some (Js.JBoolean b) => b
  | _ => fallback
  end.

Record CliSettings : Type := mkCliSettings { enableWslRoutes : bool }.

Definition getCliSettings (config : Configuration) : CliSettings :=
  {| enableWslRoutes := parseBoolean (config !! "enable-wsl-routes") true |}.

Definition getCliRouteCandidates (config : Configuration) (fixerId : CliFixerId)
  : list CliRoute :=
  let settings := getCliSettings config in
  let routes :=
    match fixerId with
    | CodexCli => getCodexCliRoutes
    | ClaudeCli => getClaudeCliRoutes
    end in
  if negb (enableWslRoutes settings)
  then filter (fun route => negb (Js.startsWith (id route) "wsl")) routes
  else routes.

(** [routes.some(route => route.id === routeId)] *)
Definition isRouteAvailable (config : Configuration) (fixerId : CliFixerId)
           (routeId : string) : bool :=
  existsb (fun route => String.eqb (id route) routeId)
          (getCliRouteCandidates config fixerId).

(** A route id of type [string | undefined] is falsy when it is [undefined]
    or the empty string. *)
Definition getDiscoveryPreferredRouteId (fixerId : CliFixerId)
           (routeId : option string) : option string :=
  if negb (Js.truthy routeId) then None
  else match fixerId with
       | ClaudeCli => routeId
       | CodexCli =>
           match routeId with
           | Some r => if Js.includes r ":workspace-write" then routeId else None
           | None => None
           end
       end.

Definition orderRoutesWithPreferred (routes : list CliRoute)
           (preferredId : option string) : list CliRoute :=
  match preferredId with
  | None => routes
  | Some pid =>
      if String.eqb pid "" then routes
      else match find (fun route => String.eqb (id route) pid) routes with
           | None => routes
           | Some preferred =>
               preferred
                 :: filter (fun route => negb (String.eqb (id route) pid)) routes
           end
  end.

(* ===================================================================== *)
(** ** Process Executor: capture and settlement logic of [runCommand] *)
(* ===================================================================== *)

Definition appendOutput (current chunk : string) : string :=
  if Z.geb (Js.strlen current) MAX_PROCESS_OUTPUT_CHARS then current
  else
    let remaining := MAX_PROCESS_OUTPUT_CHARS - Js.strlen current in
    current +:+ Js.slice0 chunk remaining.

(** What the event loop delivers to the callbacks registered by [runCommand]
    after a successful [spawn]. *)
Inductive ChildEvent : Type :=
| StdoutData (chunk : string)
| StderrData (chunk : string)
| TimerFired
| ErrorEvent (message : string) (code : option string)
| CloseEvent (code : option Z).

(** [spawn] either throws synchronously or returns a child whose life is a
    sequence of events. *)
Inductive SpawnOutcome : Type :=
| SpawnThrows (message : string) (code : option string)
| Spawned (events : list ChildEvent).

(** The [let] bindings captured by the callbacks of [runCommand]; [resolved]
    is the value the promise was resolved with ([settled] is
    [is_Some resolved]); [timerCleared] records [clearTimeout(timer)]. *)
Record Locals : Type := mkLocals {
  l_stdout : string;
  l_stderr : string;
  l_timedOut : bool;
  l_errorCode : option string;
  l_timerCleared : bool;
  l_resolved : option ProcessResult
}.

Definition initialLocals : Locals :=
  {| l_stdout := ""; l_stderr := ""; l_timedOut := false; l_errorCode := None;
     l_timerCleared := false; l_resolved := None |}.

Definition finalize (l : Locals) (result : ProcessResult) : Locals :=
  match l_resolved l with
  | Some _ => l
  | None =>
      {| l_stdout := l_stdout l; l_stderr := l_stderr l;
         l_timedOut := l_timedOut l; l_errorCode := l_errorCode l;
         l_timerCleared := l_timerCleared l; l_resolved := Some result |}
  end.

Definition onEvent (l : Locals) (ev : ChildEvent) : Locals :=
  match ev with
  | StdoutData chunk =>
      {| l_stdout := appendOutput (l_stdout l) chunk; l_stderr := l_stderr l;
         l_timedOut := l_timedOut l; l_errorCode := l_errorCode l;
         l_timerCleared := l_timerCleared l; l_resolved := l_resolved l |}
  | StderrData chunk =>
      {| l_stdout := l_stdout l; l_stderr := appendOutput (l_stderr l) chunk;
         l_timedOut := l_timedOut l; l_errorCode := l_errorCode l;
         l_timerCleared := l_timerCleared l; l_resolved := l_resolved l |}
  | TimerFired =>
      if l_timerCleared l then l
      else
        {| l_stdout := l_stdout l; l_stderr := l_stderr l;
           l_timedOut := true; l_errorCode := l_errorCode l;
           l_timerCleared := l_timerCleared l; l_resolved := l_resolved l |}
  | ErrorEvent message code =>
      let l1 :=
        {| l_stdout := l_stdout l; l_stderr := l_stderr l;
           l_timedOut := l_timedOut l; l_errorCode := code;
           l_timerCleared := true; l_resolved := l_resolved l |} in
      finalize l1
        {| exitCode := None; stdout := l_stdout l1;
           stderr := appendOutput (l_stderr l1) message;
           timedOut := false; errorCode := l_errorCode l1 |}
  | CloseEvent code =>
      let l1 :=
        {| l_stdout := l_stdout l; l_stderr := l_stderr l;
           l_timedOut := l_timedOut l; l_errorCode := l_errorCode l;
           l_timerCleared := true; l_resolved := l_resolved l |} in
      finalize l1
        {| exitCode := code; stdout := l_stdout l1; stderr := l_stderr l1;
           timedOut := l_timedOut l1; errorCode := l_errorCode l1 |}
  end.

(** The value the promise returned by [runCommand] resolves with, if it ever
    does: [None] when neither ['error'] nor ['close'] is delivered. *)
Definition settle (outcome : SpawnOutcome) : option ProcessResult :=
  match outcome with
  | SpawnThrows message code =>
      l_resolved
        (finalize initialLocals
           {| exitCode := None; stdout := l_stdout initialLocals;
              stderr := message; timedOut := false; errorCode := code |})
  | Spawned events => l_resolved (fold_left onEvent events initialLocals)
  end.

(* ===================================================================== *)
(** ** Result classification and failure text *)
(* ===================================================================== *)

Definition newline : string := String (ascii_of_nat 10) EmptyString.

(** The no-break space U+00A0 and the next-line control U+0085. *)
Definition noBreakSpace : string := String (ascii_of_nat 160) EmptyString.
Definition nextLine : string := String (ascii_of_nat 133) EmptyString.

Definition isProcessSuccess (result : ProcessResult) : bool :=
  negb (timedOut result)
  && negb (Js.truthy (errorCode result))
  && match exitCode result with
     | Some n => Z.eqb n 0
     | None => false
     end.

Definition invocationFailurePhrases : list string :=
  [ "not found"; "command not found"; "unknown option"; "unexpected argument";
    "unrecognized option"; "invalid option"; "unknown command";
    "no such file or directory";
    "is not recognized as an internal or external command" ].

Definition isInvocationFailure (result : ProcessResult) : bool :=
  match errorCode result with
  | Some "ENOENT" => true
  | _ =>
      match exitCode result with
      | Some 127 => true
      | _ =>
          let output :=
            Js.toLowerCase (stdout result +:+ newline +:+ stderr result) in
          existsb (Js.includes output) invocationFailurePhrases
      end
  end.

Definition readOnlySandboxPhrases : list string :=
  [ "read-only sandbox";
    "couldn't save due read-only sandbox permissions";
    "could not save due read-only sandbox permissions" ].

Definition isReadOnlySandboxNotice (result : ProcessResult) : bool :=
  let output := Js.toLowerCase (stdout result +:+ newline +:+ stderr result) in
  existsb (Js.includes output) readOnlySandboxPhrases.

(** [Math.round(CLI_RUN_TIMEOUT_MS / 1000)] is the exact quotient 180. *)
Definition formatProcessFailure (result : ProcessResult) : string :=
  if timedOut result then
    "timed out after " +:+ Js.showZ (CLI_RUN_TIMEOUT_MS / 1000) +:+ "s"
  else if Js.truthy (errorCode result) then
    "spawn failed (" +:+ default "" (errorCode result) +:+ ")"
  else
    match exitCode result with
    | Some n =>
        let output :=
          Js.trim (if String.eqb (stderr result) "" then stdout result
                   else stderr result) in
        if String.eqb output "" then "exited with code " +:+ Js.showZ n
        else "exited with code " +:+ Js.showZ n +:+ ": " +:+ Js.firstLine output
    | None => "unknown process failure"
    end.

Definition truncateForBox (content : string) (maxChars : Z) : string :=
  if Z.leb (Js.strlen content) maxChars then content
  else
    let remaining := Js.strlen content - maxChars in
    Js.slice0 content maxChars +:+ newline +:+ "... [truncated "
      +:+ Js.showZ remaining +:+ " chars]".

Definition getProcessOutputText (result : ProcessResult) : string :=
  let out := Js.trim (stdout result) in
  let err := Js.trim (stderr result) in
  let parts :=
    ((if String.eqb out "" then [] else ["stdout:" +:+ newline +:+ out])
     ++ (if String.eqb err "" then [] else ["stderr:" +:+ newline +:+ err]))%list in
  truncateForBox (Js.join (newline +:+ newline) parts) MAX_BOX_CONTENT_CHARS.

Definition summarizeFailures (failures : list string) : string :=
  match failures with
  | [] => "No route failures were captured."
  | _ =>
      let visible :=
        Js.join newline (take (Z.to_nat MAX_FAILURE_SUMMARY_LINES) failures) in
      let hiddenCount :=
        Z.of_nat (length failures) - MAX_FAILURE_SUMMARY_LINES in
      if Z.leb hiddenCount 0 then visible
      else visible +:+ newline +:+ "... " +:+ Js.showZ hiddenCount
             +:+ " more route failure(s) omitted."
  end.

(** How the candidate loop of [runCliFix] treats a run result, in the order
    the loop tests it. *)
Inductive RunClass : Type :=
| SandboxNotice
| Success
| InvocationFailure
| HardFailure.

Definition classifyRun (result : ProcessResult) : RunClass :=
  if isReadOnlySandboxNotice result then SandboxNotice
  else if isProcessSuccess result then Success
  else if isInvocationFailure result then InvocationFailure
  else HardFailure.

(* ===================================================================== *)
(** ** Host interface, module state and the monad of asynchronous steps *)
(* ===================================================================== *)

(** The two primitives the engine obtains from outside: the operating
    system's process spawner (seen through the events it will deliver) and
    the editor's list of registered commands.  [W] is the state of the
    outside world; both primitives may change it. *)
Class Host (W : Type) : Type := {
  spawn : W -> CommandSpec -> string -> Z -> SpawnOutcome * W;
  getCommands : W -> list string * W
}.

(** One call of [appendOutputBox]: the title and the (heading, content)
    sections handed to it.  The rendering into bordered lines is not
    modelled. *)
Record OutputBox : Type := mkOutputBox {
  title : string;
  sections : list (string * string)
}.

(** Interactions with the host, in the order they happened. *)
Inductive Effect : Type :=
| Spawn (spec : CommandSpec) (cwd : string) (timeoutMs : Z)
        (result : ProcessResult)
| GetCommands (commands : list string).

(** Module-level state of the extension.  [extensionContextRef] is [None]
    before [activate]; otherwise it holds the record stored in
    [globalState] under [CLI_ROUTE_STATE_KEY] (an absent record reads as
    the empty one).  In [cliRouteCache] a key bound to [None] is the cached
    [null].  [effects] is the trace of host interactions; no operation
    reads it. *)
Record State (W : Type) : Type := mkState {
  extensionContextRef : option (gmap string Js.unknown);
  cliRouteCache : gmap string (option CliRoute);
  cliProbeCache : gmap string bool;
  commandAvailabilityCache : gmap string bool;
  configuration : Configuration;
  probeWorkingDirectory : string;
  OUTPUT : list OutputBox;
  host : W;
  effects : list Effect
}.

Arguments mkState {W}.
Arguments extensionContextRef {W}.
Arguments cliRouteCache {W}.
Arguments cliProbeCache {W}.
Arguments commandAvailabilityCache {W}.
Arguments configuration {W}.
Arguments probeWorkingDirectory {W}.
Arguments OUTPUT {W}.
Arguments host {W}.
Arguments effects {W}.

Definition withContext {W} (st : State W) (v : option (gmap string Js.unknown))
  : State W :=
  mkState v (cliRouteCache st) (cliProbeCache st) (commandAvailabilityCache st)
          (configuration st) (probeWorkingDirectory st) (OUTPUT st) (host st)
          (effects st).

Definition withRouteCache {W} (st : State W) (v : gmap string (option CliRoute))
  : State W :=
  mkState (extensionContextRef st) v (cliProbeCache st)
          (commandAvailabilityCache st) (configuration st)
          (probeWorkingDirectory st) (OUTPUT st) (host st) (effects st).

Definition withProbeCache {W} (st : State W) (v : gmap string bool) : State W :=
  mkState (extensionContextRef st) (cliRouteCache st) v
          (commandAvailabilityCache st) (configuration st)
          (probeWorkingDirectory st) (OUTPUT st) (host st) (effects st).

Definition withAvailabilityCache {W} (st : State W) (v : gmap string bool)
  : State W :=
  mkState (extensionContextRef st) (cliRouteCache st) (cliProbeCache st) v
          (configuration st) (probeWorkingDirectory st) (OUTPUT st) (host st)
          (effects st).

Definition withOutput {W} (st : State W) (v : list OutputBox) : State W :=
  mkState (extensionContextRef st) (cliRouteCache st) (cliProbeCache st)
          (commandAvailabilityCache st) (configuration st)
          (probeWorkingDirectory st) v (host st) (effects st).

(** The host moved to [w] and [e] was observed. *)
Definition withEffect {W} (st : State W) (w : W) (e : Effect) : State W :=
  mkState (extensionContextRef st) (cliRouteCache st) (cliProbeCache st)
          (commandAvailabilityCache st) (configuration st)
          (probeWorkingDirectory st) (OUTPUT st) w (effects st ++ [e])%list.

(** An asynchronous computation over the module state: [None] is a promise
    that never settles. *)
Definition M (W A : Type) : Type := State W -> option (A * State W).

Definition ret {W A} (a : A) : M W A := fun st => Some (a, st).

Definition bind {W A B} (m : M W A) (k : A -> M W B) : M W B := fun st =>
  match m st with
  | Some (a, st') => k a st'
  | None => None
  end.

Definition getState {W} : M W (State W) := fun st => Some (st, st).

Definition modifyState {W} (f : State W -> State W) : M W unit := fun st =>
  Some (tt, f st).

Notation "'let!' x ':=' m 'in' k" := (bind m (fun x => k))
  (at level 10, x name, m at level 100, k at level 200).

(** How a [Promise<void>] ends. *)
Inductive Completion : Type :=
| Resolved
| Thrown (message : string).

(** How the [for] loop of [runCliFix] is left: by the [return] after a
    success, or by exhaustion or [break] with the loop variables as they
    stand. *)
Inductive LoopExit : Type :=
| Returned
| Fell (failures : list string) (sawInvocationFailureOnly : bool).

(** What [runCliFix] reads from [args.uri] through the editor: the result of
    [getCommandWorkingDirectory] and the path [buildCliPrompt] prints. *)
Record RunFixerArgs : Type := mkRunFixerArgs {
  commandWorkingDirectory : string;
  filePath : string
}.

Definition buildCliPrompt (args : RunFixerArgs) (basePrompt : string) : string :=
  "File: " +:+ filePath args +:+ newline +:+ basePrompt +:+ newline
    +:+ "Apply the minimal quick fix by editing workspace files directly. Save changes, then return a one-line summary.".

Definition NUL : string := String (ascii_of_nat 0) EmptyString.

Definition probeKey (route : CliRoute) (cwd : string) : string :=
  cwd +:+ NUL +:+ command (probe route) +:+ NUL
      +:+ Js.join NUL (args (probe route)).

Definition getPersistedRouteId {W} (st : State W) (fixerId : CliFixerId)
  : option string :=
  match extensionContextRef st with
  | None => None
  | Some persisted =>
      match persisted !! fixerKey fixerId with
      | Some (Js.JString value) => Some value
      | _ => None
      end
  end.

Section Engine.

Context {W : Type} `{!Host W}.

Definition runCommand (spec : CommandSpec) (cwd : string) (timeoutMs : Z)
  : M W ProcessResult := fun st =>
  let (outcome, w) := spawn (host st) spec cwd timeoutMs in
  match settle outcome with
  | Some result => Some (result, withEffect st w (Spawn spec cwd timeoutMs result))
  | None => None
  end.

Definition appendOutputBox (title : string) (sections : list (string * string))
  : M W unit :=
  modifyState (fun st => withOutput st (OUTPUT st ++ [mkOutputBox title sections])%list).

(** Calls do not overlap in this model, so [cliProbeDiscovery] is empty
    whenever it is consulted. *)
Definition probeRoute (route : CliRoute) (cwd : string) : M W bool :=
  let key := probeKey route cwd in
  let! st := getState in
  match cliProbeCache st !! key with
  | Some cached => ret cached
  | None =>
      let! result := runCommand (probe route) cwd CLI_PROBE_TIMEOUT_MS in
      let success := isProcessSuccess result in
      let! _ := modifyState (fun st' =>
                  withProbeCache st' (<[key := success]> (cliProbeCache st'))) in
      ret success
  end.

Definition setCachedCliRoute (fixerId : CliFixerId) (route : option CliRoute)
  : M W unit :=
  let! _ := modifyState (fun st =>
              withRouteCache st (<[fixerKey fixerId := route]> (cliRouteCache st))) in
  let! st := getState in
  match extensionContextRef st with
  | None => ret tt
  | Some persisted =>
      let persisted' :=
        match route with
        | Some r => <[fixerKey fixerId := Js.JString (id r)]> persisted
        | None => delete (fixerKey fixerId) persisted
        end in
      modifyState (fun st' => withContext st' (Some persisted'))
  end.

Fixpoint discoverLoop (fixerId : CliFixerId) (cwd : string)
         (routes : list CliRoute) : M W (option CliRoute) :=
  match routes with
  | [] => let! _ := setCachedCliRoute fixerId None in ret None
  | route :: rest =>
      let! ok := probeRoute route cwd in
      if ok : bool
      then let! _ := setCachedCliRoute fixerId (Some route) in ret (Some route)
      else discoverLoop fixerId cwd rest
  end.

(** The candidate order [discoverCliRoute] probes in. *)
Definition discoveryOrder (st : State W) (fixerId : CliFixerId)
  : list CliRoute :=
  let preferred :=
    getDiscoveryPreferredRouteId fixerId (getPersistedRouteId st fixerId) in
  orderRoutesWithPreferred
    (getCliRouteCandidates (configuration st) fixerId) preferred.

Definition discoverCliRoute (fixerId : CliFixerId) : M W (option CliRoute) :=
  let! st := getState in
  discoverLoop fixerId (probeWorkingDirectory st) (discoveryOrder st fixerId).

(** Calls do not overlap in this model, so [cliRouteDiscovery] is empty
    whenever it is consulted. *)
Definition getCliRoute (fixerId : CliFixerId) (forceRefresh : bool)
  : M W (option CliRoute) :=
  let! st := getState in
  match (if forceRefresh then None else cliRouteCache st !! fixerKey fixerId) with
  | Some None => ret None
  | Some (Some cached) =>
      if isRouteAvailable (configuration st) fixerId (id cached)
      then ret (Some cached)
      else let! _ := setCachedCliRoute fixerId None in discoverCliRoute fixerId
  | None => discoverCliRoute fixerId
  end.

(** The candidate order the loop of [runCliFix] iterates over. *)
Definition runOrder (st : State W) (fixerId : CliFixerId)
           (baseRoute : CliRoute) : list CliRoute :=
  orderRoutesWithPreferred
    (getCliRouteCandidates (configuration st) fixerId) (Some (id baseRoute)).

Fixpoint runLoop (fixerId : CliFixerId) (baseId cwd cliPrompt : string)
         (routes : list CliRoute) (failures : list string)
         (sawInvocationFailureOnly : bool) : M W LoopExit :=
  match routes with
  | [] => ret (Fell failures sawInvocationFailureOnly)
  | route :: rest =>
      let! probeOk := (if negb (String.eqb (id route) baseId)
                       then probeRoute route cwd
                       else ret true) in
      if negb probeOk
      then runLoop fixerId baseId cwd cliPrompt rest failures
                   sawInvocationFailureOnly
      else
        let! result :=
          runCommand (buildRun route cliPrompt) cwd CLI_RUN_TIMEOUT_MS in
        if isReadOnlySandboxNotice result then
          runLoop fixerId baseId cwd cliPrompt rest
            (failures
               ++ [display route
                   +:+ ": reported read-only sandbox, so no file edits were saved."])%list
            false
        else if isProcessSuccess result then
          let! _ := setCachedCliRoute fixerId (Some route) in
          let! _ := appendOutputBox (fixerLabel fixerId +:+ " Quick Fix")
                [ ("Route", display route);
                  ("Prompt", cliPrompt);
                  ("CLI Output",
                   let text := getProcessOutputText result in
                   if String.eqb text "" then "(command returned no output)"
                   else text) ] in
          ret Returned
        else
          let failures' :=
            (failures
               ++ [display route +:+ ": " +:+ formatProcessFailure result])%list in
          if negb (isInvocationFailure result)
          then ret (Fell failures' false)
          else runLoop fixerId baseId cwd cliPrompt rest failures'
                       sawInvocationFailureOnly
  end.

Definition runCliFix (args : RunFixerArgs) (prompt : string)
           (fixerId : CliFixerId) : M W Completion :=
  let! base := getCliRoute fixerId false in
  match base with
  | None =>
      ret (Thrown (fixerLabel fixerId
                   +:+ " is enabled, but no working CLI route was found."))
  | Some baseRoute =>
      let cwd := commandWorkingDirectory args in
      let cliPrompt := buildCliPrompt args prompt in
      let! st := getState in
      let routes := runOrder st fixerId baseRoute in
      let! exit := runLoop fixerId (id baseRoute) cwd cliPrompt routes [] true in
      match exit with
      | Returned => ret Resolved
      | Fell failures sawInvocationFailureOnly =>
          let! _ := (if sawInvocationFailureOnly : bool
                     then setCachedCliRoute fixerId None
                     else ret tt) in
          let summary :=
            match failures with
            | first :: _ => first
            | [] => "no executable command route was accepted."
            end in
          let! _ := appendOutputBox (fixerLabel fixerId +:+ " Quick Fix Failed")
                      [ ("Prompt", cliPrompt);
                        ("Route Failures", summarizeFailures failures) ] in
          ret (Thrown (fixerLabel fixerId +:+ " failed: " +:+ summary))
      end
  end.

Definition isCommandAvailable (command : string) : M W bool :=
  let! st := getState in
  match commandAvailabilityCache st !! command with
  | Some _ => ret true
  | None =>
      fun st0 =>
        let (commands, w) := getCommands (host st0) in
        let available := existsb (String.eqb command) commands in
        let st1 := withEffect st0 w (GetCommands commands) in
        if available
        then Some (true,
                   withAvailabilityCache st1
                     (<[command := true]> (commandAvailabilityCache st1)))
        else Some (false, st1)
  end.

Definition assertCommandAvailable (command missingMessage : string)
  : M W Completion :=
  let! available := isCommandAvailable command in
  if available : bool then ret Resolved
  else ret (Thrown (missingMessage +:+ " Missing command: " +:+ command)).

(** [deactivate] (the disposal of [OUTPUT] is not modelled). *)
Definition deactivate : M W unit :=
  modifyState (fun st =>
    mkState None ∅ ∅ ∅ (configuration st) (probeWorkingDirectory st)
            (OUTPUT st) (host st) (effects st)).

End Engine.

(* ===================================================================== *)
(** ** Vocabulary of the properties *)
(* ===================================================================== *)

(** A route goes through the OS bridge when the program it starts, for the
    probe as for the run, is [wsl]. *)
Definition usesBridge (route : CliRoute) : bool :=
  String.eqb (command (probe route)) "wsl".

(** The transport prefixes of route ids, in catalog order: native, POSIX
    shell, OS-bridge shell, OS-bridge exec. *)
Definition transports : list string := ["native"; "bash"; "wsl"; "wsl-exec"].

(** The id suffixes of the two print-mode spellings [-p] and [--print]. *)
Definition printSpellings : list string := ["p"; "print"].

Definition claudeRouteId (transport binary spelling : string) : string :=
  transport +:+ ":" +:+ binary +:+ ":" +:+ spelling.

(** The run command of a codex route asks for the [workspace-write]
    sandbox, the most permissive of the four argument variants. *)
Definition writesWorkspace (route : CliRoute) : bool :=
  existsb (fun a => Js.includes a "workspace-write") (args (buildRun route "")).

(** The number of reasons a result gives for the end of the process. *)
Definition endReasons (result : ProcessResult) : nat :=
  ((match exitCode result with Some _ => 1 | None => 0 end)
   + (if timedOut result then 1 else 0)
   + (match errorCode result with Some _ => 1 | None => 0 end))%nat.

(** The results of the fix runs (as opposed to probes) in a trace: the
    spawns made with the run timeout. *)
Definition runResult (e : Effect) : option ProcessResult :=
  match e with
  | Spawn _ _ timeoutMs result =>
      if Z.eqb timeoutMs CLI_RUN_TIMEOUT_MS then Some result else None
  | GetCommands _ => None
  end.

Definition runResults (es : list Effect) : list ProcessResult := omap runResult es.

(** The host interactions that happened between [st] and a later [st']. *)
Definition newEffects {W} (st st' : State W) : list Effect :=
  drop (length (effects st)) (effects st').

(** The number of times the editor's command list was fetched. *)
Definition isQuery (e : Effect) : bool :=
  match e with
  | GetCommands _ => true
  | Spawn _ _ _ _ => false
  end.

Definition hostQueries (es : list Effect) : nat := length (filter isQuery es).

(** The verdict cached for a fixer kind. *)
Inductive Verdict : Type :=
| Unresolved
| KnownGood (route : CliRoute)
| KnownBad.

Definition verdict {W} (st : State W) (fixerId : CliFixerId) : Verdict :=
  match cliRouteCache st !! fixerKey fixerId with
  | None => Unresolved
  | Some (Some route) => KnownGood route
  | Some None => KnownBad
  end.

(** The run command of a claude route spells print mode [--print]. *)
Definition usesLongSpelling (route : CliRoute) : bool :=
  existsb (fun a => Js.includes a "--print") (args (buildRun route "")).

(** Both captured streams respect the bound. *)
Definition withinBound (result : ProcessResult) : Prop :=
  Js.strlen (stdout result) <= MAX_PROCESS_OUTPUT_CHARS
  /\ Js.strlen (stderr result) <= MAX_PROCESS_OUTPUT_CHARS.

(** An error code excludes the two other end reasons. *)
Definition errorExcludesOthers (result : ProcessResult) : Prop :=
  errorCode result <> None ->
  exitCode result = None /\ timedOut result = false.

(** The invariant of the callbacks: captures are bounded, [errorCode] is
    still unset while the promise is pending, and a value the promise was
    resolved with is bounded and carries an error code only with no exit
    code and no time-out. *)
Definition callbacksInvariant (l : Locals) : Prop :=
  Js.strlen (l_stdout l) <= MAX_PROCESS_OUTPUT_CHARS
  /\ Js.strlen (l_stderr l) <= MAX_PROCESS_OUTPUT_CHARS
  /\ (l_resolved l = None -> l_errorCode l = None)
  /\ (forall result, l_resolved l = Some result ->
        withinBound result /\ errorExcludesOthers result).

(** From [st] to [st1] the trace grew by [new] and the settings stayed. *)
Definition advances {W} (st st1 : State W) (new : list Effect) : Prop :=
  effects st1 = (effects st ++ new)%list
  /\ configuration st1 = configuration st
  /\ probeWorkingDirectory st1 = probeWorkingDirectory st.

(** The cached and the persisted verdicts are the same in both states. *)
Definition keepsVerdicts {W} (st st1 : State W) : Prop :=
  cliRouteCache st1 = cliRouteCache st
  /\ extensionContextRef st1 = extensionContextRef st.

(** What [setCachedCliRoute] leaves in the persisted record, when there is
    one. *)
Definition persistVerdict (fixerId : CliFixerId) (route : option CliRoute)
           (context : option (gmap string Js.unknown))
  : option (gmap string Js.unknown) :=
  match context with
  | None => None
  | Some persisted =>
      Some match route with
           | Some r => <[fixerKey fixerId := Js.JString (id r)]> persisted
           | None => delete (fixerKey fixerId) persisted
           end
  end.

(** No route id is persisted for the fixer kind. *)
Definition nothingPersisted {W} (st : State W) (fixerId : CliFixerId) : Prop :=
  forall persisted,
    extensionContextRef st = Some persisted ->
    persisted !! fixerKey fixerId = None.

Definition isInvocationFailureRun (result : ProcessResult) : bool :=
  match classifyRun result with
  | InvocationFailure => true
  | _ => false
  end.

Definition isSuccessRun (result : ProcessResult) : bool :=
  match classifyRun result with
  | Success => true
  | _ => false
  end.

Definition isSandboxRun (result : ProcessResult) : bool :=
  match classifyRun result with
  | SandboxNotice => true
  | _ => false
  end.

(** The state a computation ends in, and what it returns, when it settles. *)
Definition finalState {W A} (m : M W A) (st : State W) : State W :=
  match m st with
  | Some (_, st') => st'
  | None => st
  end.

Definition answer {W A} (fallback : A) (m : M W A) (st : State W) : A :=
  match m st with
  | Some (a, _) => a
  | None => fallback
  end.

(** The routes the catalog generates for a kind, bridge routes included. *)
Definition catalog (fixerId : CliFixerId) : list CliRoute :=
  match fixerId with
  | CodexCli => getCodexCliRoutes
  | ClaudeCli => getClaudeCliRoutes
  end.

(** Every cached route is a route of the catalog of its kind. *)
Definition cacheFromCatalog {W} (st : State W) : Prop :=
  forall fixerId route,
    cliRouteCache st !! fixerKey fixerId = Some (Some route) ->
    route ∈ catalog fixerId.

(** An event that ends the wait of [runCommand]. *)
Definition isFinal (ev : ChildEvent) : bool :=
  match ev with
  | ErrorEvent _ _ | CloseEvent _ => true
  | _ => false
  end.

(** Every process the host spawns ends with ['error'] or ['close'], or
    fails to spawn. *)
Definition hostSettles {W} `{!Host W} : Prop :=
  forall (w : W) (spec : CommandSpec) (cwd : string) (timeoutMs : Z),
    is_Some (settle (fst (spawn w spec cwd timeoutMs))).

Section Sequences.

Context {W : Type} `{!Host W}.

(** Availability checks made one after the other. *)
Fixpoint checkAll (commands : list string) : M W (list bool) :=
  match commands with
  | [] => ret []
  | c :: cs =>
      let! b := isCommandAvailable c in
      let! bs := checkAll cs in
      ret (b :: bs)
  end.

(** The check in front of a run in the loop of [runCliFix]: the base route
    passes unprobed, any other route passes when its probe succeeds. *)
Definition probeUnlessBase (baseId cwd : string) (route : CliRoute) : M W bool :=
  if negb (String.eqb (id route) baseId) then probeRoute route cwd else ret true.

End Sequences.

(* ===================================================================== *)
(** ** A scripted host, for concrete runs of the engine *)
(* ===================================================================== *)

(** A world with a clock that advances at every interaction; the script
    decides, from the time and the command line, what a spawned process
    does, and which editor commands are registered. *)
Record Scripted : Type := mkScripted {
  clock : nat;
  processes : nat -> CommandSpec -> SpawnOutcome;
  registered : nat -> list string
}.

Definition tick (w : Scripted) : Scripted :=
  mkScripted (S (clock w)) (processes w) (registered w).

Global Instance scriptedHost : Host Scripted := {
  spawn w spec _ _ := (processes w (clock w) spec, tick w);
  getCommands w := (registered w (clock w), tick w)
}.

(** The state right after [activate], with an empty [globalState]. *)
Definition activated {W} (config : Configuration) (w : W) : State W :=
  mkState (Some ∅) ∅ ∅ ∅ config "/work" [] w [].

Definition exitsWith (code : Z) : SpawnOutcome := Spawned [CloseEvent (Some code)].

Definition notInstalled (binary : string) : SpawnOutcome :=
  Spawned [ErrorEvent ("spawn " +:+ binary +:+ " ENOENT") (Some "ENOENT")].

(** [codex] answers its first invocation and is gone afterwards; nothing
    else is installed. *)
Definition uninstalledAfterProbe : Scripted :=
  mkScripted 0
    (fun t spec => if Nat.eqb t 0 then exitsWith 0 else notInstalled (command spec))
    (fun _ => []).

(** The child is killed by the timer but traps the signal and exits 0. *)
Definition trapsTermination : SpawnOutcome :=
  Spawned [StdoutData "working"; TimerFired; CloseEvent (Some 0)].

(** The child is killed by a signal sent by someone else. *)
Definition killedFromOutside : SpawnOutcome := Spawned [CloseEvent None].



Definition sampleArgs : RunFixerArgs :=
  {| commandWorkingDirectory := "/work"; filePath := "src/main.ts" |}.

Definition samplePrompt : string :=
  "Diagnostic: unused variable" +:+ newline +:+ "Line: 3" +:+ newline
    +:+ "Code: let x = 1;".

(** The editor registers [claude-vscode.editor.open] only from the second
    query on, and drops it again from the fourth. *)
Definition commandComesAndGoes : Scripted :=
  mkScripted 0 (fun _ _ => exitsWith 0)
    (fun t => if (Nat.leb 1 t && Nat.leb t 2)%bool
              then ["claude-vscode.editor.open"] else []).

Definition freshlyActivated : State Scripted := activated ∅ uninstalledAfterProbe.

(** The first fix run meets a read-only sandbox; everything else,
    probes included, exits 0. *)
Definition sandboxThenSuccess : Scripted :=
  mkScripted 0
    (fun t _ =>
       if Nat.eqb t 1
       then Spawned [StdoutData "Could not save due read-only sandbox permissions";
                     CloseEvent (Some 0)]
       else exitsWith 0)
    (fun _ => []).

(** A state whose [globalState] remembers [routeId] for [fixerId]. *)
Definition remembering (fixerId : CliFixerId) (routeId : string)
  : State Scripted :=
  mkState (Some {[fixerKey fixerId := Js.JString routeId]}) ∅ ∅ ∅ ∅ "/work" []
          uninstalledAfterProbe [].

(** States of the scripted scenarios. *)
Definition sandboxedFirst : State Scripted := activated ∅ sandboxThenSuccess.

Definition sandboxedFirstResolved : State Scripted :=
  finalState (getCliRoute ClaudeCli false) sandboxedFirst.

Definition sandboxedFirstDone : State Scripted :=
  finalState (runCliFix sampleArgs samplePrompt ClaudeCli) sandboxedFirst.

Definition noRoute : CliRoute :=
  mkCliRoute "" "" (mkCommandSpec "" []) (fun _ => mkCommandSpec "" []).

(** The first and the second route of the [claude-cli] catalog. *)
Definition claudeShort : CliRoute := nth 0 getClaudeCliRoutes noRoute.
Definition claudeLong : CliRoute := nth 1 getClaudeCliRoutes noRoute.

Definition editorCommand : string := "claude-vscode.editor.open".

Definition beforeRegistration : State Scripted := activated ∅ commandComesAndGoes.

Definition afterFirstCheck : State Scripted :=
  finalState (isCommandAvailable editorCommand) beforeRegistration.

Definition afterSecondCheck : State Scripted :=
  finalState (isCommandAvailable editorCommand) afterFirstCheck.

(* ===================================================================== *)
(** ** Prompt construction *)
(* ===================================================================== *)

(** A [vscode.TextDocument] as its lines: [lineCount] is their number and
    [lineAt(i).text] the [i]-th of them; [lineAt] throws out of range. *)
Record TextDocument : Type := mkTextDocument { documentLines : list string }.

Definition lineCount (document : TextDocument) : Z :=
  Z.of_nat (length (documentLines document)).

Definition lineAt (document : TextDocument) (line : Z) : option string :=
  if Z.ltb line 0 then None else documentLines document !! Z.to_nat line.

Record PromptSpec : Type := mkPromptSpec {
  prompt : string;
  line : Z
}.

Definition clampLineNumber (document : TextDocument) (requestedLine : Z) : Z :=
  if Z.leb (lineCount document) 0 then 0
  else if Z.ltb requestedLine 0 then 0
  else Z.min requestedLine (lineCount document - 1).

(** [value || fallback] on strings. *)
Definition orElse (value fallback : string) : string :=
  if String.eqb value "" then fallback else value.

(** [buildPrompt] after [openTextDocument]: [None] when [lineAt] throws. *)
Definition buildPrompt (document : TextDocument) (startLine : Z)
           (diagnosticMessage : option string) : option PromptSpec :=
  let line := clampLineNumber document startLine + 1 in
  match lineAt document (line - 1) with
  | None => None
  | Some text =>
      let locationLine := orElse text "(empty line)" in
      let diagnostic :=
        orElse (match diagnosticMessage with
                | Some message => Js.trim message
                | None => ""
                end) "(none provided)" in
      Some {| line := line;
              prompt := "Diagnostic: " +:+ diagnostic +:+ newline
                        +:+ "Line: " +:+ Js.showZ line +:+ newline
                        +:+ "Code: " +:+ locationLine |}
  end.

(* ===================================================================== *)
(** ** Fixer ids *)
(* ===================================================================== *)

Inductive FixerId : Type := Codex | Claude | CodexCliFixer | ClaudeCliFixer.

(** The string a [FixerId] is at run time. *)
Definition fixerIdString (fixerId : FixerId) : string :=
  match fixerId with
  | Codex => "codex"
  | Claude => "claude"
  | CodexCliFixer => "codex-cli"
  | ClaudeCliFixer => "claude-cli"
  end.

Record FixerSpec : Type := mkFixerSpec {
  specId : FixerId;
  label : string
}.

Definition FIXERS (fixerId : FixerId) : FixerSpec :=
  match fixerId with
  | Codex => {| specId := Codex; label := "Codex" |}
  | Claude => {| specId := Claude; label := "Claude" |}
  | CodexCliFixer => {| specId := CodexCliFixer; label := "Codex CLI" |}
  | ClaudeCliFixer => {| specId := ClaudeCliFixer; label := "Claude CLI" |}
  end.

(** The two fields [resolveFixerId] reads from the command arguments, as
    the values they are at run time ([None] is [undefined]). *)
Record FixerRequest : Type := mkFixerRequest {
  requestFixerId : option Js.unknown;
  requestFixer : option Js.unknown
}.

(** [isFixerId(value)], returning the id it recognises. *)
Definition isFixerId (value : option Js.unknown) : option FixerId :=
  match value with
  | Some (Js.JString "codex") => Some Codex
  | Some (Js.JString "claude") => Some Claude
  | Some (Js.JString "codex-cli") => Some CodexCliFixer
  | Some (Js.JString "claude-cli") => Some ClaudeCliFixer
  | _ => None
  end.

Definition resolveFixerId (args : option FixerRequest) : option FixerId :=
  match args with
  | None => None
  | Some request =>
      match isFixerId (requestFixerId request) with
      | Some fixerId => Some fixerId
      | None =>
          match requestFixer request with
          | Some (Js.JString fixer) =>
              match Js.toLowerCase (Js.trim fixer) with
              | "codex" => Some Codex
              | "claude" => Some Claude
              | "codex cli" => Some CodexCliFixer
              | "claude cli" => Some ClaudeCliFixer
              | _ => None
              end
          | _ => None
          end
      end
  end.

(* ===================================================================== *)
(** ** Reporter: the lines of an output box *)
(* ===================================================================== *)

Definition OUTPUT_BOX_WIDTH : Z := 100.

(** [c.repeat(n)] for a one-character string. *)
Fixpoint repeatChar (c : ascii) (n : nat) : string :=
  match n with
  | O => EmptyString
  | S n' => String c (repeatChar c n')
  end.

(** [s.padEnd(n, " ")] *)
Definition padEnd (s : string) (n : Z) : string :=
  s +:+ repeatChar " " (Z.to_nat (n - Js.strlen s)).

Definition formatBoxLine (content : string) : string :=
  let innerWidth := OUTPUT_BOX_WIDTH - 2 in
  let trimmed :=
    if Z.gtb (Js.strlen content) innerWidth then Js.slice0 content innerWidth
    else content in
  "|" +:+ padEnd trimmed innerWidth +:+ "|".

(** The [for] loop of [wrapBoxContent], from [index] on: one round per unit
    of [fuel]; [content.slice(index, index + maxWidth)] is
    [substring index maxWidth content]. *)
Fixpoint wrapLoop (fuel : nat) (content : string) (maxWidth index : nat)
  : list string :=
  match fuel with
  | O => []
  | S fuel' =>
      if Nat.ltb index (String.length content)
      then String.substring index maxWidth content
             :: wrapLoop fuel' content maxWidth (index + maxWidth)
      else []
  end.

(** The loop advances by [maxWidth >= 1] characters a round, so
    [content.length] rounds are enough. *)
Definition wrapBoxContent (content : string) (maxWidth : Z) : list string :=
  if Z.leb maxWidth 0 then [""]
  else if Z.eqb (Js.strlen content) 0 then [""]
  else wrapLoop (String.length content) content (Z.to_nat maxWidth) 0.

(** Puts [c] in front of the first string of a non-empty list. *)
Definition consHead (c : ascii) (parts : list string) : list string :=
  match parts with
  | [] => [String c EmptyString]
  | p :: ps => String c p :: ps
  end.

(** [s.split(/\r?\n/)] *)
Fixpoint splitLines (s : string) : list string :=
  match s with
  | EmptyString => [""]
  | String c s' =>
      if Nat.eqb (nat_of_ascii c) 10 then "" :: splitLines s'
      else
        match s' with
        | String d s'' =>
            if (Nat.eqb (nat_of_ascii c) 13 && Nat.eqb (nat_of_ascii d) 10)%bool
            then "" :: splitLines s''
            else consHead c (splitLines s')
        | EmptyString => consHead c (splitLines s')
        end
  end.

(** [s.replace(/\t/g, "    ")] *)
Fixpoint expandTabs (s : string) : string :=
  match s with
  | EmptyString => EmptyString
  | String c s' =>
      if Nat.eqb (nat_of_ascii c) 9 then "    " +:+ expandTabs s'
      else String c (expandTabs s')
  end.

Definition boxBorder : string :=
  "+" +:+ repeatChar "-" (Z.to_nat (OUTPUT_BOX_WIDTH - 2)) +:+ "+".

(** The lines [appendOutputBox] appends for one section. *)
Definition sectionLines (section : string * string) : list string :=
  let (heading, content) := section in
  let body := orElse (Js.trim content) "(empty)" in
  (formatBoxLine (" " +:+ heading +:+ ":")
     :: flat_map
          (fun bodyLine =>
             map (fun wrapped => formatBoxLine ("   " +:+ wrapped))
                 (wrapBoxContent (expandTabs bodyLine) (OUTPUT_BOX_WIDTH - 6)))
          (splitLines body)
     ++ [formatBoxLine ""])%list.

(** The lines [appendOutputBox] appends to [OUTPUT] for one box. *)
Definition outputBoxLines (box : OutputBox) : list string :=
  (boxBorder
     :: map (fun titleLine => formatBoxLine (" " +:+ titleLine))
            (wrapBoxContent (title box) (OUTPUT_BOX_WIDTH - 4))
     ++ [boxBorder]
     ++ flat_map sectionLines (sections box)
     ++ [boxBorder])%list.

(** A line of the box that shows [content] whole: the bar, the content,
    blanks up to the inner width, the bar. *)
Definition wholeBoxLine (content : string) : string :=
  "|" +:+ (content
             +:+ repeatChar " " (Z.to_nat (OUTPUT_BOX_WIDTH - 2 - Js.strlen content)))
      +:+ "|".

(* ===================================================================== *)
(** ** What the shell makes of a quoted command line *)
(* ===================================================================== *)

(** Characters the POSIX shell takes literally outside quotes. *)
Definition isPlainShellChar (c : ascii) : bool :=
  let n := nat_of_ascii c in
  (Nat.leb 48 n && Nat.leb n 57       (* digits *)
   || Nat.leb 65 n && Nat.leb n 90    (* upper case *)
   || Nat.leb 97 n && Nat.leb n 122   (* lower case *)
   || Nat.eqb n 45 || Nat.eqb n 46 || Nat.eqb n 47 || Nat.eqb n 95)%bool.

Definition pushChar (current : option string) (c : ascii) : option string :=
  Some (default "" current +:+ String c EmptyString).

Definition closeWord (current : option string) (words : list string)
  : list string :=
  match current with
  | Some w => (words ++ [w])%list
  | None => words
  end.

(** Word splitting of the POSIX shell on the fragment of its grammar the
    catalog produces: blanks separate words, single quotes keep everything
    up to the next single quote, a backslash outside quotes keeps the next
    character.  [current] is the word under construction, [words] the words
    completed.  Anything else with a meaning to the shell (expansions,
    double quotes, operators, an unterminated quote) is [None]. *)
Fixpoint shellWordsFrom (s : string) (inQuote : bool) (current : option string)
         (words : list string) : option (list string) :=
  match s with
  | EmptyString => if inQuote then None else Some (closeWord current words)
  | String c rest =>
      if inQuote then
        if Nat.eqb (nat_of_ascii c) 39
        then shellWordsFrom rest false current words
        else shellWordsFrom rest true (pushChar current c) words
      else if Nat.eqb (nat_of_ascii c) 39 then
        shellWordsFrom rest true (Some (default "" current)) words
      else if Nat.eqb (nat_of_ascii c) 92 then
        match rest with
        | String d rest' =>
            if Nat.eqb (nat_of_ascii d) 10 then None
            else shellWordsFrom rest' false (pushChar current d) words
        | EmptyString => None
        end
      else if (Nat.eqb (nat_of_ascii c) 32 || Nat.eqb (nat_of_ascii c) 9)%bool then
        shellWordsFrom rest false None (closeWord current words)
      else if isPlainShellChar c then
        shellWordsFrom rest false (pushChar current c) words
      else None
  end.

Definition shellWords (commandLine : string) : option (list string) :=
  shellWordsFrom commandLine false None [].

(** The argument vector a run command spells out for the target tool:
    the command and its arguments when the tool is started directly, what
    follows [wsl --exec], or the words of the line handed to [bash -lc].
    Any other use of [wsl] hands its arguments to the default shell of the
    distribution before anything is started, so that the command alone
    does not decide what the tool receives: [None]. *)
Definition toolArgv (spec : CommandSpec) : option (list string) :=
  match command spec, args spec with
  | "bash", ["-lc"; commandLine] => shellWords commandLine
  | "wsl", "--exec" :: argv => Some argv
  | "wsl", _ => None
  | binary, argv => Some (binary :: argv)
  end.

(* ===================================================================== *)
(** ** Vocabulary of the further properties *)
(* ===================================================================== *)

(** [parts.join("")] *)
Definition glue (parts : list string) : string := fold_right String.append "" parts.

(** Everything a child wrote to stdout, and to stderr, in a run of events. *)
Definition stdoutOf (events : list ChildEvent) : string :=
  glue (omap (fun ev => match ev with StdoutData chunk => Some chunk | _ => None end)
             events).

Definition stderrOf (events : list ChildEvent) : string :=
  glue (omap (fun ev => match ev with StderrData chunk => Some chunk | _ => None end)
             events).

Definition isTimer (ev : ChildEvent) : bool :=
  match ev with
  | TimerFired => true
  | _ => false
  end.

(** The result [runCommand] resolves with when [final] is the first
    ['error'] or ['close'] and [before] is what was delivered until then. *)
Definition resultOf (before : list ChildEvent) (final : ChildEvent)
  : ProcessResult :=
  match final with
  | ErrorEvent message code =>
      {| exitCode := None;
         stdout := Js.slice0 (stdoutOf before) MAX_PROCESS_OUTPUT_CHARS;
         stderr := Js.slice0 (stderrOf before +:+ message) MAX_PROCESS_OUTPUT_CHARS;
         timedOut := false;
         errorCode := code |}
  | CloseEvent code =>
      {| exitCode := code;
         stdout := Js.slice0 (stdoutOf before) MAX_PROCESS_OUTPUT_CHARS;
         stderr := Js.slice0 (stderrOf before) MAX_PROCESS_OUTPUT_CHARS;
         timedOut := existsb isTimer before;
         errorCode := None |}
  | _ => mkProcessResult None "" "" false None
  end.




(** Every probe answer known in [st] is still the answer in [st']. *)
Definition probeCacheGrows {W} (st st' : State W) : Prop :=
  forall key answer,
    cliProbeCache st !! key = Some answer ->
    cliProbeCache st' !! key = Some answer.

(** The command lines of the processes spawned in a trace. *)
Definition spawnedCommands (es : list Effect) : list CommandSpec :=
  omap (fun e => match e with
                 | Spawn spec _ _ _ => Some spec
                 | GetCommands _ => None
                 end) es.

(** [spec] is the probe of one of the routes or its run command for the
    prompt. *)
Definition commandOfRoutes (routes : list CliRoute) (cliPrompt : string)
           (spec : CommandSpec) : Prop :=
  exists route,
    route ∈ routes /\ (spec = probe route \/ spec = buildRun route cliPrompt).

(** A run after which the loop of [runCliFix] goes on to the next
    candidate. *)
Definition isSoftRun (result : ProcessResult) : bool :=
  match classifyRun result with
  | SandboxNotice | InvocationFailure => true
  | Success | HardFailure => false
  end.

Definition isHardRun (result : ProcessResult) : bool :=
  match classifyRun result with
  | HardFailure => true
  | _ => false
  end.

(** The box [runCliFix] writes after a successful run. *)
Definition successBox (fixerId : CliFixerId) (route : CliRoute)
           (cliPrompt : string) (result : ProcessResult) : OutputBox :=
  mkOutputBox (fixerLabel fixerId +:+ " Quick Fix")
    [ ("Route", display route);
      ("Prompt", cliPrompt);
      ("CLI Output",
       let text := getProcessOutputText result in
       if String.eqb text "" then "(command returned no output)" else text) ].

(** The box [runCliFix] writes when no run succeeded. *)
Definition failureBox (fixerId : CliFixerId) (cliPrompt : string)
           (failures : list string) : OutputBox :=
  mkOutputBox (fixerLabel fixerId +:+ " Quick Fix Failed")
    [ ("Prompt", cliPrompt); ("Route Failures", summarizeFailures failures) ].

(** The kind of fixer a CLI fixer id is. *)
Definition cliFixer (fixerId : CliFixerId) : FixerId :=
  match fixerId with
  | CodexCli => CodexCliFixer
  | ClaudeCli => ClaudeCliFixer
  end.

Section Menu.

Context {W : Type} `{!Host W}.

Definition getEnabledFixers : M W (list FixerSpec) :=
  let! st := getState in
  let config := configuration st in
  let codex := parseBoolean (config !! "codex") true in
  let claude := parseBoolean (config !! "claude") true in
  let codexCli := parseBoolean (config !! "codex-cli") false in
  let claudeCli := parseBoolean (config !! "claude-cli") false in
  let enabled0 :=
    ((if codex then [FIXERS Codex] else [])
       ++ (if claude then [FIXERS Claude] else []))%list in
  let! codexRoute := (if codexCli then getCliRoute CodexCli false else ret None) in
  let enabled1 :=
    (enabled0 ++ (match codexRoute with
                  | Some _ => [FIXERS CodexCliFixer]
                  | None => []
                  end))%list in
  let! claudeRoute := (if claudeCli then getCliRoute ClaudeCli false else ret None) in
  ret (enabled1 ++ (match claudeRoute with
                    | Some _ => [FIXERS ClaudeCliFixer]
                    | None => []
                    end))%list.

End Menu.

(* ===================================================================== *)
(** ** Further scripted scenarios *)
(* ===================================================================== *)

(** Only [bash] can be started; whatever it is asked to run exits 0. *)
Definition onlyThroughShell : Scripted :=
  mkScripted 0
    (fun _ spec => if String.eqb (command spec) "bash" then exitsWith 0
                   else notInstalled (command spec))
    (fun _ => []).

Definition shellOnly : State Scripted := activated ∅ onlyThroughShell.

(** Two routes of the [codex-cli] catalog that start [codex] directly,
    with different run arguments. *)
Definition codexWorkspaceWrite : CliRoute := nth 0 getCodexCliRoutes noRoute.
Definition codexFullAuto : CliRoute := nth 4 getCodexCliRoutes noRoute.

(** The first [claude-cli] route that goes through [bash]. *)
Definition claudeThroughShell : CliRoute := nth 2 getClaudeCliRoutes noRoute.

(** The bridge is switched off. *)
Definition bridgeOff : Configuration := {["enable-wsl-routes" := Js.JBoolean false]}.

Definition bridgeDisabled : State Scripted := activated bridgeOff onlyThroughShell.

(** Both CLI fixers are switched on, and the Codex command fixer off. *)
Definition cliFixersOn : Configuration :=
  <["codex" := Js.JBoolean false]>
    (<["codex-cli" := Js.JBoolean true]> {["claude-cli" := Js.JBoolean true]}).

(** [claude] is installed, [codex] is not. *)
Definition onlyClaude : Scripted :=
  mkScripted 0
    (fun _ spec => if String.eqb (command spec) "claude" then exitsWith 0
                   else notInstalled (command spec))
    (fun _ => []).

Definition menuRequested : State Scripted := activated cliFixersOn onlyClaude.

(** Membership in a menu whose entries are known. *)
Ltac menu_case :=
  rewrite ?elem_of_app, ?elem_of_cons, ?elem_of_nil;
  split;
  [ intros Hin;
    repeat match goal with
           | H : _ \/ _ |- _ => destruct H
           | H : False |- _ => destruct H
           end;
    try discriminate; eauto
  | intros Hon;
    repeat match goal with
           | H : _ /\ _ |- _ => destruct H
           | H : exists _, _ |- _ => destruct H
           end;
    try discriminate; auto 10 ].

(* ===================================================================== *)
(** ** Code actions *)
(* ===================================================================== *)

(** A [vscode.Range] as its four coordinates. *)
Record Range : Type := mkRange {
  startLine : Z;
  startCharacter : Z;
  endLine : Z;
  endCharacter : Z
}.

(** A [vscode.Uri] as what the extension reads of it, directly or through
    the editor: [fsPath], [encodeURIComponent(fsPath)], and the working
    directory and the display path that [runCliFix] obtains for it. *)
Record Uri : Type := mkUri {
  fsPath : string;
  encodedFsPath : string;
  located : RunFixerArgs
}.

(** What [provideCodeActions] reads of a [vscode.Diagnostic]; [None] is a
    [range] that [??] replaces. *)
Record Diagnostic : Type := mkDiagnostic {
  diagnosticRange : option Range;
  diagnosticText : string
}.

(** The argument of the command [aiQuickFix.runFixer] as it is at run
    time: the two fields [resolveFixerId] reads, then [uri], [range] and
    [diagnosticMessage], each of which may be missing. *)
Record CommandArguments : Type := mkCommandArguments {
  request : FixerRequest;
  argumentUri : option Uri;
  argumentRange : option Range;
  argumentDiagnosticMessage : option string
}.

Record CodeAction : Type := mkCodeAction {
  actionTitle : string;
  isPreferred : bool;
  actionDiagnostics : list Diagnostic;
  commandId : string;
  commandTitle : string;
  commandArguments : CommandArguments
}.

Definition doubleQuote : string := String (ascii_of_nat 34) EmptyString.

(** The body of the inner loop of [provideCodeActions]. *)
Definition codeActionFor (uri : Uri) (range : Range)
           (diagnostic : Diagnostic) (fixer : FixerSpec) : CodeAction :=
  {| actionTitle := "Fix With " +:+ doubleQuote +:+ label fixer +:+ doubleQuote;
     isPreferred := false;
     actionDiagnostics := [diagnostic];
     commandId := "aiQuickFix.runFixer";
     commandTitle := "Run fixer " +:+ label fixer;
     commandArguments :=
       {| request :=
            {| requestFixerId := Some (Js.JString (fixerIdString (specId fixer)));
               requestFixer := None |};
          argumentUri := Some uri;
          argumentRange := Some (default range (diagnosticRange diagnostic));
          argumentDiagnosticMessage := Some (diagnosticText diagnostic) |} |}.

Section Provider.

Context {W : Type} `{!Host W}.

Definition provideCodeActions (uri : Uri) (range : Range)
           (diagnostics : list Diagnostic) : M W (list CodeAction) :=
  let! fixers := getEnabledFixers in
  if (Nat.eqb (length fixers) 0 || Nat.eqb (length diagnostics) 0)%bool
  then ret []
  else ret (flat_map (fun diagnostic =>
                        map (codeActionFor uri range diagnostic) fixers)
                     diagnostics).

End Provider.

(* ===================================================================== *)
(** ** The command [aiQuickFix.runFixer] and the editor fixers *)
(* ===================================================================== *)

Definition CODEX_COMMAND : string := "chatgpt.implementTodo".
Definition CLAUDE_EDITOR_COMMAND : string := "claude-vscode.editor.open".
Definition CLAUDE_TERMINAL_COMMAND : string := "claude-vscode.terminal.open".

(** A value passed to [vscode.commands.executeCommand] after the command
    id: a string, an array of strings, or the object
    [{ fileName, line, comment }]. *)
Inductive Argument : Type :=
| ArgString (value : string)
| ArgStrings (values : list string)
| ArgTodo (fileName : string) (todoLine : Z) (comment : string).

(** How the promise of a call into the editor ends.  A rejection is seen
    through the message a [catch] extracts from it
    ([err instanceof Error ? err.message : String(err)]). *)
Inductive Outcome (A : Type) : Type :=
| Fulfilled (value : A)
| Rejected (message : string)
| Pending.

Arguments Fulfilled {A}.
Arguments Rejected {A}.
Arguments Pending {A}.

(** The editor side of the outside world: executing a command, opening a
    document, the message of the error [lineAt] throws out of range, the
    clock, and [Math.floor(Math.random() * 1_000_000)]. *)
Class Editor (W : Type) : Type := {
  executeCommand : W -> string -> list Argument -> Outcome unit * W;
  openTextDocument : W -> Uri -> Outcome TextDocument * W;
  lineAtMessage : string;
  dateNow : W -> Z * W;
  randomMillion : W -> Z * W
}.

(** One call of [executeCommand] that settled; [None] is fulfilment,
    [Some message] a rejection. *)
Record Execution : Type := mkExecution {
  executedCommand : string;
  executedArguments : list Argument;
  executedRejection : option string
}.

(** The module state together with what the handler of the command leaves
    outside it: the plain lines appended to [OUTPUT], the messages given
    to [showErrorMessage], and the editor commands executed.  Boxes and
    plain lines of [OUTPUT] are kept apart, each in its order. *)
Record Desk (W : Type) : Type := mkDesk {
  engine : State W;
  channelLines : list string;
  errorsShown : list string;
  executions : list Execution
}.

Arguments mkDesk {W}.
Arguments engine {W}.
Arguments channelLines {W}.
Arguments errorsShown {W}.
Arguments executions {W}.

(** The host moved to [w] through the editor. *)
Definition withWorld {W} (d : Desk W) (w : W) : Desk W :=
  let st := engine d in
  mkDesk (mkState (extensionContextRef st) (cliRouteCache st) (cliProbeCache st)
                  (commandAvailabilityCache st) (configuration st)
                  (probeWorkingDirectory st) (OUTPUT st) w (effects st))
         (channelLines d) (errorsShown d) (executions d).

(** Asynchronous computations of the handler. *)
Definition E (W A : Type) : Type := Desk W -> option (A * Desk W).

Definition done {W A} (a : A) : E W A := fun d => Some (a, d).

Definition andThen {W A B} (m : E W A) (k : A -> E W B) : E W B := fun d =>
  match m d with
  | Some (a, d') => k a d'
  | None => None
  end.

Notation "'do!' x ':=' m 'in' k" := (andThen m (fun x => k))
  (at level 10, x name, m at level 100, k at level 200).

(** A computation of the engine, run on the module state of the desk. *)
Definition liftEngine {W A} (m : M W A) : E W A := fun d =>
  match m (engine d) with
  | Some (a, st) =>
      Some (a, mkDesk st (channelLines d) (errorsShown d) (executions d))
  | None => None
  end.

(** [OUTPUT.appendLine(text)] *)
Definition appendLine {W} (text : string) : E W unit := fun d =>
  Some (tt, mkDesk (engine d) (channelLines d ++ [text])%list (errorsShown d)
                   (executions d)).

(** [void vscode.window.showErrorMessage(text)] *)
Definition showErrorMessage {W} (text : string) : E W unit := fun d =>
  Some (tt, mkDesk (engine d) (channelLines d) (errorsShown d ++ [text])%list
                   (executions d)).

(** [s.padStart(n, c)] for a one-character [c]. *)
Definition padStart (s : string) (n : Z) (c : ascii) : string :=
  repeatChar c (Z.to_nat (n - Js.strlen s)) +:+ s.

(** The fixers the handler dispatches to. *)
Definition invalidArguments : string := "AI Quick Fix: invalid command arguments.".

Definition claudeMissing : string :=
  "Claude quick fix requires the Claude Code VS Code extension.".

Definition codexMissing : string :=
  "Codex quick fix requires the OpenAI ChatGPT VS Code extension.".

Section Handler.

Context {W : Type} `{!Host W} `{!Editor W}.

(** [await vscode.commands.executeCommand(command, ...arguments)]: [None]
    when it is fulfilled, the message when it is rejected. *)
Definition execute (command : string) (arguments : list Argument)
  : E W (option string) := fun d =>
  let (outcome, w) := executeCommand (host (engine d)) command arguments in
  match outcome with
  | Pending => None
  | Fulfilled _ =>
      let d' := withWorld d w in
      Some (None,
            mkDesk (engine d') (channelLines d') (errorsShown d')
                   (executions d' ++ [mkExecution command arguments None])%list)
  | Rejected message =>
      let d' := withWorld d w in
      Some (Some message,
            mkDesk (engine d') (channelLines d') (errorsShown d')
                   (executions d'
                      ++ [mkExecution command arguments (Some message)])%list)
  end.

Definition makeClaudeSessionId : E W string := fun d =>
  let (timestamp, w1) := dateNow (host (engine d)) in
  let (nonce, w2) := randomMillion w1 in
  Some ("ai-quick-fix-" +:+ Js.showZ timestamp +:+ "-"
          +:+ padStart (Js.showZ nonce) 6 "0",
        withWorld d w2).

Definition runCodexFix (uri : Uri) (promptSpec : PromptSpec) : E W Completion :=
  do! available := liftEngine (assertCommandAvailable CODEX_COMMAND codexMissing) in
  match available with
  | Thrown message => done (Thrown message)
  | Resolved =>
      do! rejection := execute CODEX_COMMAND
                         [ArgTodo (encodedFsPath uri) (line promptSpec)
                                  (prompt promptSpec)] in
      match rejection with
      | Some message => done (Thrown message)
      | None =>
          do! _ := appendLine ("[codex] Sent minimal prompt to line "
                                 +:+ Js.showZ (line promptSpec) +:+ ".") in
          done Resolved
      end
  end.

(** One of the two flows of [runClaudeFix]: [inl tt] is its [return],
    [inr failures] the failures collected when it is left otherwise. *)
Definition claudeEditorFlow (prompt : string) (failures : list string)
  : E W (unit + list string) :=
  do! sessionId := makeClaudeSessionId in
  do! rejection := execute CLAUDE_EDITOR_COMMAND
                     [ArgString sessionId; ArgString prompt] in
  match rejection with
  | None =>
      do! _ := appendLine "[claude] Opened Claude chat and submitted prompt." in
      done (inl tt)
  | Some message =>
      done (inr (failures ++ ["editor flow failed: " +:+ message])%list)
  end.

Definition claudeTerminalFlow (prompt : string) (failures : list string)
  : E W (unit + list string) :=
  do! rejection := execute CLAUDE_TERMINAL_COMMAND
                     [ArgString prompt; ArgStrings ["-p"]; ArgString "beside"] in
  match rejection with
  | None =>
      do! _ := appendLine
                 "[claude] Submitted prompt through Claude terminal fallback." in
      done (inl tt)
  | Some message =>
      done (inr (failures ++ ["terminal fallback failed: " +:+ message])%list)
  end.

Definition runClaudeFix (prompt : string) : E W Completion :=
  do! editorAvailable := liftEngine (isCommandAvailable CLAUDE_EDITOR_COMMAND) in
  do! terminalAvailable :=
    liftEngine (isCommandAvailable CLAUDE_TERMINAL_COMMAND) in
  if (negb editorAvailable && negb terminalAvailable)%bool
  then done (Thrown claudeMissing)
  else
    do! viaEditor := (if editorAvailable : bool
                      then claudeEditorFlow prompt []
                      else done (inr [])) in
    match viaEditor with
    | inl _ => done Resolved
    | inr failures =>
        do! viaTerminal := (if terminalAvailable : bool
                            then claudeTerminalFlow prompt failures
                            else done (inr failures)) in
        match viaTerminal with
        | inl _ => done Resolved
        | inr failures' =>
            done (Thrown ("Claude quick fix failed. "
                            +:+ orElse (Js.join " | " failures')
                                       "No executable route was available."))
        end
    end.

(** [buildPrompt] with its [openTextDocument]. *)
Definition openAndBuildPrompt (uri : Uri) (range : Range)
           (diagnosticMessage : option string) : E W (PromptSpec + string) :=
  fun d =>
    let (outcome, w) := openTextDocument (host (engine d)) uri in
    match outcome with
    | Pending => None
    | Rejected message => Some (inr message, withWorld d w)
    | Fulfilled document =>
        match buildPrompt document (startLine range) diagnosticMessage with
        | Some promptSpec => Some (inl promptSpec, withWorld d w)
        | None => Some (inr lineAtMessage, withWorld d w)
        end
    end.

(** [runVsCodeCommandFixer] on arguments whose [uri] and [range] the
    handler has found present. *)
Definition runVsCodeCommandFixer (uri : Uri) (range : Range)
           (diagnosticMessage : option string) (fixerId : FixerId)
  : E W Completion :=
  do! built := openAndBuildPrompt uri range diagnosticMessage in
  match built with
  | inr message => done (Thrown message)
  | inl promptSpec =>
      match fixerId with
      | Codex => runCodexFix uri promptSpec
      | Claude => runClaudeFix (prompt promptSpec)
      | CodexCliFixer =>
          liftEngine (runCliFix (located uri) (prompt promptSpec) CodexCli)
      | ClaudeCliFixer =>
          liftEngine (runCliFix (located uri) (prompt promptSpec) ClaudeCli)
      end
  end.

(** The handler registered for [aiQuickFix.runFixer]. *)
Definition runFixerCommand (args : option CommandArguments) : E W unit :=
  match args, resolveFixerId (option_map request args) with
  | Some a, Some fixerId =>
      match argumentUri a, argumentRange a with
      | Some uri, Some range =>
          do! completion :=
            runVsCodeCommandFixer uri range (argumentDiagnosticMessage a)
                                  fixerId in
          match completion with
          | Resolved => done tt
          | Thrown msg =>
              do! _ := appendLine ("[error] " +:+ msg) in
              showErrorMessage ("AI Quick Fix failed: " +:+ msg)
          end
      | _, _ => showErrorMessage invalidArguments
      end
  | _, _ => showErrorMessage invalidArguments
  end.

End Handler.

(** What was executed, appended and shown between [d] and a later [d']. *)
Definition newExecutions {W} (d d' : Desk W) : list Execution :=
  drop (length (executions d)) (executions d').

Definition newLines {W} (d d' : Desk W) : list string :=
  drop (length (channelLines d)) (channelLines d').

Definition newErrors {W} (d d' : Desk W) : list string :=
  drop (length (errorsShown d)) (errorsShown d').

(** From [d] to [d'] the three records grew by [execs], [lines] and
    [errors]. *)
Definition deskAdvances {W} (d d' : Desk W) (execs : list Execution)
           (lines errors : list string) : Prop :=
  executions d' = (executions d ++ execs)%list
  /\ channelLines d' = (channelLines d ++ lines)%list
  /\ errorsShown d' = (errorsShown d ++ errors)%list.

(** The desk a computation ends at, and what it returns, when it
    settles. *)
Definition finalDesk {W A} (m : E W A) (d : Desk W) : Desk W :=
  match m d with
  | Some (_, d') => d'
  | None => d
  end.

Definition deskAnswer {W A} (fallback : A) (m : E W A) (d : Desk W) : A :=
  match m d with
  | Some (a, _) => a
  | None => fallback
  end.

(** The failure [runClaudeFix] records for a rejected execution. *)
Definition claudeFailure (e : Execution) : string :=
  (if String.eqb (executedCommand e) CLAUDE_EDITOR_COMMAND
   then "editor flow failed: "
   else "terminal fallback failed: ")
    +:+ default "" (executedRejection e).

Definition isRejected (e : Execution) : bool :=
  match executedRejection e with
  | Some _ => true
  | None => false
  end.

(** The command was seen registered: [commandAvailabilityCache.has]. *)
Definition seenRegistered {W} (d : Desk W) (command : string) : Prop :=
  is_Some (commandAvailabilityCache (engine d) !! command).

(** The check of the handler: arguments it goes on with. *)
Definition acceptedArguments (args : option CommandArguments)
  : option (Uri * Range * option string * FixerId) :=
  match args, resolveFixerId (option_map request args) with
  | Some a, Some fixerId =>
      match argumentUri a, argumentRange a with
      | Some uri, Some range =>
          Some (uri, range, argumentDiagnosticMessage a, fixerId)
      | _, _ => None
      end
  | _, _ => None
  end.

(* ===================================================================== *)
(** ** Scripted scenarios of the handler *)
(* ===================================================================== *)

(** One diagnostic, without a range of its own. *)
Definition sampleDiagnostic : Diagnostic := mkDiagnostic None "unused variable".

Definition sampleRange : Range := mkRange 2 0 2 10.

Definition sampleUri : Uri :=
  mkUri "/work/src/main.ts" "%2Fwork%2Fsrc%2Fmain.ts" sampleArgs.

(** A world for the handler: the scripted processes and registered
    commands, the rejection each editor command meets if any, and the
    outcome of opening the document. *)
Record Office : Type := mkOffice {
  scripted : Scripted;
  rejections : string -> option string;
  opening : Outcome TextDocument
}.

Global Instance officeHost : Host Office := {
  spawn w spec cwd timeoutMs :=
    let (outcome, s) := spawn (scripted w) spec cwd timeoutMs in
    (outcome, mkOffice s (rejections w) (opening w));
  getCommands w :=
    let (commands, s) := getCommands (scripted w) in
    (commands, mkOffice s (rejections w) (opening w))
}.

Global Instance officeEditor : Editor Office := {
  executeCommand w command _ :=
    (match rejections w command with
     | Some message => Rejected message
     | None => Fulfilled tt
     end, w);
  openTextDocument w _ := (opening w, w);
  lineAtMessage := "Illegal value for line";
  dateNow w := (1700000000000, w);
  randomMillion w := (4711, w)
}.

Definition sampleDocument : TextDocument :=
  mkTextDocument ["let a = 1;"; ""; "let x = 1;"; "use(a)"].

(** Both Claude commands are registered, and so is the Codex command;
    the editor flow of Claude is rejected. *)
Definition editorFlowBroken : Office :=
  mkOffice
    (mkScripted 0 (fun _ _ => exitsWith 0)
                (fun _ => [CODEX_COMMAND; CLAUDE_EDITOR_COMMAND;
                           CLAUDE_TERMINAL_COMMAND]))
    (fun command => if String.eqb command CLAUDE_EDITOR_COMMAND
                    then Some "webview is gone" else None)
    (Fulfilled sampleDocument).

Definition atDesk (w : Office) : Desk Office :=
  mkDesk (activated ∅ w) [] [] [].

(** The argument of the action offered for the Codex fixer. *)
Definition codexArguments : CommandArguments :=
  commandArguments (codeActionFor sampleUri sampleRange sampleDiagnostic
                                  (FIXERS Codex)).

(* ===================================================================== *)
(** ** Properties of the Route Catalog *)
(* ===================================================================== *)

Lemma getCliRouteCandidates_enabled (config : Configuration) (fixerId : CliFixerId) :
  enableWslRoutes (getCliSettings config) = true ->
  getCliRouteCandidates config fixerId
  = match fixerId with
    | CodexCli => getCodexCliRoutes
    | ClaudeCli => getClaudeCliRoutes
    end.
Proof. unfold getCliRouteCandidates. intros ->. reflexivity. Qed.

Lemma getCliRouteCandidates_disabled (config : Configuration) (fixerId : CliFixerId) :
  enableWslRoutes (getCliSettings config) = false ->
  getCliRouteCandidates config fixerId
  = filter (fun route => negb (Js.startsWith (id route) "wsl"))
           match fixerId with
           | CodexCli => getCodexCliRoutes
           | ClaudeCli => getClaudeCliRoutes
           end.
Proof. unfold getCliRouteCandidates. intros ->. reflexivity. Qed.

(** In both catalogs the id prefix [wsl] marks exactly the routes whose
    probe and run commands start [wsl]. *)
Lemma bridge_prefix_iff_bridge_command (fixerId : CliFixerId) (prompt : string) :
  Forall (fun route =>
            Js.startsWith (id route) "wsl" = usesBridge route
            /\ command (buildRun route prompt) = command (probe route))
         match fixerId with
         | CodexCli => getCodexCliRoutes
         | ClaudeCli => getClaudeCliRoutes
         end.
Proof. destruct fixerId; repeat constructor. Qed.

Lemma candidate_ids_NoDup (config : Configuration) (fixerId : CliFixerId) :
  NoDup (map id (getCliRouteCandidates config fixerId)).
Proof.
  destruct (enableWslRoutes (getCliSettings config)) eqn:Hflag.
  - rewrite (getCliRouteCandidates_enabled _ _ Hflag).
    destruct fixerId; apply (bool_decide_unpack _); vm_compute; exact I.
  - rewrite (getCliRouteCandidates_disabled _ _ Hflag).
    destruct fixerId; apply (bool_decide_unpack _); vm_compute; exact I.
Qed.

(** C9. Whatever the fixer kind and the bridge setting, no two routes of
    the candidate list returned by the catalog share an id: two positions
    of the list holding the same id are the same position. *)
Theorem candidate_ids_unique (config : Configuration) (fixerId : CliFixerId) :
  NoDup (map id (getCliRouteCandidates config fixerId))
  /\ (forall (i j : nat) (r1 r2 : CliRoute),
        getCliRouteCandidates config fixerId !! i = Some r1 ->
        getCliRouteCandidates config fixerId !! j = Some r2 ->
        id r1 = id r2 -> i = j).
Proof.
  pose proof (candidate_ids_NoDup config fixerId) as Hnd.
  split; [exact Hnd |].
  intros i j r1 r2 Hi Hj Hid.
  apply (NoDup_lookup (map id (getCliRouteCandidates config fixerId)) i j (id r1));
    [exact Hnd | |].
  - rewrite list_lookup_fmap, Hi. reflexivity.
  - rewrite list_lookup_fmap, Hj, Hid. reflexivity.
Qed.

(** The ids of the ten [claude-cli] routes. *)
Lemma candidate_ids_unique_witness :
  NoDup (map id (getCliRouteCandidates ∅ ClaudeCli)).
Proof. apply (candidate_ids_unique ∅ ClaudeCli). Defined.

(** C7. With the bridge setting off the candidate list is the list obtained
    with the setting on, with exactly the routes that start [wsl] filtered
    out: order and fields of the others are untouched, a route survives if
    and only if it does not use the bridge. *)
Theorem disabling_bridge_filters_bridge_routes
        (configOn configOff : Configuration) (fixerId : CliFixerId) :
  enableWslRoutes (getCliSettings configOn) = true ->
  enableWslRoutes (getCliSettings configOff) = false ->
  getCliRouteCandidates configOff fixerId
  = filter (fun route => negb (usesBridge route))
           (getCliRouteCandidates configOn fixerId)
  /\ (forall route,
        route ∈ getCliRouteCandidates configOff fixerId
        <-> route ∈ getCliRouteCandidates configOn fixerId
            /\ usesBridge route = false).
Proof.
  intros Hon Hoff.
  assert (Heq : getCliRouteCandidates configOff fixerId
                = filter (fun route => negb (usesBridge route))
                         (getCliRouteCandidates configOn fixerId)).
  { rewrite (getCliRouteCandidates_enabled _ _ Hon),
            (getCliRouteCandidates_disabled _ _ Hoff).
    destruct fixerId; vm_compute; reflexivity. }
  split; [exact Heq |].
  intros route. rewrite Heq, list_elem_of_filter.
  destruct (usesBridge route); simpl; intuition congruence.
Qed.

(** The default settings against [enable-wsl-routes: false]. *)
Lemma disabling_bridge_filters_bridge_routes_witness :
  getCliRouteCandidates {["enable-wsl-routes" := Js.JBoolean false]} ClaudeCli
  = filter (fun route => negb (usesBridge route)) (getCliRouteCandidates ∅ ClaudeCli)
  /\ (forall route,
        route ∈ getCliRouteCandidates {["enable-wsl-routes" := Js.JBoolean false]} ClaudeCli
        <-> route ∈ getCliRouteCandidates ∅ ClaudeCli /\ usesBridge route = false).
Proof.
  apply (disabling_bridge_filters_bridge_routes
           ∅ {["enable-wsl-routes" := Js.JBoolean false]} ClaudeCli);
    reflexivity.
Defined.

(** C2, refuted as stated: with bridge routes allowed, the binary [claude]
    gets five routes, not eight, and no route pairs the POSIX shell with the
    [--print] spelling. *)
Lemma claude_catalog_is_not_a_full_product :
  length (filter (fun route => Js.includes (id route) ":claude:")
                 (getCliRouteCandidates ∅ ClaudeCli)) = 5%nat
  /\ ~ (forall binary transport spelling,
          binary ∈ claudeBinaries -> transport ∈ transports ->
          spelling ∈ printSpellings ->
          exists route,
            route ∈ getCliRouteCandidates ∅ ClaudeCli
            /\ id route = claudeRouteId transport binary spelling).
Proof.
  split; [reflexivity |].
  intros Hall.
  destruct (Hall "claude" "bash" "print") as (route & Hin & Hid).
  - set_solver.
  - unfold transports. set_solver.
  - unfold printSpellings. set_solver.
  - apply (list_elem_of_fmap_2 id) in Hin. rewrite Hid in Hin.
    revert Hin. apply (bool_decide_unpack _). vm_compute. exact I.
Qed.

(** C2, as the catalog is: with bridge routes allowed there are ten
    [claude-cli] routes, five for each binary; every transport carries the
    [-p] spelling, and the [--print] spelling exists for the native
    transport only. *)
Theorem claude_catalog_shape (config : Configuration) :
  enableWslRoutes (getCliSettings config) = true ->
  let routes := getCliRouteCandidates config ClaudeCli in
  length routes = 10%nat
  /\ Forall (fun binary =>
               length (filter (fun route =>
                                 Js.includes (id route) (":" +:+ binary +:+ ":"))
                              routes) = 5%nat
               /\ Forall (fun transport =>
                            claudeRouteId transport binary "p" ∈ map id routes)
                         transports
               /\ Forall (fun transport =>
                            claudeRouteId transport binary "print" ∈ map id routes
                            <-> transport = "native")
                         transports)
            claudeBinaries
  /\ Forall (fun route =>
               usesLongSpelling route = true
               <-> id route
                   ∈ map (fun binary => claudeRouteId "native" binary "print")
                         claudeBinaries)
            routes.
Proof.
  intros Hflag routes. subst routes.
  rewrite (getCliRouteCandidates_enabled _ _ Hflag).
  split; [reflexivity |].
  split; apply (bool_decide_unpack _); vm_compute; exact I.
Qed.

(** The default settings allow bridge routes. *)
Lemma claude_catalog_shape_witness :
  length (getCliRouteCandidates ∅ ClaudeCli) = 10%nat.
Proof. apply (claude_catalog_shape ∅). reflexivity. Defined.

(** Every candidate comes from the catalog of its kind. *)
Lemma candidates_in_catalog (config : Configuration) (fixerId : CliFixerId)
      (route : CliRoute) :
  route ∈ getCliRouteCandidates config fixerId ->
  route ∈ match fixerId with
          | CodexCli => getCodexCliRoutes
          | ClaudeCli => getClaudeCliRoutes
          end.
Proof.
  unfold getCliRouteCandidates.
  destruct (negb (enableWslRoutes (getCliSettings config))); [| tauto].
  rewrite list_elem_of_filter. tauto.
Qed.

(** Facts read off the two catalogs: ids are never empty, and a codex id
    mentions [:workspace-write] exactly when the run command asks for the
    [workspace-write] sandbox. *)
Lemma catalog_id_facts (fixerId : CliFixerId) :
  Forall (fun route =>
            String.eqb (id route) "" = false
            /\ (fixerId = CodexCli ->
                Js.includes (id route) ":workspace-write" = writesWorkspace route))
         match fixerId with
         | CodexCli => getCodexCliRoutes
         | ClaudeCli => getClaudeCliRoutes
         end.
Proof.
  destruct fixerId; repeat (apply List.Forall_cons); try apply List.Forall_nil;
    (split; [reflexivity | intros _; try reflexivity; discriminate]).
Qed.

Lemma candidate_id_facts (config : Configuration) (fixerId : CliFixerId)
      (route : CliRoute) :
  route ∈ getCliRouteCandidates config fixerId ->
  String.eqb (id route) "" = false
  /\ (fixerId = CodexCli ->
      Js.includes (id route) ":workspace-write" = writesWorkspace route).
Proof.
  intros Hin. apply candidates_in_catalog, list_elem_of_In in Hin.
  pose proof (catalog_id_facts fixerId) as Hfacts.
  rewrite List.Forall_forall in Hfacts. apply Hfacts, Hin.
Qed.

Lemma find_by_unique_id (routes : list CliRoute) (route : CliRoute) :
  NoDup (map id routes) -> route ∈ routes ->
  find (fun r => String.eqb (id r) (id route)) routes = Some route.
Proof.
  induction routes as [| r routes IH]; intros Hnd Hin.
  - inversion Hin.
  - simpl. apply NoDup_cons in Hnd as [Hfresh Hnd].
    destruct (String.eqb_spec (id r) (id route)) as [Heq | Hne].
    + apply elem_of_cons in Hin as [-> | Hin]; [reflexivity |].
      exfalso. apply Hfresh. rewrite Heq.
      apply (list_elem_of_fmap_2 id), Hin.
    + apply elem_of_cons in Hin as [-> | Hin]; [congruence |].
      apply IH; assumption.
Qed.

(** Moving a candidate to the front by its id. *)
Lemma orderRoutesWithPreferred_candidate (config : Configuration)
      (fixerId : CliFixerId) (route : CliRoute) :
  route ∈ getCliRouteCandidates config fixerId ->
  orderRoutesWithPreferred (getCliRouteCandidates config fixerId) (Some (id route))
  = route :: filter (fun r => negb (String.eqb (id r) (id route)))
                    (getCliRouteCandidates config fixerId).
Proof.
  intros Hin. unfold orderRoutesWithPreferred.
  destruct (candidate_id_facts _ _ _ Hin) as [-> _].
  rewrite (find_by_unique_id _ _ (candidate_ids_NoDup config fixerId) Hin).
  reflexivity.
Qed.

Lemma orderRoutesWithPreferred_falsy (routes : list CliRoute)
      (preferredId : option string) :
  Js.truthy preferredId = false ->
  orderRoutesWithPreferred routes preferredId = routes.
Proof.
  destruct preferredId as [pid |]; simpl; [| reflexivity].
  intros H. apply negb_false_iff in H. unfold orderRoutesWithPreferred.
  rewrite H. reflexivity.
Qed.

(** C4. Discovery for [claude-cli] orders the candidates by the persisted
    id whatever it is; discovery for [codex-cli] moves a persisted candidate
    to the front only when it is a [workspace-write] variant, and treats any
    other persisted id as if none were stored. *)
Theorem persisted_preference_filtered_for_codex_only {W} (st : State W) :
  discoveryOrder st ClaudeCli
  = orderRoutesWithPreferred
      (getCliRouteCandidates (configuration st) ClaudeCli)
      (getPersistedRouteId st ClaudeCli)
  /\ (forall route,
        route ∈ getCliRouteCandidates (configuration st) ClaudeCli ->
        getPersistedRouteId st ClaudeCli = Some (id route) ->
        discoveryOrder st ClaudeCli
        = route :: filter (fun r => negb (String.eqb (id r) (id route)))
                          (getCliRouteCandidates (configuration st) ClaudeCli))
  /\ (forall route,
        route ∈ getCliRouteCandidates (configuration st) CodexCli ->
        getPersistedRouteId st CodexCli = Some (id route) ->
        discoveryOrder st CodexCli
        = if writesWorkspace route
          then route :: filter (fun r => negb (String.eqb (id r) (id route)))
                               (getCliRouteCandidates (configuration st) CodexCli)
          else getCliRouteCandidates (configuration st) CodexCli)
  /\ (forall routeId,
        getPersistedRouteId st CodexCli = Some routeId ->
        Js.includes routeId ":workspace-write" = false ->
        discoveryOrder st CodexCli
        = getCliRouteCandidates (configuration st) CodexCli)
  /\ (forall fixerId,
        getPersistedRouteId st fixerId = None ->
        discoveryOrder st fixerId
        = getCliRouteCandidates (configuration st) fixerId).
Proof.
  repeat split.
  - unfold discoveryOrder, getDiscoveryPreferredRouteId.
    destruct (Js.truthy (getPersistedRouteId st ClaudeCli)) eqn:Htruthy;
      simpl; [reflexivity |].
    rewrite orderRoutesWithPreferred_falsy by assumption. reflexivity.
  - intros route Hin Hpersisted.
    unfold discoveryOrder, getDiscoveryPreferredRouteId. rewrite Hpersisted.
    destruct (candidate_id_facts _ _ _ Hin) as [Hne _].
    simpl. rewrite Hne. simpl.
    apply orderRoutesWithPreferred_candidate, Hin.
  - intros route Hin Hpersisted.
    unfold discoveryOrder, getDiscoveryPreferredRouteId. rewrite Hpersisted.
    destruct (candidate_id_facts _ _ _ Hin) as [Hne Hww].
    simpl. rewrite Hne, (Hww eq_refl). simpl.
    destruct (writesWorkspace route); [| reflexivity].
    apply orderRoutesWithPreferred_candidate, Hin.
  - intros routeId Hpersisted Hrestrictive.
    unfold discoveryOrder, getDiscoveryPreferredRouteId.
    rewrite Hpersisted, Hrestrictive.
    destruct (negb (Js.truthy (Some routeId))); reflexivity.
  - intros fixerId Hpersisted.
    unfold discoveryOrder, getDiscoveryPreferredRouteId.
    rewrite Hpersisted. reflexivity.
Qed.

(* ===================================================================== *)
(** ** Properties of the Process Executor *)
(* ===================================================================== *)

Lemma length_app_string (s t : string) :
  String.length (s +:+ t) = (String.length s + String.length t)%nat.
Proof. induction s as [| c s IH]; simpl; [reflexivity | now rewrite IH]. Qed.

Lemma strlen_app (s t : string) :
  Js.strlen (s +:+ t) = Js.strlen s + Js.strlen t.
Proof. unfold Js.strlen. rewrite length_app_string. lia. Qed.

Lemma length_substring_le (n : nat) (s : string) :
  (String.length (String.substring 0 n s) <= n)%nat.
Proof.
  revert s. induction n as [| n IH]; intros [| c s]; simpl; try lia.
  specialize (IH s). lia.
Qed.

Lemma strlen_slice0 (s : string) (n : Z) :
  0 <= n -> Js.strlen (Js.slice0 s n) <= n.
Proof.
  intros Hn. unfold Js.strlen, Js.slice0.
  pose proof (length_substring_le (Z.to_nat n) s). lia.
Qed.

Lemma appendOutput_bounded (current chunk : string) :
  Js.strlen current <= MAX_PROCESS_OUTPUT_CHARS ->
  Js.strlen (appendOutput current chunk) <= MAX_PROCESS_OUTPUT_CHARS.
Proof.
  intros Hcur. unfold appendOutput.
  destruct (Z.geb_spec (Js.strlen current) MAX_PROCESS_OUTPUT_CHARS) as [Hge | Hlt].
  - exact Hcur.
  - rewrite strlen_app.
    pose proof (strlen_slice0 chunk
                  (MAX_PROCESS_OUTPUT_CHARS - Js.strlen current)).
    lia.
Qed.

(** What is captured is never cut anywhere but at the end: the capture is
    a prefix of everything received. *)
Lemma substring_app_short (n : nat) (s t : string) :
  String.substring 0 (String.length s + n) (s +:+ t)
  = s +:+ String.substring 0 n t.
Proof.
  induction s as [| c s IH]; simpl.
  - reflexivity.
  - rewrite IH. reflexivity.
Qed.

Lemma substring_app_full (s t : string) :
  String.substring 0 (String.length s) (s +:+ t) = s.
Proof.
  induction s as [| c s IH]; simpl.
  - destruct t; reflexivity.
  - rewrite IH. reflexivity.
Qed.

Lemma appendOutput_is_prefix (current chunk : string) :
  Js.strlen current <= MAX_PROCESS_OUTPUT_CHARS ->
  appendOutput current chunk
  = Js.slice0 (current +:+ chunk) MAX_PROCESS_OUTPUT_CHARS.
Proof.
  intros Hcur. unfold appendOutput, Js.slice0.
  destruct (Z.geb_spec (Js.strlen current) MAX_PROCESS_OUTPUT_CHARS) as [Hge | Hlt].
  - assert (Heq : Z.to_nat MAX_PROCESS_OUTPUT_CHARS = String.length current)
      by (unfold Js.strlen in *; lia).
    rewrite Heq. symmetry. apply substring_app_full.
  - replace (Z.to_nat MAX_PROCESS_OUTPUT_CHARS)
      with (String.length current
            + Z.to_nat (MAX_PROCESS_OUTPUT_CHARS - Js.strlen current))%nat
      by (unfold Js.strlen in *; lia).
    rewrite substring_app_short. reflexivity.
Qed.

Lemma callbacksInvariant_initial : callbacksInvariant initialLocals.
Proof.
  unfold callbacksInvariant, initialLocals; simpl.
  repeat split; try discriminate; unfold MAX_PROCESS_OUTPUT_CHARS, Js.strlen;
    simpl; lia.
Qed.

Lemma callbacksInvariant_onEvent (l : Locals) (ev : ChildEvent) :
  callbacksInvariant l -> callbacksInvariant (onEvent l ev).
Proof.
  intros (Hout & Herr & Hpending & Hdone).
  destruct ev as [chunk | chunk | | message code | code]; simpl.
  - split_and!; simpl; auto using appendOutput_bounded.
  - split_and!; simpl; auto using appendOutput_bounded.
  - destruct (l_timerCleared l); split_and!; simpl; auto.
  - unfold finalize; simpl.
    destruct (l_resolved l) as [r |] eqn:Hres; simpl.
    + split_and!; simpl; auto; try discriminate;
        intros ? [= <-]; apply (Hdone r eq_refl).
    + split_and!; simpl; auto; try discriminate.
      intros ? [= <-]. split; [split |]; simpl; auto using appendOutput_bounded.
      intros _. split; reflexivity.
  - unfold finalize; simpl.
    destruct (l_resolved l) as [r |] eqn:Hres; simpl.
    + split_and!; simpl; auto; try discriminate;
        intros ? [= <-]; apply (Hdone r eq_refl).
    + split_and!; simpl; auto; try discriminate.
      intros ? [= <-]. split; [split |]; simpl; auto.
      intros Hcode. simpl in Hcode. rewrite (Hpending eq_refl) in Hcode.
      contradiction.
Qed.

Lemma callbacksInvariant_fold (events : list ChildEvent) (l : Locals) :
  callbacksInvariant l -> callbacksInvariant (fold_left onEvent events l).
Proof.
  revert l. induction events as [| ev events IH]; intros l Hl; simpl.
  - exact Hl.
  - apply IH, callbacksInvariant_onEvent, Hl.
Qed.

(** Once the promise is resolved its value never changes. *)
Lemma resolved_is_final (events : list ChildEvent) (l : Locals)
      (result : ProcessResult) :
  l_resolved l = Some result ->
  l_resolved (fold_left onEvent events l) = Some result.
Proof.
  revert l. induction events as [| ev events IH]; intros l Hl; simpl.
  - exact Hl.
  - apply IH. destruct ev; simpl; unfold finalize; simpl;
      try destruct (l_timerCleared l); simpl; rewrite ?Hl; simpl; auto.
Qed.


(** When [spawn] throws, stdout is empty and stderr is the message of the
    error, whole. *)
Lemma spawn_throw_result (message : string) (code : option string) :
  settle (SpawnThrows message code)
  = Some {| exitCode := None; stdout := ""; stderr := message;
            timedOut := false; errorCode := code |}.
Proof. reflexivity. Qed.

(** C3, refuted as stated: a child killed by the timer that still exits
    with a code yields a result that is timed out and has an exit code; a
    child killed by a foreign signal yields a result with none of the three
    end reasons. *)
Lemma end_reasons_not_exactly_one :
  (exists result,
     settle trapsTermination = Some result
     /\ timedOut result = true /\ exitCode result = Some 0
     /\ endReasons result = 2%nat)
  /\ (exists result,
        settle killedFromOutside = Some result /\ endReasons result = 0%nat).
Proof. split; eexists; repeat split; reflexivity. Qed.

(** C3, as the executor is: a result with an error code has no exit code
    and is not timed out, hence a timed-out result has no error code and at
    most two of the three end reasons ever hold together. *)
Theorem error_code_excludes_exit_code_and_timeout
        (outcome : SpawnOutcome) (result : ProcessResult) :
  settle outcome = Some result ->
  (errorCode result <> None ->
   exitCode result = None /\ timedOut result = false)
  /\ (timedOut result = true -> errorCode result = None)
  /\ (endReasons result <= 2)%nat.
Proof.
  intros Hres.
  assert (Hex : errorExcludesOthers result).
  { destruct outcome as [message code | events].
    - rewrite spawn_throw_result in Hres. injection Hres as <-.
      intros _. split; reflexivity.
    - apply (callbacksInvariant_fold events initialLocals
               callbacksInvariant_initial).
      exact Hres. }
  unfold errorExcludesOthers in Hex. split; [exact Hex |].
  unfold endReasons.
  destruct (errorCode result) as [code |]; split; try reflexivity.
  - destruct Hex as [_ ->]; [discriminate |]. discriminate.
  - destruct Hex as [-> ->]; [discriminate |]. simpl. lia.
  - destruct (exitCode result), (timedOut result); simpl; lia.
Qed.

(** A binary that is not installed: ['error'] with [ENOENT]. *)
Lemma error_code_excludes_exit_code_and_timeout_witness :
  exists result,
    settle (notInstalled "codex") = Some result
    /\ exitCode result = None /\ timedOut result = false.
Proof.
  eexists. split; [reflexivity |].
  apply (error_code_excludes_exit_code_and_timeout (notInstalled "codex"));
    [reflexivity | discriminate].
Defined.

(* ===================================================================== *)
(** ** Properties of the resolver and of the fixer runner *)
(* ===================================================================== *)

Section EngineProperties.

Context {W : Type} `{!Host W}.

Lemma bind_Some {A B} (m : M W A) (k : A -> M W B) (st st2 : State W) (b : B) :
  bind m k st = Some (b, st2)
  <-> exists a st1, m st = Some (a, st1) /\ k a st1 = Some (b, st2).
Proof.
  unfold bind. destruct (m st) as [[a st1] |]; split.
  - eauto.
  - intros (a' & st1' & [= <- <-] & Hk). exact Hk.
  - discriminate.
  - intros (a' & st1' & Hm & _). discriminate.
Qed.

Lemma advances_refl (st : State W) : advances st st [].
Proof. unfold advances. rewrite app_nil_r. auto. Qed.

Lemma advances_trans (st st1 st2 : State W) (e1 e2 : list Effect) :
  advances st st1 e1 -> advances st1 st2 e2 -> advances st st2 (e1 ++ e2).
Proof.
  intros (He1 & Hc1 & Hp1) (He2 & Hc2 & Hp2). unfold advances.
  rewrite He2, He1, Hc2, Hc1, Hp2, Hp1, app_assoc. auto.
Qed.

Lemma keepsVerdicts_refl (st : State W) : keepsVerdicts st st.
Proof. split; reflexivity. Qed.

Lemma keepsVerdicts_trans (st st1 st2 : State W) :
  keepsVerdicts st st1 -> keepsVerdicts st1 st2 -> keepsVerdicts st st2.
Proof. intros [Hc1 Hx1] [Hc2 Hx2]. split; congruence. Qed.

Lemma newEffects_advances (st st1 : State W) (new : list Effect) :
  advances st st1 new -> newEffects st st1 = new.
Proof.
  intros (He & _). unfold newEffects. rewrite He. apply drop_app_length.
Qed.

Lemma runResults_app (e1 e2 : list Effect) :
  runResults (e1 ++ e2) = (runResults e1 ++ runResults e2)%list.
Proof. unfold runResults. apply omap_app. Qed.

Lemma runCommand_spec (spec : CommandSpec) (cwd : string) (timeoutMs : Z)
      (st st1 : State W) (result : ProcessResult) :
  runCommand spec cwd timeoutMs st = Some (result, st1) ->
  advances st st1 [Spawn spec cwd timeoutMs result]
  /\ keepsVerdicts st st1
  /\ cliProbeCache st1 = cliProbeCache st.
Proof.
  unfold runCommand.
  destruct (spawn (host st) spec cwd timeoutMs) as [outcome w].
  destruct (settle outcome) as [r |]; [| discriminate].
  intros [= <- <-]. repeat split.
Qed.

Lemma appendOutputBox_spec (title : string) (sections : list (string * string))
      (st st1 : State W) (u : unit) :
  appendOutputBox title sections st = Some (u, st1) ->
  advances st st1 [] /\ keepsVerdicts st st1.
Proof.
  unfold appendOutputBox, modifyState. intros [= _ <-].
  unfold advances, keepsVerdicts. simpl. rewrite app_nil_r. auto.
Qed.

Lemma setCachedCliRoute_spec (fixerId : CliFixerId) (route : option CliRoute)
      (st st1 : State W) (u : unit) :
  setCachedCliRoute fixerId route st = Some (u, st1) ->
  advances st st1 []
  /\ cliRouteCache st1 = <[fixerKey fixerId := route]> (cliRouteCache st)
  /\ extensionContextRef st1
     = persistVerdict fixerId route (extensionContextRef st)
  /\ cliProbeCache st1 = cliProbeCache st.
Proof.
  unfold setCachedCliRoute, bind, modifyState, getState, ret. simpl.
  destruct (extensionContextRef st) as [persisted |] eqn:Hctx;
    intros [= _ <-]; unfold advances; simpl; rewrite ?Hctx, app_nil_r; auto.
Qed.

(** A probe spawns at most one process, with the probe timeout; it never
    touches the verdicts. *)
Lemma probeRoute_spec (route : CliRoute) (cwd : string) (st st1 : State W)
      (ok : bool) :
  probeRoute route cwd st = Some (ok, st1) ->
  exists new,
    advances st st1 new /\ runResults new = [] /\ keepsVerdicts st st1.
Proof.
  unfold probeRoute. intros Hprobe.
  apply bind_Some in Hprobe as (st' & st0 & [= <- <-] & Hprobe).
  destruct (cliProbeCache st !! probeKey route cwd) as [cached |].
  - injection Hprobe as <- <-.
    exists []. auto using advances_refl, keepsVerdicts_refl.
  - apply bind_Some in Hprobe as (result & st2 & Hrun & Hprobe).
    apply bind_Some in Hprobe as (u & st3 & [= _ <-] & [= <- <-]).
    apply runCommand_spec in Hrun as ((He & Hc & Hp) & (Hk1 & Hk2) & _).
    exists [Spawn (probe route) cwd CLI_PROBE_TIMEOUT_MS result].
    repeat split; simpl; auto.
Qed.

Lemma probeUnlessBase_spec (baseId cwd : string) (route : CliRoute) (st st1 : State W)
      (ok : bool) :
  probeUnlessBase baseId cwd route st = Some (ok, st1) ->
  exists new,
    advances st st1 new /\ runResults new = [] /\ keepsVerdicts st st1.
Proof.
  unfold probeUnlessBase. destruct (negb (String.eqb (id route) baseId)).
  - apply probeRoute_spec.
  - intros [= _ <-]. exists [].
    auto using advances_refl, keepsVerdicts_refl.
Qed.

Lemma runResults_run (spec : CommandSpec) (cwd : string)
      (result : ProcessResult) :
  runResults [Spawn spec cwd CLI_RUN_TIMEOUT_MS result] = [result].
Proof. reflexivity. Qed.

(** What one pass over the candidates leaves behind.  Leaving by [return]
    means the last run succeeded and its route is the new verdict;
    leaving otherwise means no run succeeded, the verdicts are untouched,
    every run recorded a failure and [sawInvocationFailureOnly] is still
    true exactly when it was and every run was an invocation failure. *)
Lemma runLoop_spec (fixerId : CliFixerId) (baseId cwd cliPrompt : string)
      (routes : list CliRoute) :
  forall (failures : list string) (saw : bool) (st st1 : State W)
         (exit : LoopExit),
    runLoop fixerId baseId cwd cliPrompt routes failures saw st
    = Some (exit, st1) ->
    exists new,
      advances st st1 new
      /\ match exit with
         | Returned =>
             exists route result earlier,
               route ∈ routes
               /\ runResults new = (earlier ++ [result])%list
               /\ isSuccessRun result = true
               /\ cliRouteCache st1
                  = <[fixerKey fixerId := Some route]> (cliRouteCache st)
               /\ extensionContextRef st1
                  = persistVerdict fixerId (Some route) (extensionContextRef st)
         | Fell failures' saw' =>
             keepsVerdicts st st1
             /\ saw' = (saw && forallb isInvocationFailureRun (runResults new))%bool
             /\ Forall (fun r => isSuccessRun r = false) (runResults new)
             /\ length failures'
                = (length failures + length (runResults new))%nat
         end.
Proof.
  induction routes as [| route rest IH]; intros failures saw st st1 exit Hloop.
  - injection Hloop as <- <-. exists []. split; [apply advances_refl |].
    simpl. rewrite andb_true_r, Nat.add_0_r.
    auto using keepsVerdicts_refl.
  - simpl in Hloop.
    apply bind_Some in Hloop as (probeOk & st0 & Hpass & Hloop).
    apply (probeUnlessBase_spec baseId cwd route) in Hpass
      as (e0 & Hadv0 & Hruns0 & Hkeep0).
    destruct probeOk; simpl in Hloop.
    2:{ apply IH in Hloop as (new & Hadv & Hexit).
        exists (e0 ++ new)%list. split; [eapply advances_trans; eassumption |].
        rewrite runResults_app, Hruns0. simpl.
        destruct exit as [| failures' saw'].
        - destruct Hexit as (r & result & earlier & Hin & Hruns & Hsucc & Hcache & Hctx).
          exists r, result, earlier. destruct Hkeep0 as [<- <-].
          split_and!; auto. apply elem_of_cons. auto.
        - destruct Hexit as (Hkeep & Hsaw & Hnone & Hlen).
          split_and!; auto. eapply keepsVerdicts_trans; eassumption. }
    apply bind_Some in Hloop as (result & st2 & Hrun & Hloop).
    apply runCommand_spec in Hrun as (Hadv2 & Hkeep2 & _).
    pose proof (advances_trans _ _ _ _ _ Hadv0 Hadv2) as Hadv02.
    pose proof (keepsVerdicts_trans _ _ _ Hkeep0 Hkeep2) as Hkeep02.
    destruct (isReadOnlySandboxNotice result) eqn:Hsandbox.
    { apply IH in Hloop as (new & Hadv & Hexit).
      exists ((e0 ++ [Spawn (buildRun route cliPrompt) cwd CLI_RUN_TIMEOUT_MS result])
                ++ new)%list.
      split; [eapply advances_trans; eassumption |].
      rewrite !runResults_app, Hruns0, runResults_run. simpl.
      assert (Hinv : isInvocationFailureRun result = false)
        by (unfold isInvocationFailureRun, classifyRun; rewrite Hsandbox; reflexivity).
      assert (Hnot : isSuccessRun result = false)
        by (unfold isSuccessRun, classifyRun; rewrite Hsandbox; reflexivity).
      destruct exit as [| failures' saw'].
      - destruct Hexit as (r & res & earlier & Hin & Hruns & Hsucc & Hcache & Hctx).
        exists r, res, (result :: earlier). destruct Hkeep02 as [<- <-].
        split_and!; auto; [apply elem_of_cons; auto |].
        rewrite Hruns. reflexivity.
      - destruct Hexit as (Hkeep & Hsaw & Hnone & Hlen).
        split_and!; auto.
        + eapply keepsVerdicts_trans; eassumption.
        + rewrite Hinv, Hsaw. simpl. rewrite andb_false_r. reflexivity.
        + rewrite Hlen, length_app. simpl. lia. }
    destruct (isProcessSuccess result) eqn:Hsuccess.
    { apply bind_Some in Hloop as (u1 & st3 & Hset & Hloop).
      apply bind_Some in Hloop as (u2 & st4 & Hbox & [= <- <-]).
      apply setCachedCliRoute_spec in Hset as (Hadv3 & Hcache & Hctx & _).
      apply appendOutputBox_spec in Hbox as (Hadv4 & [Hk4 Hx4]).
      exists ((e0 ++ [Spawn (buildRun route cliPrompt) cwd CLI_RUN_TIMEOUT_MS result])
                ++ ([] ++ []))%list.
      split.
      { eapply advances_trans; [eassumption |].
        eapply advances_trans; eassumption. }
      exists route, result, []. destruct Hkeep02 as [Hk Hx].
      rewrite !runResults_app, Hruns0, runResults_run. simpl.
      split_and!; auto.
      - apply elem_of_cons. auto.
      - unfold isSuccessRun, classifyRun. rewrite Hsandbox, Hsuccess. reflexivity.
      - rewrite Hk4, Hcache, Hk. reflexivity.
      - rewrite Hx4, Hctx, Hx. reflexivity. }
    assert (Hnot : isSuccessRun result = false).
    { unfold isSuccessRun, classifyRun. rewrite Hsandbox, Hsuccess.
      destruct (isInvocationFailure result); reflexivity. }
    destruct (isInvocationFailure result) eqn:Hinvocation; simpl in Hloop.
    2:{ injection Hloop as <- <-.
        exists (e0 ++ [Spawn (buildRun route cliPrompt) cwd CLI_RUN_TIMEOUT_MS result])%list.
        split; [assumption |].
        rewrite !runResults_app, Hruns0, runResults_run. simpl.
        split_and!; auto.
        - unfold isInvocationFailureRun, classifyRun.
          rewrite Hsandbox, Hsuccess, Hinvocation. simpl.
          rewrite andb_false_r. reflexivity.
        - rewrite length_app. simpl. lia. }
    apply IH in Hloop as (new & Hadv & Hexit).
    exists ((e0 ++ [Spawn (buildRun route cliPrompt) cwd CLI_RUN_TIMEOUT_MS result])
              ++ new)%list.
    split; [eapply advances_trans; eassumption |].
    rewrite !runResults_app, Hruns0, runResults_run. simpl.
    assert (Hinv : isInvocationFailureRun result = true).
    { unfold isInvocationFailureRun, classifyRun.
      rewrite Hsandbox, Hsuccess, Hinvocation. reflexivity. }
    destruct exit as [| failures' saw'].
    + destruct Hexit as (r & res & earlier & Hin & Hruns & Hsucc & Hcache & Hctx).
      exists r, res, (result :: earlier). destruct Hkeep02 as [<- <-].
      split_and!; auto; [apply elem_of_cons; auto |].
      rewrite Hruns. reflexivity.
    + destruct Hexit as (Hkeep & Hsaw & Hnone & Hlen).
      split_and!; auto.
      * eapply keepsVerdicts_trans; eassumption.
      * rewrite Hinv, Hsaw. reflexivity.
      * rewrite Hlen, length_app. simpl. lia.
Qed.

Lemma orderRoutesWithPreferred_subset (routes : list CliRoute)
      (preferredId : option string) (route : CliRoute) :
  route ∈ orderRoutesWithPreferred routes preferredId -> route ∈ routes.
Proof.
  unfold orderRoutesWithPreferred.
  destruct preferredId as [pid |]; [| tauto].
  destruct (String.eqb pid ""); [tauto |].
  destruct (find _ routes) as [preferred |] eqn:Hfind; [| tauto].
  intros [-> | Hin]%elem_of_cons.
  - apply find_some in Hfind as [Hin _]. apply list_elem_of_In, Hin.
  - apply list_elem_of_filter in Hin. tauto.
Qed.

Lemma isRouteAvailable_candidate (config : Configuration)
      (fixerId : CliFixerId) (route : CliRoute) :
  route ∈ getCliRouteCandidates config fixerId ->
  isRouteAvailable config fixerId (id route) = true.
Proof.
  intros Hin. unfold isRouteAvailable. apply existsb_exists.
  exists route. split; [apply list_elem_of_In, Hin | apply String.eqb_refl].
Qed.

(** Discovery only probes, ends with the verdict it returns cached and
    persisted, and returns a route only from the list it was given. *)
Lemma discoverLoop_spec (fixerId : CliFixerId) (cwd : string)
      (routes : list CliRoute) :
  forall (st st1 : State W) (found : option CliRoute),
    discoverLoop fixerId cwd routes st = Some (found, st1) ->
    exists new,
      advances st st1 new
      /\ runResults new = []
      /\ cliRouteCache st1 = <[fixerKey fixerId := found]> (cliRouteCache st)
      /\ extensionContextRef st1
         = persistVerdict fixerId found (extensionContextRef st)
      /\ (forall route, found = Some route -> route ∈ routes).
Proof.
  induction routes as [| route rest IH]; intros st st1 found Hloop; simpl in Hloop.
  - apply bind_Some in Hloop as (u & st0 & Hset & [= <- <-]).
    apply setCachedCliRoute_spec in Hset as (Hadv & Hcache & Hctx & _).
    exists []. split_and!; auto. discriminate.
  - apply bind_Some in Hloop as (ok & st0 & Hprobe & Hloop).
    apply probeRoute_spec in Hprobe as (e0 & Hadv0 & Hruns0 & [Hk0 Hx0]).
    destruct ok.
    + apply bind_Some in Hloop as (u & st2 & Hset & [= <- <-]).
      apply setCachedCliRoute_spec in Hset as (Hadv & Hcache & Hctx & _).
      exists (e0 ++ [])%list. split_and!.
      * eapply advances_trans; eassumption.
      * rewrite app_nil_r. assumption.
      * rewrite Hcache, Hk0. reflexivity.
      * rewrite Hctx, Hx0. reflexivity.
      * intros r [= <-]. apply elem_of_cons. auto.
    + apply IH in Hloop as (new & Hadv & Hruns & Hcache & Hctx & Hin).
      exists (e0 ++ new)%list. split_and!.
      * eapply advances_trans; eassumption.
      * rewrite runResults_app, Hruns0, Hruns. reflexivity.
      * rewrite Hcache, Hk0. reflexivity.
      * rewrite Hctx, Hx0. reflexivity.
      * intros r Hr. apply elem_of_cons. right. apply Hin, Hr.
Qed.

Lemma discoverCliRoute_spec (fixerId : CliFixerId) (st st1 : State W)
      (found : option CliRoute) :
  discoverCliRoute fixerId st = Some (found, st1) ->
  exists new,
    advances st st1 new
    /\ runResults new = []
    /\ cliRouteCache st1 = <[fixerKey fixerId := found]> (cliRouteCache st)
    /\ extensionContextRef st1
       = persistVerdict fixerId found (extensionContextRef st)
    /\ (forall route,
          found = Some route ->
          route ∈ getCliRouteCandidates (configuration st1) fixerId).
Proof.
  unfold discoverCliRoute. intros Hdisc.
  apply bind_Some in Hdisc as (st' & st0 & [= <- <-] & Hdisc).
  apply discoverLoop_spec in Hdisc as (new & Hadv & Hruns & Hcache & Hctx & Hin).
  exists new. split_and!; auto.
  intros route Hfound. destruct Hadv as (_ & -> & _).
  eapply orderRoutesWithPreferred_subset, Hin, Hfound.
Qed.

Lemma nothingPersisted_cleared (fixerId : CliFixerId) (st : State W)
      (context : option (gmap string Js.unknown)) :
  extensionContextRef st = persistVerdict fixerId None context ->
  nothingPersisted st fixerId.
Proof.
  intros Hctx persisted Hsome. rewrite Hctx in Hsome.
  destruct context as [p |]; simpl in Hsome; [| discriminate].
  injection Hsome as <-. apply lookup_delete_eq.
Qed.

(** An unforced resolve only probes; its answer is the verdict cached
    when it returns; a route it returns is among the current candidates;
    and when it returns [null] without having found [null] cached,
    nothing is persisted for the kind any more. *)
Lemma getCliRoute_spec (fixerId : CliFixerId) (st st1 : State W)
      (found : option CliRoute) :
  getCliRoute fixerId false st = Some (found, st1) ->
  exists new,
    advances st st1 new
    /\ runResults new = []
    /\ cliRouteCache st1 !! fixerKey fixerId = Some found
    /\ (forall route,
          found = Some route ->
          isRouteAvailable (configuration st1) fixerId (id route) = true)
    /\ (found = None -> verdict st fixerId <> KnownBad ->
        nothingPersisted st1 fixerId).
Proof.
  unfold getCliRoute, verdict. intros Hget.
  apply bind_Some in Hget as (st' & st0 & [= <- <-] & Hget).
  destruct (cliRouteCache st !! fixerKey fixerId) as [[cached |] |] eqn:Hcached.
  - destruct (isRouteAvailable (configuration st) fixerId (id cached)) eqn:Havail.
    + injection Hget as <- <-. exists [].
      split_and!; auto using advances_refl; [congruence | discriminate].
    + apply bind_Some in Hget as (u & st2 & Hset & Hdisc).
      apply setCachedCliRoute_spec in Hset as (Hadv0 & Hcache0 & Hctx0 & _).
      apply discoverCliRoute_spec in Hdisc
        as (new & Hadv & Hruns & Hcache & Hctx & Hin).
      exists ([] ++ new)%list. split_and!; auto.
      * eapply advances_trans; eassumption.
      * rewrite Hcache. apply lookup_insert_eq.
      * intros route Hfound. apply isRouteAvailable_candidate, Hin, Hfound.
      * intros -> _. eapply nothingPersisted_cleared, Hctx.
  - injection Hget as <- <-. exists [].
    split_and!; auto using advances_refl; [discriminate | congruence].
  - apply discoverCliRoute_spec in Hget
      as (new & Hadv & Hruns & Hcache & Hctx & Hin).
    exists new. split_and!; auto.
    + rewrite Hcache. apply lookup_insert_eq.
    + intros route Hfound. apply isRouteAvailable_candidate, Hin, Hfound.
    + intros -> _. eapply nothingPersisted_cleared, Hctx.
Qed.

(** The ways [runCliFix] can end, with the states in between. *)
Lemma runCliFix_cases (args : RunFixerArgs) (prompt : string)
      (fixerId : CliFixerId) (st st' : State W) (out : Completion) :
  runCliFix args prompt fixerId st = Some (out, st') ->
  exists base st1,
    getCliRoute fixerId false st = Some (base, st1)
    /\ match base with
       | None => st' = st1 /\ exists message, out = Thrown message
       | Some baseRoute =>
           exists exit st2,
             runLoop fixerId (id baseRoute) (commandWorkingDirectory args)
                     (buildCliPrompt args prompt)
                     (runOrder st1 fixerId baseRoute) [] true st1
             = Some (exit, st2)
             /\ match exit with
                | Returned => st' = st2 /\ out = Resolved
                | Fell failures saw =>
                    exists st3 u,
                      (if saw then setCachedCliRoute fixerId None else ret tt) st2
                      = Some (u, st3)
                      /\ advances st3 st' [] /\ keepsVerdicts st3 st'
                      /\ exists message, out = Thrown message
                end
       end.
Proof.
  unfold runCliFix. intros Hrun.
  apply bind_Some in Hrun as (base & st1 & Hget & Hrun).
  exists base, st1. split; [exact Hget |].
  destruct base as [baseRoute |].
  - apply bind_Some in Hrun as (st0 & st1' & [= <- <-] & Hrun).
    apply bind_Some in Hrun as (exit & st2 & Hloop & Hrun).
    exists exit, st2. split; [exact Hloop |].
    destruct exit as [| failures saw].
    + injection Hrun as <- <-. auto.
    + apply bind_Some in Hrun as (u & st3 & Hclear & Hrun).
      apply bind_Some in Hrun as (u' & st4 & Hbox & [= <- <-]).
      apply appendOutputBox_spec in Hbox as [Hadv Hkeep].
      exists st3, u. split_and!; eauto.
  - injection Hrun as <- <-. eauto.
Qed.

(** C1, as the runner is: when every fix run of an invocation is an
    invocation failure (none at all included), the invocation throws and
    leaves the kind's cached verdict at known-bad ([null]), so that the
    next unforced resolve returns [null] at once, without discovery; the
    persisted id is removed unless known-bad was already cached at the
    start. *)
Theorem invocation_failures_leave_known_bad
        (args : RunFixerArgs) (prompt : string) (fixerId : CliFixerId)
        (st st' : State W) (out : Completion) :
  runCliFix args prompt fixerId st = Some (out, st') ->
  forallb isInvocationFailureRun (runResults (newEffects st st')) = true ->
  (exists message, out = Thrown message)
  /\ verdict st' fixerId = KnownBad
  /\ getCliRoute fixerId false st' = Some (None, st')
  /\ (verdict st fixerId <> KnownBad -> nothingPersisted st' fixerId).
Proof.
  intros Hrun Hall.
  assert (Hbad : (exists message, out = Thrown message)
                 /\ cliRouteCache st' !! fixerKey fixerId = Some None
                 /\ (verdict st fixerId <> KnownBad ->
                     nothingPersisted st' fixerId)).
  { apply runCliFix_cases in Hrun as (base & st1 & Hget & Hrest).
    apply getCliRoute_spec in Hget as (e1 & Hadv1 & Hruns1 & Hcache1 & _ & Hpers1).
    destruct base as [baseRoute |].
    2:{ destruct Hrest as [-> Hout]. auto. }
    destruct Hrest as (exit & st2 & Hloop & Hrest).
    apply runLoop_spec in Hloop as (e2 & Hadv2 & Hexit).
    destruct exit as [| failures saw].
    - exfalso. destruct Hrest as [-> _].
      destruct Hexit as (r & result & earlier & _ & Hruns & Hsucc & _).
      rewrite (newEffects_advances _ _ _ (advances_trans _ _ _ _ _ Hadv1 Hadv2)),
        runResults_app, Hruns1, Hruns in Hall.
      simpl in Hall. rewrite forallb_app in Hall.
      apply andb_true_iff in Hall as [_ Hall]. simpl in Hall.
      rewrite ?andb_true_r in Hall.
      unfold isSuccessRun in Hsucc. unfold isInvocationFailureRun in Hall.
      destruct (classifyRun result); discriminate.
    - destruct Hrest as (st3 & u & Hclear & Hadv3 & [Hk3 Hx3] & Hout).
      destruct Hexit as (_ & Hsaw & _).
      assert (Hsaw' : saw = true).
      { rewrite Hsaw. simpl.
        assert (Hadv13 : advances st st3 ((e1 ++ e2) ++ [])).
        { apply (advances_trans _ _ _ _ _
                   (advances_trans _ _ _ _ _ Hadv1 Hadv2)).
          destruct saw.
          - apply setCachedCliRoute_spec in Hclear. tauto.
          - unfold ret in Hclear. injection Hclear as _ <-. apply advances_refl. }
        pose proof (advances_trans _ _ _ _ _ Hadv13 Hadv3) as Hadv'.
        rewrite (newEffects_advances _ _ _ Hadv'), !app_nil_r,
          runResults_app, Hruns1 in Hall.
        exact Hall. }
      clear Hsaw. subst saw.
      apply setCachedCliRoute_spec in Hclear as (_ & Hcache & Hctx & _).
      split_and!; auto.
      + rewrite Hk3, Hcache. apply lookup_insert_eq.
      + intros _. apply (nothingPersisted_cleared fixerId st' (extensionContextRef st2)).
        rewrite Hx3. exact Hctx. }
  destruct Hbad as (Hout & Hcache & Hpers).
  split_and!; auto.
  - unfold verdict. rewrite Hcache. reflexivity.
  - unfold getCliRoute, bind, getState. rewrite Hcache. reflexivity.
Qed.

Lemma runLoop_cons (fixerId : CliFixerId) (baseId cwd cliPrompt : string)
      (route : CliRoute) (rest : list CliRoute) (failures : list string)
      (saw : bool) (st : State W) :
  runLoop fixerId baseId cwd cliPrompt (route :: rest) failures saw st
  = bind (probeUnlessBase baseId cwd route)
      (fun probeOk =>
         if negb probeOk
         then runLoop fixerId baseId cwd cliPrompt rest failures saw
         else
           bind (runCommand (buildRun route cliPrompt) cwd CLI_RUN_TIMEOUT_MS)
             (fun result =>
                if isReadOnlySandboxNotice result then
                  runLoop fixerId baseId cwd cliPrompt rest
                    (failures
                       ++ [display route
                           +:+ ": reported read-only sandbox, so no file edits were saved."])%list
                    false
                else if isProcessSuccess result then
                  bind (setCachedCliRoute fixerId (Some route))
                    (fun _ =>
                       bind (appendOutputBox (fixerLabel fixerId +:+ " Quick Fix")
                               [ ("Route", display route);
                                 ("Prompt", cliPrompt);
                                 ("CLI Output",
                                  let text := getProcessOutputText result in
                                  if String.eqb text ""
                                  then "(command returned no output)"
                                  else text) ])
                         (fun _ => ret Returned))
                else
                  let failures' :=
                    (failures
                       ++ [display route +:+ ": " +:+ formatProcessFailure result])%list in
                  if negb (isInvocationFailure result)
                  then ret (Fell failures' false)
                  else runLoop fixerId baseId cwd cliPrompt rest failures' saw))
      st.
Proof. reflexivity. Qed.

(** C5. A fix run that reports the read-only sandbox is a soft failure.
    In the loop it records its failure line and hands over to the remaining
    candidates, with the verdicts untouched.  For a whole invocation in
    which some run reported the sandbox: either a run succeeded, and the
    verdict is the route of that last, successful run; or the invocation
    throws and the cached and persisted verdicts are those the resolve at
    its start left. *)
Theorem sandbox_notice_is_soft
        (args : RunFixerArgs) (prompt : string) (fixerId : CliFixerId) :
  (forall (baseId cwd cliPrompt : string) (route : CliRoute)
          (rest : list CliRoute) (failures : list string) (saw : bool)
          (st st0 st1 : State W) (result : ProcessResult),
      probeUnlessBase baseId cwd route st = Some (true, st0) ->
      runCommand (buildRun route cliPrompt) cwd CLI_RUN_TIMEOUT_MS st0
      = Some (result, st1) ->
      isReadOnlySandboxNotice result = true ->
      runLoop fixerId baseId cwd cliPrompt (route :: rest) failures saw st
      = runLoop fixerId baseId cwd cliPrompt rest
          (failures
             ++ [display route
                 +:+ ": reported read-only sandbox, so no file edits were saved."])%list
          false st1
      /\ keepsVerdicts st st1)
  /\ (forall (st st1 st' : State W) (base : CliRoute) (out : Completion),
        getCliRoute fixerId false st = Some (Some base, st1) ->
        runCliFix args prompt fixerId st = Some (out, st') ->
        existsb isSandboxRun (runResults (newEffects st1 st')) = true ->
        match out with
        | Resolved =>
            exists route result,
              route ∈ runOrder st1 fixerId base
              /\ verdict st' fixerId = KnownGood route
              /\ extensionContextRef st'
                 = persistVerdict fixerId (Some route) (extensionContextRef st1)
              /\ last (runResults (newEffects st1 st')) = Some result
              /\ isSuccessRun result = true
        | Thrown _ => keepsVerdicts st1 st'
        end).
Proof.
  split.
  - intros baseId cwd cliPrompt route rest failures saw st st0 st1 result
           Hpass Hrun Hsandbox.
    split.
    + rewrite runLoop_cons. unfold bind at 1. rewrite Hpass. simpl.
      unfold bind at 1. rewrite Hrun, Hsandbox. reflexivity.
    + apply probeUnlessBase_spec in Hpass as (e0 & _ & _ & Hkeep0).
      apply runCommand_spec in Hrun as (_ & Hkeep1 & _).
      eapply keepsVerdicts_trans; eassumption.
  - intros st st1 st' base out Hget Hrun Hsome.
    apply runCliFix_cases in Hrun as (base' & st1' & Hget' & Hrest).
    rewrite Hget in Hget'. injection Hget' as <- <-.
    destruct Hrest as (exit & st2 & Hloop & Hrest).
    apply runLoop_spec in Hloop as (e2 & Hadv2 & Hexit).
    destruct exit as [| failures saw].
    + destruct Hrest as [-> ->].
      destruct Hexit as (route & result & earlier & Hin & Hruns & Hsucc & Hcache & Hctx).
      exists route, result. split_and!; auto.
      * unfold verdict. rewrite Hcache, lookup_insert_eq. reflexivity.
      * rewrite (newEffects_advances _ _ _ Hadv2), Hruns. apply last_snoc.
    + destruct Hrest as (st3 & u & Hclear & Hadv3 & Hkeep3 & message & ->).
      destruct Hexit as (Hkeep2 & Hsaw & _).
      assert (Hfalse : saw = false).
      { destruct saw; [| reflexivity]. exfalso.
        apply setCachedCliRoute_spec in Hclear as (Hadv & _).
        pose proof (advances_trans _ _ _ _ _
                      (advances_trans _ _ _ _ _ Hadv2 Hadv) Hadv3) as Hadv'.
        rewrite (newEffects_advances _ _ _ Hadv'), !app_nil_r in Hsome.
        simpl in Hsaw. symmetry in Hsaw.
        apply existsb_exists in Hsome as (r & Hin & Hr).
        rewrite forallb_forall in Hsaw. specialize (Hsaw r Hin).
        unfold isSandboxRun in Hr. unfold isInvocationFailureRun in Hsaw.
        destruct (classifyRun r); discriminate. }
      clear Hsaw. subst saw. unfold ret in Hclear. injection Hclear as _ <-.
      eapply keepsVerdicts_trans; eassumption.
Qed.

Lemma fixerKey_inj (f1 f2 : CliFixerId) : fixerKey f1 = fixerKey f2 -> f1 = f2.
Proof. destruct f1, f2; simpl; intros H; congruence. Qed.

Lemma catalog_ids_NoDup (fixerId : CliFixerId) : NoDup (map id (catalog fixerId)).
Proof.
  unfold catalog.
  rewrite <- (getCliRouteCandidates_enabled ∅ fixerId) by reflexivity.
  apply candidate_ids_NoDup.
Qed.

(** A catalog route whose id is among the candidates' ids is itself a
    candidate. *)
Lemma available_catalog_route_is_candidate (config : Configuration)
      (fixerId : CliFixerId) (route : CliRoute) :
  route ∈ catalog fixerId ->
  isRouteAvailable config fixerId (id route) = true ->
  route ∈ getCliRouteCandidates config fixerId.
Proof.
  intros Hcat Havail. unfold isRouteAvailable in Havail.
  apply existsb_exists in Havail as (c & Hin & Hid).
  apply String.eqb_eq in Hid. apply list_elem_of_In in Hin.
  pose proof (candidates_in_catalog _ _ _ Hin) as Hc.
  pose proof (find_by_unique_id _ _ (catalog_ids_NoDup fixerId) Hcat) as Hfind.
  pose proof (find_by_unique_id _ _ (catalog_ids_NoDup fixerId) Hc) as Hfind'.
  rewrite Hid, Hfind in Hfind'. injection Hfind' as ->. exact Hin.
Qed.

(** How an unforced resolve changes the route cache, and where a returned
    route comes from when the cache held catalog routes. *)
Lemma getCliRoute_cache (fixerId : CliFixerId) (st st1 : State W)
      (found : option CliRoute) :
  getCliRoute fixerId false st = Some (found, st1) ->
  (cliRouteCache st1 = cliRouteCache st
   \/ cliRouteCache st1 = <[fixerKey fixerId := found]> (cliRouteCache st))
  /\ (cacheFromCatalog st ->
      forall route, found = Some route ->
                    route ∈ getCliRouteCandidates (configuration st1) fixerId).
Proof.
  unfold getCliRoute. intros Hget.
  apply bind_Some in Hget as (st' & st0 & [= <- <-] & Hget).
  destruct (cliRouteCache st !! fixerKey fixerId) as [[cached |] |] eqn:Hcached.
  - destruct (isRouteAvailable (configuration st) fixerId (id cached)) eqn:Havail.
    + injection Hget as <- <-. split; [auto |].
      intros Hinv route [= <-].
      apply available_catalog_route_is_candidate; [| exact Havail].
      apply (Hinv fixerId), Hcached.
    + apply bind_Some in Hget as (u & st2 & Hset & Hdisc).
      apply setCachedCliRoute_spec in Hset as (_ & Hcache0 & _).
      apply discoverCliRoute_spec in Hdisc as (new & _ & _ & Hcache & _ & Hin).
      split; [| auto].
      right. rewrite Hcache, Hcache0. apply insert_insert_eq.
  - injection Hget as <- <-. split; [auto | discriminate].
  - apply discoverCliRoute_spec in Hget as (new & _ & _ & Hcache & _ & Hin).
    split; auto.
Qed.

Lemma cacheFromCatalog_insert (fixerId : CliFixerId) (found : option CliRoute)
      (st st1 : State W) :
  cacheFromCatalog st ->
  cliRouteCache st1 = <[fixerKey fixerId := found]> (cliRouteCache st) ->
  (forall route, found = Some route -> route ∈ catalog fixerId) ->
  cacheFromCatalog st1.
Proof.
  intros Hinv Hcache Hfound fixerId' route. rewrite Hcache, lookup_insert.
  case_decide as Hkey.
  - apply fixerKey_inj in Hkey as <-. intros [= ->]. apply Hfound. reflexivity.
  - apply Hinv.
Qed.

Lemma cacheFromCatalog_activated (config : Configuration) (w : W) :
  cacheFromCatalog (activated config w).
Proof. intros fixerId route. simpl. rewrite lookup_empty. discriminate. Qed.

Lemma cacheFromCatalog_getCliRoute (fixerId : CliFixerId) (st st1 : State W)
      (found : option CliRoute) :
  getCliRoute fixerId false st = Some (found, st1) ->
  cacheFromCatalog st -> cacheFromCatalog st1.
Proof.
  intros Hget Hinv.
  destruct (getCliRoute_cache _ _ _ _ Hget) as [[Hsame | Hcache] Hfrom].
  - intros f r. rewrite Hsame. apply Hinv.
  - eapply cacheFromCatalog_insert; [exact Hinv | exact Hcache |].
    intros route Hroute. eapply candidates_in_catalog, Hfrom; eassumption.
Qed.

(** The route cache holds catalog routes after every invocation of the
    runner that starts from such a cache. *)
Lemma cacheFromCatalog_runCliFix (args : RunFixerArgs) (prompt : string)
      (fixerId : CliFixerId) (st st' : State W) (out : Completion) :
  runCliFix args prompt fixerId st = Some (out, st') ->
  cacheFromCatalog st -> cacheFromCatalog st'.
Proof.
  intros Hrun Hinv.
  apply runCliFix_cases in Hrun as (base & st1 & Hget & Hrest).
  pose proof (cacheFromCatalog_getCliRoute _ _ _ _ Hget Hinv) as Hinv1.
  destruct base as [baseRoute |].
  2:{ destruct Hrest as [-> _]. exact Hinv1. }
  destruct Hrest as (exit & st2 & Hloop & Hrest).
  apply runLoop_spec in Hloop as (e2 & _ & Hexit).
  destruct exit as [| failures saw].
  - destruct Hrest as [-> _].
    destruct Hexit as (route & _ & _ & Hin & _ & _ & Hcache & _).
    eapply cacheFromCatalog_insert; [exact Hinv1 | exact Hcache |].
    intros r [= <-]. unfold runOrder in Hin.
    eapply candidates_in_catalog, orderRoutesWithPreferred_subset, Hin.
  - destruct Hrest as (st3 & u & Hclear & _ & [Hk3 _] & _).
    destruct Hexit as ([Hk2 _] & _).
    destruct saw.
    + apply setCachedCliRoute_spec in Hclear as (_ & Hcache & _).
      intros f r. rewrite Hk3. revert f r.
      eapply cacheFromCatalog_insert; [| exact Hcache | discriminate].
      intros f r. rewrite Hk2. apply Hinv1.
    + unfold ret in Hclear. injection Hclear as _ <-.
      intros f r. rewrite Hk3, Hk2. apply Hinv1.
Qed.

Lemma orderRoutesWithPreferred_available (config : Configuration)
      (fixerId : CliFixerId) (routeId : string) :
  isRouteAvailable config fixerId routeId = true ->
  exists first,
    orderRoutesWithPreferred (getCliRouteCandidates config fixerId) (Some routeId)
    = first :: filter (fun r => negb (String.eqb (id r) routeId))
                      (getCliRouteCandidates config fixerId)
    /\ id first = routeId
    /\ first ∈ getCliRouteCandidates config fixerId.
Proof.
  unfold isRouteAvailable, orderRoutesWithPreferred. intros Havail.
  destruct (find (fun route => String.eqb (id route) routeId)
                 (getCliRouteCandidates config fixerId)) as [first |] eqn:Hfind.
  - apply find_some in Hfind as [Hin Hid].
    apply String.eqb_eq in Hid. apply list_elem_of_In in Hin.
    destruct (candidate_id_facts _ _ _ Hin) as [Hne _].
    rewrite <- Hid, Hne. exists first. rewrite Hid. auto.
  - apply existsb_exists in Havail as (r & Hin & Hid).
    rewrite (find_none _ _ Hfind r Hin) in Hid. discriminate.
Qed.

(** C6. An invocation of [runCliFix] with a resolved base route runs its
    loop over [runOrder]: the candidate whose id is the base route's,
    followed by the other candidates in catalog order; when the cache holds
    catalog routes that first candidate is the base route itself.  The base route is run
    unprobed and any other candidate is run right after its probe
    succeeded; a candidate other than the base route whose probe fails is
    skipped without a run, and nothing runs while its probe is pending. *)
Theorem base_route_first_then_probed_candidates (fixerId : CliFixerId) :
  (forall (args : RunFixerArgs) (prompt : string) (st st1 st' : State W)
          (base : CliRoute) (out : Completion),
      getCliRoute fixerId false st = Some (Some base, st1) ->
      runCliFix args prompt fixerId st = Some (out, st') ->
      exists exit st2,
        runLoop fixerId (id base) (commandWorkingDirectory args)
                (buildCliPrompt args prompt) (runOrder st1 fixerId base) [] true st1
        = Some (exit, st2))
  /\ (forall (st st1 : State W) (base : CliRoute),
      getCliRoute fixerId false st = Some (Some base, st1) ->
      exists first,
        runOrder st1 fixerId base
        = first :: filter (fun r => negb (String.eqb (id r) (id base)))
                          (getCliRouteCandidates (configuration st1) fixerId)
        /\ id first = id base
        /\ first ∈ getCliRouteCandidates (configuration st1) fixerId)
  /\ (forall (st st1 : State W) (base : CliRoute),
        getCliRoute fixerId false st = Some (Some base, st1) ->
        cacheFromCatalog st ->
        runOrder st1 fixerId base
        = base :: filter (fun r => negb (String.eqb (id r) (id base)))
                         (getCliRouteCandidates (configuration st1) fixerId)
        /\ base ∈ getCliRouteCandidates (configuration st1) fixerId)
  /\ (forall (baseId cwd : string) (route : CliRoute) (st : State W),
        id route = baseId ->
        probeUnlessBase baseId cwd route st = Some (true, st))
  /\ (forall (baseId cwd cliPrompt : string) (route : CliRoute)
             (rest : list CliRoute) (failures : list string) (saw : bool)
             (st st0 st' : State W) (exit : LoopExit),
        probeUnlessBase baseId cwd route st = Some (true, st0) ->
        runLoop fixerId baseId cwd cliPrompt (route :: rest) failures saw st
        = Some (exit, st') ->
        exists result more,
          newEffects st0 st'
          = Spawn (buildRun route cliPrompt) cwd CLI_RUN_TIMEOUT_MS result :: more)
  /\ (forall (baseId cwd cliPrompt : string) (route : CliRoute)
             (rest : list CliRoute) (failures : list string) (saw : bool)
             (st : State W),
        id route <> baseId ->
        match probeRoute route cwd st with
        | Some (false, st1) =>
            runLoop fixerId baseId cwd cliPrompt (route :: rest) failures saw st
            = runLoop fixerId baseId cwd cliPrompt rest failures saw st1
            /\ runResults (newEffects st st1) = []
        | Some (true, st1) =>
            probeUnlessBase baseId cwd route st = Some (true, st1)
        | None =>
            runLoop fixerId baseId cwd cliPrompt (route :: rest) failures saw st
            = None
        end).
Proof.
  split_and!.
  - intros args prompt st st1 st' base out Hget Hrun.
    apply runCliFix_cases in Hrun as (base' & st1' & Hget' & Hrest).
    rewrite Hget in Hget'. injection Hget' as <- <-.
    destruct Hrest as (exit & st2 & Hloop & _). eauto.
  - intros st st1 base Hget.
    apply getCliRoute_spec in Hget as (_ & _ & _ & _ & Havail & _).
    apply orderRoutesWithPreferred_available, Havail. reflexivity.
  - intros st st1 base Hget Hinv.
    destruct (getCliRoute_cache _ _ _ _ Hget) as [_ Hfrom].
    pose proof (Hfrom Hinv base eq_refl) as Hin.
    split; [| exact Hin].
    apply orderRoutesWithPreferred_candidate, Hin.
  - intros baseId cwd route st <-. unfold probeUnlessBase. rewrite String.eqb_refl.
    reflexivity.
  - intros baseId cwd cliPrompt route rest failures saw st st0 st' exit
           Hpass Hloop.
    rewrite runLoop_cons in Hloop. unfold bind at 1 in Hloop.
    rewrite Hpass in Hloop. simpl in Hloop.
    apply bind_Some in Hloop as (result & st2 & Hrun & Hloop).
    apply runCommand_spec in Hrun as (Hadv & _).
    assert (Hmore : exists more, advances st2 st' more).
    { destruct (isReadOnlySandboxNotice result).
      - apply runLoop_spec in Hloop as (new & Hnew & _). eauto.
      - destruct (isProcessSuccess result).
        + apply bind_Some in Hloop as (u1 & st3 & Hset & Hloop).
          apply bind_Some in Hloop as (u2 & st4 & Hbox & [= _ <-]).
          apply setCachedCliRoute_spec in Hset as (Hadv3 & _).
          apply appendOutputBox_spec in Hbox as (Hadv4 & _).
          eexists. eapply advances_trans; eassumption.
        + destruct (negb (isInvocationFailure result)).
          * injection Hloop as _ <-. eexists. apply advances_refl.
          * apply runLoop_spec in Hloop as (new & Hnew & _). eauto. }
    destruct Hmore as (more & Hmore).
    exists result, more.
    apply newEffects_advances.
    apply (advances_trans _ _ _ _ _ Hadv Hmore).
  - intros baseId cwd cliPrompt route rest failures saw st Hne.
    assert (Hpass : probeUnlessBase baseId cwd route = probeRoute route cwd).
    { unfold probeUnlessBase. apply String.eqb_neq in Hne. rewrite Hne. reflexivity. }
    destruct (probeRoute route cwd st) as [[[|] st1] |] eqn:Hprobe.
    + rewrite Hpass. exact Hprobe.
    + split.
      * rewrite runLoop_cons, Hpass. unfold bind at 1. rewrite Hprobe.
        reflexivity.
      * apply probeRoute_spec in Hprobe as (new & Hadv & Hruns & _).
        rewrite (newEffects_advances _ _ _ Hadv). exact Hruns.
    + rewrite runLoop_cons, Hpass. unfold bind at 1. rewrite Hprobe.
      reflexivity.
Qed.

(** The availability cache only grows. *)
Lemma isCommandAvailable_monotone (command other : string) (st st1 : State W)
      (b : bool) :
  isCommandAvailable other st = Some (b, st1) ->
  is_Some (commandAvailabilityCache st !! command) ->
  is_Some (commandAvailabilityCache st1 !! command).
Proof.
  unfold isCommandAvailable. intros Hcall Hcached.
  apply bind_Some in Hcall as (st0 & st0' & [= <- <-] & Hcall).
  destruct (commandAvailabilityCache st !! other) as [v |] eqn:Hother.
  - injection Hcall as _ <-. exact Hcached.
  - destruct (getCommands (host st)) as [commands w].
    destruct (existsb (String.eqb other) commands);
      injection Hcall as _ <-; simpl; [| exact Hcached].
    rewrite lookup_insert. case_decide; [eauto | exact Hcached].
Qed.

Lemma isCommandAvailable_total (command : string) (st : State W) :
  exists b st1, isCommandAvailable command st = Some (b, st1).
Proof.
  unfold isCommandAvailable, bind, getState.
  destruct (commandAvailabilityCache st !! command); [unfold ret; eauto |].
  destruct (getCommands (host st)) as [commands w].
  destruct (existsb (String.eqb command) commands); eauto.
Qed.

Lemma checkAll_monotone (command : string) (commands : list string) :
  forall (st st1 : State W) (answers : list bool),
    checkAll commands st = Some (answers, st1) ->
    is_Some (commandAvailabilityCache st !! command) ->
    is_Some (commandAvailabilityCache st1 !! command).
Proof.
  induction commands as [| c cs IH]; intros st st1 answers Hall Hcached;
    simpl in Hall.
  - injection Hall as _ <-. exact Hcached.
  - apply bind_Some in Hall as (b & st0 & Hcall & Hall).
    apply bind_Some in Hall as (bs & st2 & Hrest & [= _ <-]).
    eapply IH; [eassumption |].
    eapply isCommandAvailable_monotone; eassumption.
Qed.

Lemma checkAll_total (commands : list string) (st : State W) :
  exists answers st1, checkAll commands st = Some (answers, st1).
Proof.
  revert st. induction commands as [| c cs IH]; intros st; simpl.
  - unfold ret. eauto.
  - destruct (isCommandAvailable_total c st) as (b & st0 & Hcall).
    destruct (IH st0) as (bs & st1 & Hrest).
    exists (b :: bs), st1. unfold bind. rewrite Hcall, Hrest. reflexivity.
Qed.

(** A check for another command, or one answered [false], leaves an
    uncached command uncached. *)
Lemma isCommandAvailable_stays_uncached (command other : string)
      (st st1 : State W) (b : bool) :
  isCommandAvailable other st = Some (b, st1) ->
  commandAvailabilityCache st !! command = None ->
  (other = command -> b = false) ->
  commandAvailabilityCache st1 !! command = None.
Proof.
  unfold isCommandAvailable. intros Hcall Hnone Hfalse.
  apply bind_Some in Hcall as (st0 & st0' & [= <- <-] & Hcall).
  destruct (commandAvailabilityCache st !! other) as [v |] eqn:Hother.
  - injection Hcall as _ <-. exact Hnone.
  - destruct (getCommands (host st)) as [commands w].
    destruct (existsb (String.eqb other) commands);
      injection Hcall as <- <-; simpl; [| exact Hnone].
    rewrite lookup_insert_ne; [exact Hnone |].
    intros ->. specialize (Hfalse eq_refl). discriminate.
Qed.

Lemma checkAll_stays_uncached (command : string) (others : list string) :
  forall (st st1 : State W) (answers : list bool),
    checkAll others st = Some (answers, st1) ->
    commandAvailabilityCache st !! command = None ->
    (forall i, others !! i = Some command -> answers !! i = Some false) ->
    commandAvailabilityCache st1 !! command = None.
Proof.
  induction others as [| c cs IH]; intros st st1 answers Hall Hnone Hfalse;
    simpl in Hall.
  - injection Hall as _ <-. exact Hnone.
  - apply bind_Some in Hall as (b & st0 & Hcall & Hall).
    apply bind_Some in Hall as (bs & st2 & Hrest & [= <- <-]).
    eapply IH; [exact Hrest | |].
    + eapply isCommandAvailable_stays_uncached; [exact Hcall | exact Hnone |].
      intros ->. specialize (Hfalse 0%nat eq_refl). simpl in Hfalse. congruence.
    + intros i Hi. apply (Hfalse (S i)). exact Hi.
Qed.

(** C10. [isCommandAvailable] caches positive answers only.
    - A call for a cached command answers [true] and touches neither the
      host nor the state.
    - A call for a command that is not cached queries the host's command
      list exactly once and answers whether the command is in the list
      just read; the cache gains the command when the answer is [true]
      and is unchanged when it is [false].
    - Once a call has answered [true] for a command, then after any
      further availability checks, for any commands and whatever the host
      lists by then, a call for that command answers [true] without
      touching the host or the state.
    - An answer [false] is only given for a command that was not cached
      and is not in the list just read, and leaves the cache as it was.
    - As long as every call for a command has answered [false], through
      any sequence of availability checks, the command is not cached, and
      the next call for it queries the host again and answers from the
      list it reads then. *)
Theorem availability_cache_is_positive_only (command : string) :
  (forall (st : State W),
      is_Some (commandAvailabilityCache st !! command) ->
      isCommandAvailable command st = Some (true, st)
      /\ hostQueries (newEffects st st) = 0%nat)
  /\ (forall (st : State W),
        commandAvailabilityCache st !! command = None ->
        exists st1,
          isCommandAvailable command st
          = Some (existsb (String.eqb command) (fst (getCommands (host st))), st1)
          /\ newEffects st st1 = [GetCommands (fst (getCommands (host st)))]
          /\ hostQueries (newEffects st st1) = 1%nat
          /\ host st1 = snd (getCommands (host st))
          /\ commandAvailabilityCache st1
             = if existsb (String.eqb command) (fst (getCommands (host st)))
               then <[command := true]> (commandAvailabilityCache st)
               else commandAvailabilityCache st)
  /\ (forall (st st1 : State W),
        isCommandAvailable command st = Some (true, st1) ->
        forall (others : list string),
        exists answers st2,
          checkAll others st1 = Some (answers, st2)
          /\ isCommandAvailable command st2 = Some (true, st2)
          /\ hostQueries (newEffects st2 st2) = 0%nat)
  /\ (forall (st st1 : State W),
        isCommandAvailable command st = Some (false, st1) ->
        commandAvailabilityCache st !! command = None
        /\ commandAvailabilityCache st1 = commandAvailabilityCache st
        /\ existsb (String.eqb command) (fst (getCommands (host st))) = false)
  /\ (forall (others : list string) (st st1 : State W) (answers : list bool),
        commandAvailabilityCache st !! command = None ->
        checkAll others st = Some (answers, st1) ->
        (forall i, others !! i = Some command -> answers !! i = Some false) ->
        commandAvailabilityCache st1 !! command = None
        /\ exists st2,
             isCommandAvailable command st1
             = Some (existsb (String.eqb command) (fst (getCommands (host st1))),
                     st2)
             /\ hostQueries (newEffects st1 st2) = 1%nat).
Proof.
  assert (Hquiet : forall st : State W, hostQueries (newEffects st st) = 0%nat).
  { intros st. unfold newEffects. rewrite drop_all. reflexivity. }
  assert (Hhit : forall st : State W,
             is_Some (commandAvailabilityCache st !! command) ->
             isCommandAvailable command st = Some (true, st)).
  { intros st [v Hv]. unfold isCommandAvailable, bind, getState.
    rewrite Hv. reflexivity. }
  assert (Hmiss : forall st : State W,
             commandAvailabilityCache st !! command = None ->
             exists st1,
               isCommandAvailable command st
               = Some (existsb (String.eqb command) (fst (getCommands (host st))),
                       st1)
               /\ newEffects st st1 = [GetCommands (fst (getCommands (host st)))]
               /\ hostQueries (newEffects st st1) = 1%nat
               /\ host st1 = snd (getCommands (host st))
               /\ commandAvailabilityCache st1
                  = if existsb (String.eqb command) (fst (getCommands (host st)))
                    then <[command := true]> (commandAvailabilityCache st)
                    else commandAvailabilityCache st).
  { intros st Hnone. unfold isCommandAvailable, bind, getState. rewrite Hnone.
    destruct (getCommands (host st)) as [commands w]. simpl.
    destruct (existsb (String.eqb command) commands) eqn:Hfound;
      eexists; (split; [reflexivity |]);
      unfold newEffects; simpl; rewrite drop_app_length; auto. }
  split; [intros st Hcached; split; [apply Hhit, Hcached | apply Hquiet] |].
  split; [exact Hmiss |]. split; [| split].
  - intros st st1 Hcall others.
    assert (Hcached : is_Some (commandAvailabilityCache st1 !! command)).
    { destruct (commandAvailabilityCache st !! command) as [v |] eqn:Hv.
      - rewrite (Hhit st) in Hcall by eauto. injection Hcall as <-. eauto.
      - destruct (Hmiss st Hv) as (st' & Hcall' & _ & _ & _ & Hcache).
        rewrite Hcall in Hcall'. injection Hcall' as Hb <-.
        rewrite Hcache, <- Hb, lookup_insert_eq. eauto. }
    destruct (checkAll_total others st1) as (answers & st2 & Hall).
    exists answers, st2. split; [exact Hall |].
    split; [| apply Hquiet].
    apply Hhit. eapply checkAll_monotone; eassumption.
  - intros st st1 Hcall.
    destruct (commandAvailabilityCache st !! command) as [v |] eqn:Hv.
    { rewrite (Hhit st) in Hcall by eauto. discriminate. }
    destruct (Hmiss st Hv) as (st' & Hcall' & _ & _ & _ & Hcache).
    rewrite Hcall in Hcall'. injection Hcall' as Hb <-.
    rewrite <- Hb in Hcache. auto.
  - intros others st st1 answers Hnone Hall Hfalse.
    pose proof (checkAll_stays_uncached _ _ _ _ _ Hall Hnone Hfalse) as Hnone1.
    split; [exact Hnone1 |].
    destruct (Hmiss st1 Hnone1) as (st2 & Hcall & _ & Hquery & _).
    eauto.
Qed.

End EngineProperties.

(* ===================================================================== *)
(** ** Progress *)
(* ===================================================================== *)

(** The promise of [runCommand] settles exactly when [spawn] throws or the
    child delivers ['error'] or ['close']. *)
Lemma settle_is_Some (outcome : SpawnOutcome) :
  is_Some (settle outcome)
  <-> match outcome with
      | SpawnThrows _ _ => True
      | Spawned events => existsb isFinal events = true
      end.
Proof.
  destruct outcome as [message code | events]; simpl.
  - split; eauto.
  - assert (Hgen : forall l,
               is_Some (l_resolved (fold_left onEvent events l))
               <-> is_Some (l_resolved l) \/ existsb isFinal events = true).
    { induction events as [| ev events IH]; intros l; simpl.
      - split; [auto | intros [H | H]; [exact H | discriminate]].
      - rewrite IH. destruct ev; simpl; unfold finalize; simpl;
          try destruct (l_timerCleared l); simpl;
          destruct (l_resolved l) eqn:Hres; simpl; rewrite ?Hres;
          split; intros [H | H]; eauto; try discriminate;
          destruct H; discriminate. }
    rewrite Hgen. simpl. split; [intros [[r Hr] | H]; [discriminate | exact H] | auto].
Qed.

Section Progress.
Context {W : Type} `{!Host W}.
Hypothesis Hsettles : hostSettles.

Lemma runCommand_settles (spec : CommandSpec) (cwd : string) (timeoutMs : Z)
      (st : State W) :
  is_Some (runCommand spec cwd timeoutMs st).
Proof.
  unfold runCommand. specialize (Hsettles (host st) spec cwd timeoutMs).
  destruct (spawn (host st) spec cwd timeoutMs) as [outcome w]. simpl in Hsettles.
  destruct Hsettles as [r ->]. eauto.
Qed.

Lemma bind_settles {A B} (m : M W A) (k : A -> M W B) (st : State W) :
  is_Some (m st) -> (forall a st1, is_Some (k a st1)) -> is_Some (bind m k st).
Proof. intros [[a st1] Hm] Hk. unfold bind. rewrite Hm. apply Hk. Qed.

Lemma setCachedCliRoute_settles (fixerId : CliFixerId) (route : option CliRoute)
      (st : State W) :
  is_Some (setCachedCliRoute fixerId route st).
Proof.
  unfold setCachedCliRoute, bind, modifyState, getState, ret. simpl.
  destruct (extensionContextRef st); eauto.
Qed.

Lemma probeRoute_settles (route : CliRoute) (cwd : string) (st : State W) :
  is_Some (probeRoute route cwd st).
Proof.
  unfold probeRoute, bind at 1, getState.
  destruct (cliProbeCache st !! probeKey route cwd); [unfold ret; eauto |].
  apply bind_settles; [apply runCommand_settles |].
  intros result st1. unfold bind, modifyState, ret. eauto.
Qed.

Lemma discoverLoop_settles (fixerId : CliFixerId) (cwd : string)
      (routes : list CliRoute) (st : State W) :
  is_Some (discoverLoop fixerId cwd routes st).
Proof.
  revert st. induction routes as [| route rest IH]; intros st; simpl.
  - apply bind_settles; [apply setCachedCliRoute_settles |].
    intros; unfold ret; eauto.
  - apply bind_settles; [apply probeRoute_settles |].
    intros [|] st1; [| apply IH].
    apply bind_settles; [apply setCachedCliRoute_settles |].
    intros; unfold ret; eauto.
Qed.

Lemma getCliRoute_settles (fixerId : CliFixerId) (forceRefresh : bool)
      (st : State W) :
  is_Some (getCliRoute fixerId forceRefresh st).
Proof.
  assert (Hdisc : forall st0 : State W, is_Some (discoverCliRoute fixerId st0)).
  { intros st0. unfold discoverCliRoute, bind, getState.
    apply discoverLoop_settles. }
  unfold getCliRoute, bind at 1, getState.
  destruct (if forceRefresh then None else cliRouteCache st !! fixerKey fixerId)
    as [[cached |] |]; [| unfold ret; eauto | apply Hdisc].
  destruct (isRouteAvailable (configuration st) fixerId (id cached));
    [unfold ret; eauto |].
  apply bind_settles; [apply setCachedCliRoute_settles | intros; apply Hdisc].
Qed.

Lemma runLoop_settles (fixerId : CliFixerId) (baseId cwd cliPrompt : string)
      (routes : list CliRoute) :
  forall (failures : list string) (saw : bool) (st : State W),
    is_Some (runLoop fixerId baseId cwd cliPrompt routes failures saw st).
Proof.
  induction routes as [| route rest IH]; intros failures saw st; simpl.
  - unfold ret; eauto.
  - apply bind_settles.
    { destruct (negb (String.eqb (id route) baseId));
        [apply probeRoute_settles | unfold ret; eauto]. }
    intros [|] st1; simpl; [| apply IH].
    apply bind_settles; [apply runCommand_settles |].
    intros result st2.
    destruct (isReadOnlySandboxNotice result); [apply IH |].
    destruct (isProcessSuccess result).
    + apply bind_settles; [apply setCachedCliRoute_settles |].
      intros; unfold bind, appendOutputBox, modifyState, ret; eauto.
    + destruct (negb (isInvocationFailure result)); [unfold ret; eauto | apply IH].
Qed.

(** On a host whose processes all end, every invocation of the runner
    ends: it resolves or throws. *)
Lemma runCliFix_settles (args : RunFixerArgs) (prompt : string)
      (fixerId : CliFixerId) (st : State W) :
  is_Some (runCliFix args prompt fixerId st).
Proof.
  unfold runCliFix.
  apply bind_settles; [apply getCliRoute_settles |].
  intros [baseRoute |] st1; [| unfold ret; eauto].
  unfold bind at 1, getState.
  apply bind_settles; [apply runLoop_settles |].
  intros [| failures saw] st2; [unfold ret; eauto |].
  apply bind_settles.
  { destruct saw; [apply setCachedCliRoute_settles | unfold ret; eauto]. }
  intros; unfold bind, appendOutputBox, modifyState, ret; eauto.
Qed.

End Progress.

(* ===================================================================== *)
(** ** Concrete runs *)
(* ===================================================================== *)

(** C1, refuted as stated: [codex] answers the discovery probe and is gone
    when the fix is run.  All four fix runs are invocation failures; the
    invocation leaves known-bad cached, not unresolved, and the next resolve
    returns [null] without a single probe. *)
Lemma invocation_failures_do_not_clear_the_verdict :
  exists out st',
    runCliFix sampleArgs samplePrompt CodexCli freshlyActivated = Some (out, st')
    /\ length (runResults (newEffects freshlyActivated st')) = 4%nat
    /\ forallb isInvocationFailureRun
               (runResults (newEffects freshlyActivated st')) = true
    /\ verdict st' CodexCli <> Unresolved
    /\ verdict st' CodexCli = KnownBad
    /\ getCliRoute CodexCli false st' = Some (None, st').
Proof.
  exists (answer Resolved (runCliFix sampleArgs samplePrompt CodexCli) freshlyActivated),
         (finalState (runCliFix sampleArgs samplePrompt CodexCli) freshlyActivated).
  split_and!; try (vm_compute; reflexivity).
  vm_compute. discriminate.
Qed.

(** The same run, through the theorem. *)
Lemma invocation_failures_leave_known_bad_witness :
  exists out st',
    runCliFix sampleArgs samplePrompt CodexCli freshlyActivated = Some (out, st')
    /\ verdict st' CodexCli = KnownBad.
Proof.
  exists (answer Resolved (runCliFix sampleArgs samplePrompt CodexCli) freshlyActivated),
         (finalState (runCliFix sampleArgs samplePrompt CodexCli) freshlyActivated).
  assert (Hrun : runCliFix sampleArgs samplePrompt CodexCli freshlyActivated
                 = Some (answer Resolved (runCliFix sampleArgs samplePrompt CodexCli)
                                freshlyActivated,
                         finalState (runCliFix sampleArgs samplePrompt CodexCli)
                                    freshlyActivated))
    by (vm_compute; reflexivity).
  split; [exact Hrun |].
  apply (invocation_failures_leave_known_bad _ _ _ _ _ _ Hrun).
  vm_compute. reflexivity.
Defined.

(** A remembered [plain] variant of [codex] is ignored; a remembered
    [workspace-write] variant is probed first. *)
Lemma persisted_preference_filtered_for_codex_only_witness :
  discoveryOrder (remembering CodexCli "bash:codex:exec:plain") CodexCli
  = getCliRouteCandidates ∅ CodexCli
  /\ exists route,
       discoveryOrder (remembering CodexCli "bash:codex:exec:workspace-write-skipgit")
                      CodexCli
       = route :: filter (fun r => negb (String.eqb (id r) (id route)))
                         (getCliRouteCandidates ∅ CodexCli)
       /\ id route = "bash:codex:exec:workspace-write-skipgit".
Proof.
  split.
  - destruct (persisted_preference_filtered_for_codex_only
                (remembering CodexCli "bash:codex:exec:plain"))
      as (_ & _ & _ & Hrestrictive & _).
    apply (Hrestrictive "bash:codex:exec:plain"); reflexivity.
  - destruct (persisted_preference_filtered_for_codex_only
                (remembering CodexCli "bash:codex:exec:workspace-write-skipgit"))
      as (_ & _ & Hcodex & _).
    exists (nth 1 getCodexCliRoutes noRoute). split; [| reflexivity].
    apply (Hcodex (nth 1 getCodexCliRoutes noRoute)).
    + apply list_elem_of_lookup. exists 1%nat. reflexivity.
    + reflexivity.
Defined.

(** [claude -p] is resolved, its run meets the read-only sandbox, the next
    candidate [claude --print] succeeds and becomes the verdict. *)
Lemma sandbox_notice_is_soft_witness :
  keepsVerdicts sandboxedFirstResolved
    (finalState (runCommand (buildRun claudeShort (buildCliPrompt sampleArgs samplePrompt))
                            "/work" CLI_RUN_TIMEOUT_MS)
                sandboxedFirstResolved)
  /\ exists route,
       verdict sandboxedFirstDone ClaudeCli = KnownGood route
       /\ id route = "native:claude:print".
Proof.
  destruct (sandbox_notice_is_soft (W := Scripted) sampleArgs samplePrompt ClaudeCli)
    as [Hstep Hwhole].
  split.
  - eapply (Hstep (id claudeShort) "/work" (buildCliPrompt sampleArgs samplePrompt)
                  claudeShort [] [] true sandboxedFirstResolved
                  sandboxedFirstResolved _
                  (answer (mkProcessResult None "" "" false None)
                          (runCommand (buildRun claudeShort
                                         (buildCliPrompt sampleArgs samplePrompt))
                                      "/work" CLI_RUN_TIMEOUT_MS)
                          sandboxedFirstResolved)).
    + vm_compute. reflexivity.
    + vm_compute. reflexivity.
    + vm_compute. reflexivity.
  - destruct (Hwhole sandboxedFirst sandboxedFirstResolved sandboxedFirstDone
                     claudeShort Resolved)
      as (route & result & _ & Hverdict & _).
    + vm_compute. reflexivity.
    + vm_compute. reflexivity.
    + vm_compute. reflexivity.
    + exists route. split; [exact Hverdict |].
      assert (Hlong : verdict sandboxedFirstDone ClaudeCli = KnownGood claudeLong)
        by (vm_compute; reflexivity).
      rewrite Hlong in Hverdict. injection Hverdict as <-. reflexivity.
Defined.

(** In the same run the loop starts with [claude -p], unprobed; the probe
    of [claude --print] is answered from the probe cache. *)
Lemma base_route_first_then_probed_candidates_witness :
  runOrder sandboxedFirstResolved ClaudeCli claudeShort
  = claudeShort :: filter (fun r => negb (String.eqb (id r) (id claudeShort)))
                          (getCliRouteCandidates ∅ ClaudeCli)
  /\ probeUnlessBase (id claudeShort) "/work" claudeShort sandboxedFirstResolved
     = Some (true, sandboxedFirstResolved)
  /\ probeUnlessBase (id claudeShort) "/work" claudeLong sandboxedFirstResolved
     = Some (true, sandboxedFirstResolved)
  /\ exists result more,
       newEffects sandboxedFirstResolved sandboxedFirstDone
       = Spawn (buildRun claudeShort (buildCliPrompt sampleArgs samplePrompt))
               "/work" CLI_RUN_TIMEOUT_MS result :: more.
Proof.
  destruct (base_route_first_then_probed_candidates (W := Scripted) ClaudeCli)
    as (_ & _ & Hexact & Hbase & Hrun & Hother).
  split_and!.
  - apply (Hexact sandboxedFirst sandboxedFirstResolved claudeShort).
    + vm_compute. reflexivity.
    + apply cacheFromCatalog_activated.
  - apply Hbase. reflexivity.
  - apply (Hother (id claudeShort) "/work" "" claudeLong [] [] true
                  sandboxedFirstResolved).
    vm_compute. discriminate.
  - apply (Hrun (id claudeShort) "/work" (buildCliPrompt sampleArgs samplePrompt)
                claudeShort
                (filter (fun r => negb (String.eqb (id r) (id claudeShort)))
                        (getCliRouteCandidates ∅ ClaudeCli))
                [] true sandboxedFirstResolved sandboxedFirstResolved
                sandboxedFirstDone Returned).
    + vm_compute. reflexivity.
    + vm_compute. reflexivity.
Defined.

(** The editor command is absent at the first check and stays uncached,
    so that the second check queries the host again; it is present at the
    second check and reported present ever after. *)
Lemma availability_cache_is_positive_only_witness :
  (commandAvailabilityCache afterFirstCheck !! editorCommand = None
   /\ exists st2,
        isCommandAvailable editorCommand afterFirstCheck
        = Some (existsb (String.eqb editorCommand)
                        (fst (getCommands (host afterFirstCheck))), st2)
        /\ hostQueries (newEffects afterFirstCheck st2) = 1%nat)
  /\ exists answers st2,
       checkAll ["chatgpt.implementTodo"; editorCommand] afterSecondCheck
       = Some (answers, st2)
       /\ isCommandAvailable editorCommand st2 = Some (true, st2)
       /\ hostQueries (newEffects st2 st2) = 0%nat.
Proof.
  destruct (availability_cache_is_positive_only (W := Scripted) editorCommand)
    as (_ & _ & Hpositive & _ & Hnegative).
  split.
  - apply (Hnegative [editorCommand] beforeRegistration afterFirstCheck [false]).
    + vm_compute. reflexivity.
    + vm_compute. reflexivity.
    + intros [| i] Hi; [reflexivity | discriminate Hi].
  - apply (Hpositive afterFirstCheck afterSecondCheck).
    vm_compute. reflexivity.
Defined.

(* ===================================================================== *)
(** ** Properties of prompt construction and fixer ids *)
(* ===================================================================== *)

(** [trim] removes no-break spaces with the other white space and keeps
    the next-line control; a fixer label, a stream and a diagnostic
    message made of no-break spaces are read accordingly. *)
Lemma trim_strips_no_break_space :
  Js.trim (noBreakSpace +:+ " claude" +:+ newline +:+ noBreakSpace) = "claude"
  /\ Js.trim noBreakSpace = ""
  /\ Js.trim nextLine = nextLine
  /\ resolveFixerId
       (Some (mkFixerRequest None (Some (Js.JString (noBreakSpace +:+ "claude")))))
     = Some Claude
  /\ getProcessOutputText (mkProcessResult (Some 0) noBreakSpace "" false None)
     = "".
Proof. repeat split; vm_compute; reflexivity. Qed.

(** X1. [clampLineNumber] returns a line of the document: for a non-empty
    document the result is between 0 and [lineCount - 1], it is the
    requested line whenever that one is in range, the first line below the
    range and the last line above it. *)
Theorem clampLineNumber_in_document (document : TextDocument) (requestedLine : Z) :
  0 < lineCount document ->
  0 <= clampLineNumber document requestedLine < lineCount document
  /\ (0 <= requestedLine < lineCount document ->
      clampLineNumber document requestedLine = requestedLine)
  /\ (requestedLine < 0 -> clampLineNumber document requestedLine = 0)
  /\ (lineCount document <= requestedLine ->
      clampLineNumber document requestedLine = lineCount document - 1).
Proof.
  intros Hcount. unfold clampLineNumber.
  destruct (Z.leb_spec (lineCount document) 0); [lia |].
  destruct (Z.ltb_spec requestedLine 0); lia.
Qed.

(** The third line of a five-line document. *)
Lemma clampLineNumber_in_document_witness :
  clampLineNumber (mkTextDocument ["a"; "b"; "c"; "d"; "e"]) 2 = 2.
Proof.
  apply (clampLineNumber_in_document (mkTextDocument ["a"; "b"; "c"; "d"; "e"]) 2);
    vm_compute; split; congruence.
Defined.

(** X2. On a document with at least one line [buildPrompt] does not throw:
    the 1-based line it reports exists in the document, the prompt quotes
    the text of exactly that line ([(empty line)] when it is empty), and a
    requested line inside the document is reported as is.  On a document
    without lines it throws. *)
Theorem buildPrompt_reports_an_existing_line
        (document : TextDocument) (startLine : Z)
        (diagnosticMessage : option string) :
  (documentLines document = [] ->
   buildPrompt document startLine diagnosticMessage = None)
  /\ (documentLines document <> [] ->
      exists spec text,
        buildPrompt document startLine diagnosticMessage = Some spec
        /\ 1 <= line spec <= lineCount document
        /\ documentLines document !! Z.to_nat (line spec - 1) = Some text
        /\ prompt spec
           = "Diagnostic: "
               +:+ orElse (match diagnosticMessage with
                           | Some message => Js.trim message
                           | None => ""
                           end) "(none provided)"
               +:+ newline +:+ "Line: " +:+ Js.showZ (line spec) +:+ newline
               +:+ "Code: " +:+ orElse text "(empty line)"
        /\ (0 <= startLine < lineCount document -> line spec = startLine + 1)).
Proof.
  split.
  - intros Hempty. unfold buildPrompt, clampLineNumber, lineCount, lineAt.
    rewrite Hempty. reflexivity.
  - intros Hlines.
    assert (Hcount : 0 < lineCount document).
    { unfold lineCount. destruct (documentLines document); [congruence |].
      simpl length. lia. }
    assert (Hrange : 0 <= clampLineNumber document startLine < lineCount document
                     /\ (0 <= startLine < lineCount document ->
                         clampLineNumber document startLine = startLine)).
    { unfold clampLineNumber.
      destruct (Z.leb_spec (lineCount document) 0); [lia |].
      destruct (Z.ltb_spec startLine 0); lia. }
    destruct Hrange as (Hrange & Hkeep).
    unfold buildPrompt.
    replace (clampLineNumber document startLine + 1 - 1)
      with (clampLineNumber document startLine) by lia.
    unfold lineAt.
    destruct (Z.ltb_spec (clampLineNumber document startLine) 0); [lia |].
    destruct (documentLines document
                !! Z.to_nat (clampLineNumber document startLine))
      as [text |] eqn:Htext.
    + exists {| line := clampLineNumber document startLine + 1;
                prompt := "Diagnostic: "
                  +:+ orElse (match diagnosticMessage with
                              | Some message => Js.trim message
                              | None => ""
                              end) "(none provided)"
                  +:+ newline +:+ "Line: "
                  +:+ Js.showZ (clampLineNumber document startLine + 1)
                  +:+ newline +:+ "Code: " +:+ orElse text "(empty line)" |}, text.
      simpl. split_and!; try reflexivity; try lia.
      all: try (replace (clampLineNumber document startLine + 1 - 1)
                  with (clampLineNumber document startLine) by lia;
                exact Htext).
      all: intros Hin; rewrite (Hkeep Hin); reflexivity.
    + exfalso. apply lookup_ge_None in Htext. unfold lineCount in *. lia.
Qed.

(** A request beyond the end of a three-line document lands on line 3. *)
Lemma buildPrompt_reports_an_existing_line_witness :
  exists spec text,
    buildPrompt (mkTextDocument ["let a = 1;"; ""; "use(a)"]) 7 (Some " unused ")
    = Some spec
    /\ 1 <= line spec <= 3
    /\ [ "let a = 1;"; ""; "use(a)" ] !! Z.to_nat (line spec - 1) = Some text.
Proof.
  destruct (buildPrompt_reports_an_existing_line
              (mkTextDocument ["let a = 1;"; ""; "use(a)"]) 7 (Some " unused "))
    as [_ Hsome].
  destruct Hsome as (spec & text & Hbuild & Hrange & Htext & _).
  - discriminate.
  - exists spec, text. auto.
Defined.

(** X3. [resolveFixerId] finds the fixer from either field of the request:
    a valid [fixerId] wins whatever [fixer] holds, and without one the
    label shown in the menu leads back to its fixer.  Every answer comes
    from one of the two fields. *)
Theorem resolveFixerId_round_trip (fixerId : FixerId) :
  (forall other,
      resolveFixerId
        (Some {| requestFixerId := Some (Js.JString (fixerIdString fixerId));
                 requestFixer := other |}) = Some fixerId)
  /\ resolveFixerId
       (Some {| requestFixerId := None;
                requestFixer := Some (Js.JString (label (FIXERS fixerId))) |})
     = Some fixerId
  /\ (forall request,
        resolveFixerId (Some request) = Some fixerId ->
        requestFixerId request = Some (Js.JString (fixerIdString fixerId))
        \/ exists fixer,
            requestFixer request = Some (Js.JString fixer)
            /\ Js.toLowerCase (Js.trim fixer)
               = Js.toLowerCase (label (FIXERS fixerId))).
Proof.
  split_and!.
  - intros other. destruct fixerId; reflexivity.
  - destruct fixerId; reflexivity.
  - intros [byId byName]. unfold resolveFixerId. simpl.
    destruct (isFixerId byId) as [found |] eqn:Hid.
    + intros [= ->]. left. unfold isFixerId in Hid.
      repeat (match type of Hid with
              | match ?x with _ => _ end = _ => destruct x; try discriminate
              end).
      all: injection Hid as <-; reflexivity.
    + destruct byName as [[fixer | |] |]; try discriminate.
      intros Hname. right. exists fixer. split; [reflexivity |].
      destruct fixerId;
        repeat (match type of Hname with
                | match ?x with _ => _ end = _ =>
                    destruct x eqn:?; try discriminate
                end);
        try (injection Hname as Hname; discriminate).
      all: subst; vm_compute; repeat f_equal.
Qed.

(** The menu entry [Codex CLI]. *)
Lemma resolveFixerId_round_trip_witness :
  requestFixerId (mkFixerRequest None (Some (Js.JString "  codex CLI ")))
  = Some (Js.JString "codex-cli")
  \/ exists fixer,
      Some (Js.JString "  codex CLI ") = Some (Js.JString fixer)
      /\ Js.toLowerCase (Js.trim fixer) = "codex cli".
Proof.
  destruct (resolveFixerId_round_trip CodexCliFixer) as (_ & _ & Hsound).
  apply (Hsound (mkFixerRequest None (Some (Js.JString "  codex CLI ")))).
  reflexivity.
Defined.

(* ===================================================================== *)
(** ** Properties of the Reporter *)
(* ===================================================================== *)

Lemma string_app_nil_r (s : string) : s +:+ "" = s.
Proof.
  induction s as [| c s IH]; [reflexivity |].
  change (String c (s +:+ "") = String c s). now rewrite IH.
Qed.

Lemma string_app_assoc (s t u : string) : (s +:+ t) +:+ u = s +:+ (t +:+ u).
Proof.
  induction s as [| c s IH]; [reflexivity |].
  change (String c ((s +:+ t) +:+ u) = String c (s +:+ (t +:+ u))). now rewrite IH.
Qed.

Lemma substring_zero_length (index : nat) (s : string) :
  String.substring index 0 s = "".
Proof.
  revert index. induction s as [| c s IH]; intros [| index]; simpl; auto.
Qed.

Lemma substring_beyond (index m : nat) (s : string) :
  (String.length s <= index)%nat -> String.substring index m s = "".
Proof.
  revert index m. induction s as [| c s IH]; intros [| index] [| m] Hlen;
    simpl in *; auto; try lia; apply IH; lia.
Qed.

Lemma substring_split (index a b : nat) (s : string) :
  String.substring index (a + b) s
  = String.substring index a s +:+ String.substring (index + a) b s.
Proof.
  revert index a. induction s as [| c s IH]; intros index a.
  - destruct index, a, b; reflexivity.
  - destruct index as [| index].
    + destruct a as [| a]; simpl.
      * reflexivity.
      * rewrite (IH 0%nat a). reflexivity.
    + simpl. apply IH.
Qed.

Lemma substring_to_end (index m : nat) (s : string) :
  (String.length s - index <= m)%nat ->
  String.substring index m s = String.substring index (String.length s - index) s.
Proof.
  intros Hm.
  replace m with ((String.length s - index) + (m - (String.length s - index)))%nat
    by lia.
  rewrite substring_split.
  rewrite (substring_beyond (index + (String.length s - index))) by lia.
  apply string_app_nil_r.
Qed.

Lemma substring_whole (s : string) :
  String.substring 0 (String.length s) s = s.
Proof. induction s as [| c s IH]; simpl; [reflexivity | now rewrite IH]. Qed.

Lemma length_substring_general (index m : nat) (s : string) :
  (String.length (String.substring index m s) <= m)%nat.
Proof.
  revert index m. induction s as [| c s IH]; intros [| index] [| m]; simpl;
    try lia.
  - specialize (IH 0%nat m). lia.
  - apply (IH index 0%nat).
  - apply (IH index (S m)).
Qed.

Lemma length_substring_inside (index m : nat) (s : string) :
  (index < String.length s)%nat -> (1 <= m)%nat ->
  (1 <= String.length (String.substring index m s))%nat.
Proof.
  revert index m. induction s as [| c s IH]; intros [| index] [| m] Hin Hm;
    simpl in *; try lia.
  apply IH; lia.
Qed.

(** The rounds of the loop of [wrapBoxContent] partition what is left of
    the content from [index] on. *)
Lemma wrapLoop_spec (content : string) (maxWidth : nat) :
  (1 <= maxWidth)%nat ->
  forall (fuel index : nat),
    (String.length content - index <= fuel)%nat ->
    glue (wrapLoop fuel content maxWidth index)
    = String.substring index (String.length content - index) content
    /\ Forall (fun piece =>
                 (1 <= String.length piece <= maxWidth)%nat)
              (wrapLoop fuel content maxWidth index).
Proof.
  intros Hwidth. induction fuel as [| fuel IH]; intros index Hfuel; simpl.
  - replace (String.length content - index)%nat with 0%nat by lia.
    rewrite substring_zero_length. auto.
  - destruct (Nat.ltb_spec index (String.length content)) as [Hin | Hout].
    + destruct (IH (index + maxWidth)%nat) as [Hglue Hpieces]; [lia |].
      simpl. rewrite Hglue. split.
      * destruct (Nat.le_gt_cases maxWidth (String.length content - index))
          as [Hfits | Hlast].
        -- replace (String.length content - index)%nat
             with (maxWidth + (String.length content - (index + maxWidth)))%nat
             by lia.
           rewrite substring_split. reflexivity.
        -- replace (String.length content - (index + maxWidth))%nat with 0%nat
             by lia.
           rewrite substring_zero_length.
           rewrite (substring_to_end index maxWidth) by lia.
           apply string_app_nil_r.
      * constructor; [| exact Hpieces]. split.
        -- apply length_substring_inside; assumption.
        -- apply length_substring_general.
    + replace (String.length content - index)%nat with 0%nat by lia.
      rewrite substring_zero_length. auto.
Qed.

(** No piece of [wrapBoxContent] is longer than a positive width. *)
Lemma wrapBoxContent_fits (content : string) (maxWidth : Z) :
  0 < maxWidth ->
  Forall (fun piece => Js.strlen piece <= maxWidth)
         (wrapBoxContent content maxWidth).
Proof.
  intros Hwidth. unfold wrapBoxContent.
  destruct (Z.leb_spec maxWidth 0); [lia |].
  destruct (Z.eqb (Js.strlen content) 0).
  - repeat constructor. unfold Js.strlen. simpl. lia.
  - destruct (wrapLoop_spec content (Z.to_nat maxWidth) ltac:(lia)
                (String.length content) 0%nat ltac:(lia)) as [_ Hpieces].
    eapply Forall_impl; [exact Hpieces |]. simpl. intros piece [_ Hle].
    unfold Js.strlen. lia.
Qed.

(** X4. [wrapBoxContent] cuts the content into pieces without losing or
    adding a character: glued together the pieces are the content, none is
    longer than [maxWidth], and for a non-empty content none is empty.
    An empty content gives the single empty piece. *)
Theorem wrapBoxContent_partitions (content : string) (maxWidth : Z) :
  0 < maxWidth ->
  glue (wrapBoxContent content maxWidth) = content
  /\ Forall (fun piece => Js.strlen piece <= maxWidth)
            (wrapBoxContent content maxWidth)
  /\ (content <> "" ->
      Forall (fun piece => 1 <= Js.strlen piece) (wrapBoxContent content maxWidth))
  /\ (content = "" -> wrapBoxContent content maxWidth = [""]).
Proof.
  intros Hwidth. unfold wrapBoxContent.
  destruct (Z.leb_spec maxWidth 0); [lia |].
  destruct (Z.eqb_spec (Js.strlen content) 0) as [Hempty | Hnonempty].
  - assert (content = "") as ->
        by (destruct content; [reflexivity | unfold Js.strlen in Hempty; simpl in Hempty; lia]).
    split_and!; auto.
    + repeat constructor. unfold Js.strlen. simpl. lia.
    + congruence.
  - destruct (wrapLoop_spec content (Z.to_nat maxWidth) ltac:(lia)
                (String.length content) 0%nat ltac:(lia)) as [Hglue Hpieces].
    rewrite Nat.sub_0_r, substring_whole in Hglue.
    split_and!.
    + exact Hglue.
    + eapply Forall_impl; [exact Hpieces |]. simpl. intros piece [_ Hle].
      unfold Js.strlen. lia.
    + intros _. eapply Forall_impl; [exact Hpieces |]. simpl.
      intros piece [Hge _]. unfold Js.strlen. lia.
    + intros ->. unfold Js.strlen in Hnonempty. simpl in Hnonempty. lia.
Qed.


(** Seven characters in pieces of three. *)
Lemma wrapBoxContent_partitions_witness :
  glue (wrapBoxContent "abcdefg" 3) = "abcdefg".
Proof. apply (wrapBoxContent_partitions "abcdefg" 3). lia. Defined.

Lemma length_repeatChar (c : ascii) (n : nat) :
  String.length (repeatChar c n) = n.
Proof. induction n as [| n IH]; simpl; [reflexivity | now rewrite IH]. Qed.

Lemma strlen_padEnd (s : string) (n : Z) :
  Js.strlen s <= n -> Js.strlen (padEnd s n) = n.
Proof.
  intros Hs. unfold padEnd. rewrite strlen_app. unfold Js.strlen in *.
  rewrite length_repeatChar. lia.
Qed.

Lemma strlen_formatBoxLine (content : string) :
  Js.strlen (formatBoxLine content) = OUTPUT_BOX_WIDTH.
Proof.
  unfold formatBoxLine. rewrite !strlen_app, strlen_padEnd.
  - reflexivity.
  - destruct (Z.gtb_spec (Js.strlen content) (OUTPUT_BOX_WIDTH - 2)).
    + apply strlen_slice0. unfold OUTPUT_BOX_WIDTH. lia.
    + lia.
Qed.

(** A content that fits between the bars is printed whole. *)
Lemma formatBoxLine_fits (content : string) :
  Js.strlen content <= OUTPUT_BOX_WIDTH - 2 ->
  formatBoxLine content
  = "|" +:+ (content
             +:+ repeatChar " " (Z.to_nat (OUTPUT_BOX_WIDTH - 2 - Js.strlen content)))
        +:+ "|".
Proof.
  intros Hfits. unfold formatBoxLine, padEnd.
  destruct (Z.gtb_spec (Js.strlen content) (OUTPUT_BOX_WIDTH - 2)); [lia |].
  reflexivity.
Qed.

(** A piece of wrapped content is printed whole after its indentation. *)
Lemma wrapped_lines_whole (indent content : string) (maxWidth : Z) :
  0 < maxWidth ->
  Js.strlen indent + maxWidth <= OUTPUT_BOX_WIDTH - 2 ->
  map (fun piece => formatBoxLine (indent +:+ piece))
      (wrapBoxContent content maxWidth)
  = map (fun piece => wholeBoxLine (indent +:+ piece))
        (wrapBoxContent content maxWidth).
Proof.
  intros Hwidth Hroom.
  pose proof (wrapBoxContent_fits content maxWidth Hwidth) as Hfits.
  induction Hfits as [| piece pieces Hpiece _ IH]; [reflexivity |].
  simpl. rewrite IH. f_equal.
  apply formatBoxLine_fits. rewrite strlen_app. lia.
Qed.

(** The pieces of wrapped content, put end to end, are the content. *)
Lemma wrapBoxContent_glue (content : string) (maxWidth : Z) :
  0 < maxWidth -> glue (wrapBoxContent content maxWidth) = content.
Proof.
  intros Hwidth. unfold wrapBoxContent.
  destruct (Z.leb_spec maxWidth 0); [lia |].
  destruct (Z.eqb_spec (Js.strlen content) 0) as [Hempty | Hfull].
  - destruct content; [reflexivity |].
    unfold Js.strlen in Hempty. simpl in Hempty. lia.
  - destruct (wrapLoop_spec content (Z.to_nat maxWidth) ltac:(lia)
                (String.length content) 0%nat ltac:(lia)) as [Hall _].
    rewrite Nat.sub_0_r, substring_whole in Hall. exact Hall.
Qed.

(** X5. Every line [appendOutputBox] writes for a box is exactly
    [OUTPUT_BOX_WIDTH] characters wide, whatever the title, the headings
    and the contents, and the box closes with the border.  The lines
    written are: the border; one line for each piece of the wrapped title,
    showing the piece whole after one blank; the border; the lines of the
    sections in order; the border.  The pieces of the title put end to end
    are the title.  For every section of the box and every line of its
    trimmed content (or of [(empty)]), the heading line is among the lines
    written, every piece of the wrapped line is written whole after three
    blanks, and the pieces put end to end are the line with its tabs
    expanded. *)
Theorem outputBoxLines_have_box_width (box : OutputBox) :
  Forall (fun boxLine => Js.strlen boxLine = OUTPUT_BOX_WIDTH) (outputBoxLines box)
  /\ head (outputBoxLines box) = Some boxBorder
  /\ last (outputBoxLines box) = Some boxBorder
  /\ outputBoxLines box
     = (boxBorder
          :: map (fun piece => wholeBoxLine (" " +:+ piece))
                 (wrapBoxContent (title box) (OUTPUT_BOX_WIDTH - 4))
          ++ boxBorder
          :: flat_map sectionLines (sections box)
          ++ [boxBorder])%list
  /\ glue (wrapBoxContent (title box) (OUTPUT_BOX_WIDTH - 4)) = title box
  /\ (forall heading content bodyLine,
        (heading, content) ∈ sections box ->
        bodyLine ∈ splitLines (orElse (Js.trim content) "(empty)") ->
        formatBoxLine (" " +:+ heading +:+ ":") ∈ outputBoxLines box
        /\ glue (wrapBoxContent (expandTabs bodyLine) (OUTPUT_BOX_WIDTH - 6))
           = expandTabs bodyLine
        /\ forall piece,
             piece ∈ wrapBoxContent (expandTabs bodyLine) (OUTPUT_BOX_WIDTH - 6) ->
             wholeBoxLine ("   " +:+ piece) ∈ outputBoxLines box).
Proof.
  split_and!.
  - unfold outputBoxLines.
    apply Forall_cons. split; [reflexivity |].
    apply Forall_app. split.
    { apply Forall_fmap, Forall_true. intros piece. apply strlen_formatBoxLine. }
    apply Forall_cons. split; [reflexivity |].
    apply Forall_app. split; [| repeat constructor].
    apply Forall_flat_map, Forall_true. intros [heading content].
    unfold sectionLines. apply Forall_cons.
    split; [apply strlen_formatBoxLine |].
    apply Forall_app. split; [| repeat constructor; apply strlen_formatBoxLine].
    apply Forall_flat_map, Forall_true. intros bodyLine.
    apply Forall_fmap, Forall_true. intros piece. apply strlen_formatBoxLine.
  - reflexivity.
  - unfold outputBoxLines.
    rewrite app_comm_cons, !app_assoc. apply last_snoc.
  - unfold outputBoxLines.
    rewrite (wrapped_lines_whole " " (title box) (OUTPUT_BOX_WIDTH - 4))
      by (unfold OUTPUT_BOX_WIDTH, Js.strlen; simpl; lia).
    reflexivity.
  - apply wrapBoxContent_glue. unfold OUTPUT_BOX_WIDTH. lia.
  - intros heading content bodyLine Hsection Hbody.
    assert (Hlines : forall boxLine,
               boxLine ∈ sectionLines (heading, content) ->
               boxLine ∈ outputBoxLines box).
    { intros boxLine Hin. unfold outputBoxLines.
      apply list_elem_of_further, elem_of_app. right.
      apply list_elem_of_further, elem_of_app. left.
      apply list_elem_of_In, in_flat_map. exists (heading, content).
      split; apply list_elem_of_In; assumption. }
    split; [| split].
    + apply Hlines. unfold sectionLines. apply list_elem_of_here.
    + apply wrapBoxContent_glue. unfold OUTPUT_BOX_WIDTH. lia.
    + intros piece Hpiece. apply Hlines. unfold sectionLines.
      apply list_elem_of_further, elem_of_app. left.
      apply list_elem_of_In, in_flat_map. exists bodyLine.
      split; [apply list_elem_of_In, Hbody |].
      rewrite (wrapped_lines_whole "   " (expandTabs bodyLine)
                                   (OUTPUT_BOX_WIDTH - 6))
        by (unfold OUTPUT_BOX_WIDTH, Js.strlen; simpl; lia).
      apply (in_map (fun p => wholeBoxLine ("   " +:+ p))), list_elem_of_In, Hpiece.
Qed.

(** A box with one section: the line of the section's text is written. *)
Lemma outputBoxLines_have_box_width_witness :
  wholeBoxLine ("   " +:+ "hello")
  ∈ outputBoxLines (mkOutputBox "abc" [("stdout", "hello")]).
Proof.
  destruct (outputBoxLines_have_box_width
              (mkOutputBox "abc" [("stdout", "hello")]))
    as (_ & _ & _ & _ & _ & Hsection).
  destruct (Hsection "stdout" "hello" "hello") as (_ & _ & Hpieces).
  - apply list_elem_of_lookup. exists 0%nat. reflexivity.
  - apply list_elem_of_lookup. exists 0%nat. reflexivity.
  - apply (Hpieces "hello"). apply list_elem_of_lookup. exists 0%nat. reflexivity.
Defined.

(* ===================================================================== *)
(** ** Properties of shell quoting and of the run commands *)
(* ===================================================================== *)

Lemma apostrophe_of_code (c : ascii) :
  Nat.eqb (nat_of_ascii c) 39 = true -> c = "'"%char.
Proof.
  intros H. apply Nat.eqb_eq in H.
  rewrite <- (ascii_nat_embedding c), H. reflexivity.
Qed.

(** Inside quotes the shell reads an escaped value up to the closing quote
    and has then added exactly the value to the current word. *)
Lemma shellWordsFrom_escaped (value rest : string) :
  forall (current : string) (words : list string),
    shellWordsFrom (escapeApostrophes value +:+ (apostrophe +:+ rest)) true
                   (Some current) words
    = shellWordsFrom rest false (Some (current +:+ value)) words.
Proof.
  induction value as [| c value IH]; intros current words.
  - simpl. rewrite string_app_nil_r. reflexivity.
  - simpl escapeApostrophes.
    destruct (Nat.eqb (nat_of_ascii c) 39) eqn:Hquote.
    + apply apostrophe_of_code in Hquote as ->.
      change (shellWordsFrom
                (escapeApostrophes value +:+ (apostrophe +:+ rest)) true
                (Some (current +:+ "'")) words
              = shellWordsFrom rest false (Some (current +:+ String "'" value)) words).
      rewrite IH, string_app_assoc. reflexivity.
    + change (shellWordsFrom
                (String c (escapeApostrophes value +:+ (apostrophe +:+ rest))) true
                (Some current) words
              = shellWordsFrom rest false (Some (current +:+ String c value)) words).
      simpl shellWordsFrom. rewrite Hquote.
      unfold pushChar. simpl default. rewrite IH, string_app_assoc. reflexivity.
Qed.

(** X6. What [quoteForPosixShell] produces is, for the shell, one word:
    the value itself, whatever characters it contains.  After any words
    already read and any start of a word, the quoted value extends that
    word by the value and ends the line. *)
Theorem quoteForPosixShell_round_trip (value : string) :
  shellWords (quoteForPosixShell value) = Some [value]
  /\ (forall (current : option string) (words : list string),
        shellWordsFrom (quoteForPosixShell value) false current words
        = Some (words ++ [default "" current +:+ value])%list).
Proof.
  assert (Hgen : forall (current : option string) (words : list string),
             shellWordsFrom (quoteForPosixShell value) false current words
             = Some (words ++ [default "" current +:+ value])%list).
  { intros current words. unfold quoteForPosixShell.
    change (shellWordsFrom
              (escapeApostrophes value +:+ (apostrophe +:+ "")) true
              (Some (default "" current)) words
            = Some (words ++ [default "" current +:+ value])%list).
    rewrite shellWordsFrom_escaped. reflexivity. }
  split; [apply (Hgen None []) | exact Hgen].
Qed.

(** X7. Started directly, behind [wsl --exec] or through [bash -lc], a
    run command spells out the same argument vector for the tool, with the
    prompt as its last argument, unchanged whatever characters it
    contains: these codex routes of a binary and a variant all amount to
    [binary :: runArgs variant prompt], and these claude routes of a binary
    to [binary; "-p"; prompt] or, for the [--print] route,
    [binary; "--print"; prompt].  For the routes through [bash -lc] this is
    what the shell's quoting rules make of the command line.  The remaining
    routes, whose id starts with [wsl:], run [wsl bash -lc] with the very
    line of the [bash -lc] route of the same family; there the default
    shell of the distribution reads the arguments first, and nothing is
    stated about what reaches the tool. *)
Theorem transports_deliver_the_same_argv (prompt : string) :
  Forall (fun binary =>
            Forall (fun variant =>
                      Forall (fun route =>
                                if Js.startsWith (id route) "wsl:"
                                then toolArgv (buildRun route prompt) = None
                                     /\ buildRun route prompt
                                        = {| command := "wsl";
                                             args := ["bash"; "-lc";
                                                      runShell variant prompt] |}
                                     /\ {| command := "bash";
                                           args := ["-lc"; runShell variant prompt] |}
                                        ∈ map (fun other => buildRun other prompt)
                                              (codexRoutesFor binary variant)
                                else toolArgv (buildRun route prompt)
                                     = Some (binary :: runArgs variant prompt))
                             (codexRoutesFor binary variant))
                   (codexVariants binary))
         codexBinaries
  /\ Forall (fun binary =>
               Forall (fun route =>
                         if Js.startsWith (id route) "wsl:"
                         then toolArgv (buildRun route prompt) = None
                              /\ exists commandLine,
                                   buildRun route prompt
                                   = {| command := "wsl";
                                        args := ["bash"; "-lc"; commandLine] |}
                                   /\ {| command := "bash";
                                         args := ["-lc"; commandLine] |}
                                      ∈ map (fun other => buildRun other prompt)
                                            (claudeRoutesFor binary)
                         else toolArgv (buildRun route prompt)
                              = Some [binary;
                                      if usesLongSpelling route
                                      then "--print" else "-p";
                                      prompt])
                      (claudeRoutesFor binary))
            claudeBinaries.
Proof.
  split;
    repeat (apply List.Forall_cons || apply List.Forall_nil);
    try reflexivity;
    match goal with
    | |- if Js.startsWith ?routeId "wsl:" then _ else _ =>
        let isWsl := eval vm_compute in (Js.startsWith routeId "wsl:") in
        change (Js.startsWith routeId "wsl:") with isWsl; cbv iota
    end;
    try reflexivity;
    try (split; [reflexivity |];
         try (eexists; split; [reflexivity |]);
         try (split; [reflexivity |]);
         apply list_elem_of_lookup;
         first [ exists 1%nat; reflexivity | exists 2%nat; reflexivity ]);
    unfold toolArgv, shellWords; simpl;
    match goal with
    | |- shellWordsFrom _ true (Some ?current) ?words = _ =>
        transitivity (shellWordsFrom "" false (Some (current +:+ prompt)) words);
        [apply (shellWordsFrom_escaped prompt "" current words) | reflexivity]
    end.
Qed.

Lemma filter_other_ids_all (routes : list CliRoute) (pid : string) :
  pid ∉ map id routes ->
  filter (fun route => negb (String.eqb (id route) pid)) routes = routes.
Proof.
  induction routes as [| r routes IH]; intros Hfresh; [reflexivity |].
  rewrite filter_cons. simpl in Hfresh. apply not_elem_of_cons in Hfresh as [Hne Hfresh].
  destruct (String.eqb_spec (id r) pid) as [Hid | Hid]; [congruence |].
  destruct (decide _) as [_ | Hdrop]; [| destruct Hdrop; exact I].
  rewrite IH by assumption. reflexivity.
Qed.

(** Moving the preferred route to the front neither loses nor repeats a
    route when ids are unique. *)
Lemma orderRoutesWithPreferred_Permutation (routes : list CliRoute)
      (preferredId : option string) :
  NoDup (map id routes) ->
  orderRoutesWithPreferred routes preferredId ≡ₚ routes.
Proof.
  intros Hnd. unfold orderRoutesWithPreferred.
  destruct preferredId as [pid |]; [| reflexivity].
  destruct (String.eqb pid ""); [reflexivity |].
  destruct (find (fun route => String.eqb (id route) pid) routes)
    as [preferred |] eqn:Hfind; [| reflexivity].
  revert Hnd Hfind. induction routes as [| r routes IH]; intros Hnd Hfind.
  - discriminate.
  - simpl in Hfind. simpl in Hnd. apply NoDup_cons in Hnd as [Hfresh Hnd].
    rewrite filter_cons.
    destruct (String.eqb_spec (id r) pid) as [Hid | Hid].
    + injection Hfind as <-.
      destruct (decide _) as [Hkeep | _]; [destruct Hkeep |].
      rewrite filter_other_ids_all by (rewrite <- Hid; exact Hfresh).
      reflexivity.
    + destruct (decide _) as [_ | Hdrop]; [| destruct Hdrop; exact I].
      rewrite Permutation_swap. f_equiv. apply IH; assumption.
Qed.

(** X8. Neither discovery nor the run loop loses or repeats a candidate:
    the order [discoverCliRoute] probes in and the order the loop of
    [runCliFix] iterates over are permutations of the candidate list,
    whatever is persisted and whatever the base route is. *)
Theorem orders_are_permutations_of_candidates {W} (st : State W)
        (fixerId : CliFixerId) (baseRoute : CliRoute) :
  discoveryOrder st fixerId ≡ₚ getCliRouteCandidates (configuration st) fixerId
  /\ runOrder st fixerId baseRoute
     ≡ₚ getCliRouteCandidates (configuration st) fixerId.
Proof.
  split; apply orderRoutesWithPreferred_Permutation, candidate_ids_NoDup.
Qed.

(* ===================================================================== *)
(** ** The executor as a function of the events *)
(* ===================================================================== *)

Lemma substring_prefix_idem (n : nat) (a b : string) :
  String.substring 0 n (String.substring 0 n a +:+ b)
  = String.substring 0 n (a +:+ b).
Proof.
  revert a. induction n as [| n IH]; intros [| c a].
  - rewrite !substring_zero_length. reflexivity.
  - rewrite !substring_zero_length. reflexivity.
  - reflexivity.
  - change (String c (String.substring 0 n (String.substring 0 n a +:+ b))
            = String c (String.substring 0 n (a +:+ b))).
    now rewrite IH.
Qed.

(** Appending to a capture that is the bounded prefix of what came so far
    gives the bounded prefix of what came so far including the chunk. *)
Lemma appendOutput_slice0 (received chunk : string) :
  appendOutput (Js.slice0 received MAX_PROCESS_OUTPUT_CHARS) chunk
  = Js.slice0 (received +:+ chunk) MAX_PROCESS_OUTPUT_CHARS.
Proof.
  rewrite appendOutput_is_prefix
    by (apply strlen_slice0; unfold MAX_PROCESS_OUTPUT_CHARS; lia).
  unfold Js.slice0. apply substring_prefix_idem.
Qed.

Lemma glue_app (l1 l2 : list string) : glue (l1 ++ l2) = glue l1 +:+ glue l2.
Proof.
  induction l1 as [| s l1 IH]; [reflexivity |].
  change (s +:+ glue (l1 ++ l2) = (s +:+ glue l1) +:+ glue l2).
  rewrite IH, string_app_assoc. reflexivity.
Qed.

Lemma stdoutOf_snoc (events : list ChildEvent) (ev : ChildEvent) :
  stdoutOf (events ++ [ev])
  = stdoutOf events +:+ match ev with StdoutData chunk => chunk | _ => "" end.
Proof.
  unfold stdoutOf. rewrite omap_app, glue_app.
  destruct ev; simpl; rewrite ?string_app_nil_r; reflexivity.
Qed.

Lemma stderrOf_snoc (events : list ChildEvent) (ev : ChildEvent) :
  stderrOf (events ++ [ev])
  = stderrOf events +:+ match ev with StderrData chunk => chunk | _ => "" end.
Proof.
  unfold stderrOf. rewrite omap_app, glue_app.
  destruct ev; simpl; rewrite ?string_app_nil_r; reflexivity.
Qed.

(** While neither ['error'] nor ['close'] has come, the bindings of
    [runCommand] hold the bounded prefixes of both streams and whether the
    timer fired; the promise is pending. *)
Lemma pending_locals (before : list ChildEvent) :
  existsb isFinal before = false ->
  fold_left onEvent before initialLocals
  = {| l_stdout := Js.slice0 (stdoutOf before) MAX_PROCESS_OUTPUT_CHARS;
       l_stderr := Js.slice0 (stderrOf before) MAX_PROCESS_OUTPUT_CHARS;
       l_timedOut := existsb isTimer before;
       l_errorCode := None;
       l_timerCleared := false;
       l_resolved := None |}.
Proof.
  induction before as [| ev before IH] using rev_ind; intros Hpending.
  - reflexivity.
  - rewrite existsb_app in Hpending. apply orb_false_iff in Hpending as [Hb Hev].
    rewrite fold_left_app, (IH Hb). simpl.
    rewrite stdoutOf_snoc, stderrOf_snoc, existsb_app. simpl.
    destruct ev; simpl in *; try discriminate;
      rewrite ?appendOutput_slice0, ?string_app_nil_r, ?orb_false_r, ?orb_true_r;
      reflexivity.
Qed.

(** The first ['error'] or ['close'] settles the promise; what is
    delivered afterwards is ignored. *)
Lemma settle_decided (before after : list ChildEvent) (final : ChildEvent) :
  settle (Spawned (before ++ final :: after))
  = match l_resolved (onEvent (fold_left onEvent before initialLocals) final) with
    | Some result => Some result
    | None =>
        l_resolved
          (fold_left onEvent after
                     (onEvent (fold_left onEvent before initialLocals) final))
    end.
Proof.
  simpl. rewrite fold_left_app. simpl.
  destruct (l_resolved (onEvent (fold_left onEvent before initialLocals) final))
    as [result |] eqn:Hresolved; [| reflexivity].
  apply resolved_is_final, Hresolved.
Qed.





(** X9. After a successful spawn the result of [runCommand] is decided by
    the first ['error'] or ['close'] and by what came before it; nothing
    delivered afterwards changes it.  Each stream in the result is the
    first [MAX_PROCESS_OUTPUT_CHARS] characters of everything the child
    wrote to it until then (followed, for stderr on ['error'], by the
    message of the error); a ['close'] reports the exit code it carries and
    is timed out exactly when the timer fired before it. *)
Theorem runCommand_result_from_events
        (before after : list ChildEvent) (final : ChildEvent) :
  existsb isFinal before = false ->
  isFinal final = true ->
  settle (Spawned (before ++ final :: after)) = Some (resultOf before final).
Proof.
  intros Hbefore Hfinal.
  rewrite settle_decided, (pending_locals before Hbefore).
  destruct final; try discriminate; unfold finalize; simpl;
    rewrite ?appendOutput_slice0; reflexivity.
Qed.

(** Output, then the timer, then a close with code 143; more output after
    the close is ignored. *)
Lemma runCommand_result_from_events_witness :
  settle (Spawned ([StdoutData "partial "; StdoutData "answer"; TimerFired]
                     ++ CloseEvent (Some 143) :: [StdoutData "late"]))
  = Some {| exitCode := Some 143; stdout := "partial answer"; stderr := "";
            timedOut := true; errorCode := None |}.
Proof.
  rewrite (runCommand_result_from_events
             [StdoutData "partial "; StdoutData "answer"; TimerFired]
             [StdoutData "late"] (CloseEvent (Some 143)));
    reflexivity.
Defined.

(* ===================================================================== *)
(** ** Further properties of the prober, the resolver and the runner *)
(* ===================================================================== *)

Section EngineFurther.

Context {W : Type} `{!Host W}.

Lemma newEffects_trans (st st1 st2 : State W) (e1 e2 : list Effect) :
  advances st st1 e1 -> advances st1 st2 e2 ->
  newEffects st st2 = (newEffects st st1 ++ newEffects st1 st2)%list.
Proof.
  intros H1 H2.
  rewrite (newEffects_advances _ _ _ H1), (newEffects_advances _ _ _ H2).
  apply newEffects_advances. eapply advances_trans; eassumption.
Qed.

Lemma probeCacheGrows_refl (st : State W) : probeCacheGrows st st.
Proof. intros key answer H. exact H. Qed.

Lemma probeCacheGrows_trans (st st1 st2 : State W) :
  probeCacheGrows st st1 -> probeCacheGrows st1 st2 -> probeCacheGrows st st2.
Proof. intros H1 H2 key answer H. apply H2, H1, H. Qed.

Lemma probeCacheGrows_same (st st1 : State W) :
  cliProbeCache st1 = cliProbeCache st -> probeCacheGrows st st1.
Proof. intros Heq key answer H. rewrite Heq. exact H. Qed.

Lemma commandOfRoutes_mono (routes routes' : list CliRoute) (cliPrompt : string)
      (specs : list CommandSpec) :
  (forall route, route ∈ routes -> route ∈ routes') ->
  Forall (commandOfRoutes routes cliPrompt) specs ->
  Forall (commandOfRoutes routes' cliPrompt) specs.
Proof.
  intros Hsub Hall. eapply Forall_impl; [exact Hall |].
  intros spec (route & Hin & Hspec). exists route. auto.
Qed.

Lemma spawnedCommands_app (e1 e2 : list Effect) :
  spawnedCommands (e1 ++ e2) = (spawnedCommands e1 ++ spawnedCommands e2)%list.
Proof. apply omap_app. Qed.

Lemma runCommand_frame (spec : CommandSpec) (cwd : string) (timeoutMs : Z)
      (st st1 : State W) (result : ProcessResult) :
  runCommand spec cwd timeoutMs st = Some (result, st1) ->
  OUTPUT st1 = OUTPUT st
  /\ newEffects st st1 = [Spawn spec cwd timeoutMs result].
Proof.
  intros Hrun. split.
  - unfold runCommand in Hrun.
    destruct (spawn (host st) spec cwd timeoutMs) as [outcome w].
    destruct (settle outcome); [| discriminate]. injection Hrun as _ <-. reflexivity.
  - apply runCommand_spec in Hrun as (Hadv & _). apply newEffects_advances, Hadv.
Qed.

Lemma setCachedCliRoute_frame (fixerId : CliFixerId) (route : option CliRoute)
      (st st1 : State W) (u : unit) :
  setCachedCliRoute fixerId route st = Some (u, st1) ->
  OUTPUT st1 = OUTPUT st /\ newEffects st st1 = [].
Proof.
  intros Hset. split.
  - unfold setCachedCliRoute, bind, modifyState, getState, ret in Hset.
    simpl in Hset. destruct (extensionContextRef st); injection Hset as _ <-;
      reflexivity.
  - apply setCachedCliRoute_spec in Hset as (Hadv & _).
    apply newEffects_advances, Hadv.
Qed.

Lemma appendOutputBox_frame (title : string) (sections : list (string * string))
      (st st1 : State W) (u : unit) :
  appendOutputBox title sections st = Some (u, st1) ->
  OUTPUT st1 = (OUTPUT st ++ [mkOutputBox title sections])%list
  /\ cliProbeCache st1 = cliProbeCache st
  /\ newEffects st st1 = [].
Proof.
  intros Hbox. split_and!.
  - unfold appendOutputBox, modifyState in Hbox. injection Hbox as _ <-. reflexivity.
  - unfold appendOutputBox, modifyState in Hbox. injection Hbox as _ <-. reflexivity.
  - apply appendOutputBox_spec in Hbox as (Hadv & _).
    apply newEffects_advances, Hadv.
Qed.

(** What a probe leaves: its answer under its key, the older answers, no
    report; it spawns nothing when the key was known and otherwise the
    probe command, once, whose success is the answer. *)
Lemma probeRoute_frame (route : CliRoute) (cwd : string) (st st1 : State W)
      (ok : bool) :
  probeRoute route cwd st = Some (ok, st1) ->
  cliProbeCache st1 !! probeKey route cwd = Some ok
  /\ probeCacheGrows st st1
  /\ OUTPUT st1 = OUTPUT st
  /\ (cliProbeCache st !! probeKey route cwd = Some ok /\ st1 = st
      \/ cliProbeCache st !! probeKey route cwd = None
         /\ exists result,
             newEffects st st1
             = [Spawn (probe route) cwd CLI_PROBE_TIMEOUT_MS result]
             /\ ok = isProcessSuccess result).
Proof.
  unfold probeRoute. intros Hprobe.
  apply bind_Some in Hprobe as (st' & st0 & [= <- <-] & Hprobe).
  destruct (cliProbeCache st !! probeKey route cwd) as [cached |] eqn:Hcached.
  - injection Hprobe as <- <-.
    split_and!; auto using probeCacheGrows_refl.
  - apply bind_Some in Hprobe as (result & st2 & Hrun & Hprobe).
    apply bind_Some in Hprobe as (u & st3 & [= _ <-] & [= <- <-]).
    pose proof (runCommand_frame _ _ _ _ _ _ Hrun) as [Hout Hnew].
    apply runCommand_spec in Hrun as (_ & _ & Hcache).
    split_and!; cbn [cliProbeCache withProbeCache OUTPUT].
    + apply lookup_insert_eq.
    + intros key answer Hkey. cbn [cliProbeCache withProbeCache]. rewrite Hcache.
      rewrite lookup_insert_ne; [exact Hkey |].
      intros <-. rewrite Hcached in Hkey. discriminate.
    + exact Hout.
    + right. split; [reflexivity |]. exists result. split; [| reflexivity].
      unfold newEffects in *. simpl. exact Hnew.
Qed.

Lemma probeRoute_commands (route : CliRoute) (cwd cliPrompt : string)
      (st st1 : State W) (ok : bool) :
  probeRoute route cwd st = Some (ok, st1) ->
  Forall (commandOfRoutes [route] cliPrompt) (spawnedCommands (newEffects st st1)).
Proof.
  intros Hprobe.
  destruct (probeRoute_frame _ _ _ _ _ Hprobe)
    as (_ & _ & _ & [[_ ->] | (_ & result & -> & _)]).
  - unfold newEffects. rewrite drop_all. constructor.
  - repeat constructor. exists route. split; [apply list_elem_of_here | auto].
Qed.

(** Discovery returns the first route of its list whose probe answers
    [true]: the answers of the routes before it are [false], and when it
    returns [null] the answers of all routes are [false]. *)
Lemma discoverLoop_frame (fixerId : CliFixerId) (cwd cliPrompt : string)
      (routes : list CliRoute) :
  forall (st st1 : State W) (found : option CliRoute),
    discoverLoop fixerId cwd routes st = Some (found, st1) ->
    probeCacheGrows st st1
    /\ OUTPUT st1 = OUTPUT st
    /\ Forall (commandOfRoutes routes cliPrompt)
              (spawnedCommands (newEffects st st1))
    /\ match found with
       | Some route =>
           exists before after,
             routes = (before ++ route :: after)%list
             /\ cliProbeCache st1 !! probeKey route cwd = Some true
             /\ Forall (fun r => cliProbeCache st1 !! probeKey r cwd = Some false)
                       before
       | None =>
           Forall (fun r => cliProbeCache st1 !! probeKey r cwd = Some false) routes
       end.
Proof.
  induction routes as [| route rest IH]; intros st st1 found Hloop; simpl in Hloop.
  - apply bind_Some in Hloop as (u & st0 & Hset & [= <- <-]).
    pose proof (setCachedCliRoute_frame _ _ _ _ _ Hset) as [Hout Hnew].
    apply setCachedCliRoute_spec in Hset as (_ & _ & _ & Hcache).
    rewrite Hnew. split_and!; auto using probeCacheGrows_same.
  - apply bind_Some in Hloop as (ok & st0 & Hprobe & Hloop).
    pose proof (probeRoute_frame _ _ _ _ _ Hprobe) as (Hanswer & Hgrow0 & Hout0 & _).
    pose proof (probeRoute_commands _ _ cliPrompt _ _ _ Hprobe) as Hcmd0.
    pose proof Hprobe as Hadv0.
    apply probeRoute_spec in Hadv0 as (e0 & Hadv0 & _).
    assert (Hhere : forall specs,
               Forall (commandOfRoutes [route] cliPrompt) specs ->
               Forall (commandOfRoutes (route :: rest) cliPrompt) specs).
    { intros specs. apply commandOfRoutes_mono. intros r Hr.
      apply list_elem_of_singleton in Hr as ->. apply list_elem_of_here. }
    destruct ok.
    + apply bind_Some in Hloop as (u & st2 & Hset & [= <- <-]).
      pose proof (setCachedCliRoute_frame _ _ _ _ _ Hset) as [Hout Hnew].
      pose proof Hset as Hadv.
      apply setCachedCliRoute_spec in Hadv as (Hadv & _ & _ & Hcache).
      split_and!.
      * eapply probeCacheGrows_trans; [exact Hgrow0 |].
        apply probeCacheGrows_same, Hcache.
      * congruence.
      * rewrite (newEffects_trans _ _ _ _ _ Hadv0 Hadv), Hnew, app_nil_r.
        apply Hhere, Hcmd0.
      * exists [], rest. split_and!; auto. rewrite Hcache. exact Hanswer.
    + pose proof Hloop as Hadv.
      apply discoverLoop_spec in Hadv as (new & Hadv & _).
      apply IH in Hloop as (Hgrow & Hout & Hcmd & Hfound).
      split_and!.
      * eapply probeCacheGrows_trans; eassumption.
      * congruence.
      * rewrite (newEffects_trans _ _ _ _ _ Hadv0 Hadv), spawnedCommands_app.
        apply Forall_app. split; [apply Hhere, Hcmd0 |].
        eapply commandOfRoutes_mono; [| exact Hcmd].
        intros r Hr. apply list_elem_of_further, Hr.
      * destruct found as [r |].
        -- destruct Hfound as (before & after & -> & Htrue & Hfalse).
           exists (route :: before), after.
           split_and!; [reflexivity | exact Htrue |].
           constructor; [apply Hgrow, Hanswer | exact Hfalse].
        -- constructor; [apply Hgrow, Hanswer | exact Hfound].
Qed.

Lemma newEffects_same (st : State W) : newEffects st st = [].
Proof. unfold newEffects. apply drop_all. Qed.

(** Resolving a kind never forgets a probe answer, writes no report and
    spawns only probes of candidates of the kind. *)
Lemma getCliRoute_frame (fixerId : CliFixerId) (forceRefresh : bool)
      (cliPrompt : string) (st st1 : State W) (found : option CliRoute) :
  getCliRoute fixerId forceRefresh st = Some (found, st1) ->
  probeCacheGrows st st1
  /\ OUTPUT st1 = OUTPUT st
  /\ Forall (commandOfRoutes (getCliRouteCandidates (configuration st) fixerId)
                             cliPrompt)
            (spawnedCommands (newEffects st st1)).
Proof.
  assert (Hdiscover : forall st0 st2 found0,
             discoverCliRoute fixerId st0 = Some (found0, st2) ->
             probeCacheGrows st0 st2
             /\ OUTPUT st2 = OUTPUT st0
             /\ Forall (commandOfRoutes
                          (getCliRouteCandidates (configuration st0) fixerId)
                          cliPrompt)
                       (spawnedCommands (newEffects st0 st2))).
  { intros st0 st2 found0 Hrun.
    apply (discoverLoop_frame fixerId _ cliPrompt) in Hrun
      as (Hgrow & Hout & Hcmd & _).
    split_and!; auto.
    eapply commandOfRoutes_mono; [| exact Hcmd].
    intros route. apply orderRoutesWithPreferred_subset. }
  unfold getCliRoute. intros Hget.
  apply bind_Some in Hget as (st' & st0 & [= <- <-] & Hget).
  destruct (if forceRefresh then None else cliRouteCache st !! fixerKey fixerId)
    as [[cached |] |].
  - destruct (isRouteAvailable (configuration st) fixerId (id cached)).
    + injection Hget as <- <-. rewrite newEffects_same.
      split_and!; auto using probeCacheGrows_refl.
    + apply bind_Some in Hget as (u & st2 & Hset & Hget).
      pose proof (setCachedCliRoute_frame _ _ _ _ _ Hset) as [Hout0 Hnew0].
      apply setCachedCliRoute_spec in Hset as (Hadv0 & _ & _ & Hcache0).
      pose proof Hget as Hadv.
      apply discoverCliRoute_spec in Hadv as (new & Hadv & _).
      apply Hdiscover in Hget as (Hgrow & Hout & Hcmd).
      split_and!.
      * eapply probeCacheGrows_trans; [apply probeCacheGrows_same, Hcache0 |].
        exact Hgrow.
      * congruence.
      * rewrite (newEffects_trans _ _ _ _ _ Hadv0 Hadv), Hnew0.
        destruct Hadv0 as (_ & <- & _). exact Hcmd.
  - injection Hget as <- <-. rewrite newEffects_same.
    split_and!; auto using probeCacheGrows_refl.
  - eapply Hdiscover, Hget.
Qed.

Lemma probeUnlessBase_frame (baseId cwd cliPrompt : string) (route : CliRoute)
      (st st1 : State W) (ok : bool) :
  probeUnlessBase baseId cwd route st = Some (ok, st1) ->
  probeCacheGrows st st1
  /\ OUTPUT st1 = OUTPUT st
  /\ Forall (commandOfRoutes [route] cliPrompt)
            (spawnedCommands (newEffects st st1)).
Proof.
  unfold probeUnlessBase. destruct (negb (String.eqb (id route) baseId)).
  - intros Hprobe.
    pose proof (probeRoute_commands _ _ cliPrompt _ _ _ Hprobe) as Hcmd.
    apply probeRoute_frame in Hprobe as (_ & Hgrow & Hout & _). auto.
  - intros [= _ <-]. rewrite newEffects_same.
    split_and!; auto using probeCacheGrows_refl.
Qed.

Lemma isSoftRun_sandbox (result : ProcessResult) :
  isReadOnlySandboxNotice result = true -> isSoftRun result = true.
Proof. intros H0. unfold isSoftRun, classifyRun. rewrite H0. reflexivity. Qed.

Lemma classifyRun_cases (result : ProcessResult) :
  classifyRun result
  = if isReadOnlySandboxNotice result then SandboxNotice
    else if isProcessSuccess result then Success
    else if isInvocationFailure result then InvocationFailure
    else HardFailure.
Proof.
  unfold classifyRun. destruct (isReadOnlySandboxNotice result); [reflexivity |].
  destruct (isProcessSuccess result); [reflexivity |].
  destruct (isInvocationFailure result); reflexivity.
Qed.

(** One pass over the candidates, seen from outside: the processes it
    spawns, the runs it makes and the report it writes. *)
Lemma runLoop_frame (fixerId : CliFixerId) (baseId cwd cliPrompt : string)
      (routes : list CliRoute) :
  forall (failures : list string) (saw : bool) (st st1 : State W)
         (exit : LoopExit),
    runLoop fixerId baseId cwd cliPrompt routes failures saw st
    = Some (exit, st1) ->
    exists new,
      advances st st1 new
      /\ probeCacheGrows st st1
      /\ Forall (commandOfRoutes routes cliPrompt) (spawnedCommands new)
      /\ match exit with
         | Returned =>
             exists route result earlier,
               route ∈ routes
               /\ runResults new = (earlier ++ [result])%list
               /\ Forall (fun r => isSoftRun r = true) earlier
               /\ isSuccessRun result = true
               /\ last new
                  = Some (Spawn (buildRun route cliPrompt) cwd
                                CLI_RUN_TIMEOUT_MS result)
               /\ OUTPUT st1
                  = (OUTPUT st
                       ++ [successBox fixerId route cliPrompt result])%list
               /\ verdict st1 fixerId = KnownGood route
         | Fell failures' saw' =>
             OUTPUT st1 = OUTPUT st
             /\ (exists added,
                   failures' = (failures ++ added)%list
                   /\ length added = length (runResults new))
             /\ (Forall (fun r => isSoftRun r = true) (runResults new)
                 \/ exists earlier hard,
                      runResults new = (earlier ++ [hard])%list
                      /\ Forall (fun r => isSoftRun r = true) earlier
                      /\ isHardRun hard = true
                      /\ saw' = false)
         end.
Proof.
  induction routes as [| route rest IH]; intros failures saw st st1 exit Hloop.
  - injection Hloop as <- <-. exists [].
    split; [apply advances_refl |]. split; [apply probeCacheGrows_refl |].
    split; [constructor |]. split; [reflexivity |].
    split; [exists []; rewrite app_nil_r; auto | left; constructor].
  - simpl in Hloop.
    apply bind_Some in Hloop as (probeOk & st0 & Hpass & Hloop).
    pose proof (probeUnlessBase_frame baseId cwd cliPrompt route _ _ _ Hpass)
      as (Hgrow0 & Hout0 & Hcmd0).
    apply (probeUnlessBase_spec baseId cwd route) in Hpass
      as (e0 & Hadv0 & Hruns0 & _).
    rewrite (newEffects_advances _ _ _ Hadv0) in Hcmd0.
    assert (Hhere : forall specs,
               Forall (commandOfRoutes [route] cliPrompt) specs ->
               Forall (commandOfRoutes (route :: rest) cliPrompt) specs).
    { intros specs. apply commandOfRoutes_mono. intros r Hr.
      apply list_elem_of_singleton in Hr as ->. apply list_elem_of_here. }
    assert (Hthere : forall specs,
               Forall (commandOfRoutes rest cliPrompt) specs ->
               Forall (commandOfRoutes (route :: rest) cliPrompt) specs).
    { intros specs. apply commandOfRoutes_mono. intros r Hr.
      apply list_elem_of_further, Hr. }
    destruct probeOk; simpl in Hloop.
    2:{ apply IH in Hloop as (new & Hadv & Hgrow & Hcmd & Hexit).
        exists (e0 ++ new)%list.
        split_and!.
        - eapply advances_trans; eassumption.
        - eapply probeCacheGrows_trans; eassumption.
        - rewrite spawnedCommands_app. apply Forall_app. auto.
        - rewrite runResults_app, Hruns0. simpl.
          destruct exit as [| failures' saw'].
          + destruct Hexit
              as (r & result & earlier & Hin & Hruns & Hsoft & Hsucc & Hlast & Hout
                  & Hverdict).
            exists r, result, earlier.
            split_and!; auto.
            * apply list_elem_of_further, Hin.
            * rewrite last_app, Hlast. reflexivity.
            * rewrite Hout, Hout0. reflexivity.
          + destruct Hexit as (Hout & Hadded & Hshape).
            split_and!; auto. congruence. }
    apply bind_Some in Hloop as (result & st2 & Hrun & Hloop).
    pose proof (runCommand_frame _ _ _ _ _ _ Hrun) as [Hout2 _].
    apply runCommand_spec in Hrun as (Hadv2 & _ & Hcache2).
    pose proof (advances_trans _ _ _ _ _ Hadv0 Hadv2) as Hadv02.
    assert (Hgrow02 : probeCacheGrows st st2).
    { eapply probeCacheGrows_trans; [exact Hgrow0 |].
      apply probeCacheGrows_same, Hcache2. }
    assert (Hout02 : OUTPUT st2 = OUTPUT st) by congruence.
    assert (Hcmd02 : Forall (commandOfRoutes (route :: rest) cliPrompt)
                            (spawnedCommands
                               (e0 ++ [Spawn (buildRun route cliPrompt) cwd
                                             CLI_RUN_TIMEOUT_MS result]))).
    { rewrite spawnedCommands_app. apply Forall_app. split; [auto |].
      repeat constructor. exists route. split; [apply list_elem_of_here | auto]. }
    assert (Hcontinue :
              forall failures0 saw0,
                isSoftRun result = true ->
                runLoop fixerId baseId cwd cliPrompt rest
                        (failures ++ [failures0]) saw0 st2 = Some (exit, st1) ->
                exists new,
                  advances st st1 new
                  /\ probeCacheGrows st st1
                  /\ Forall (commandOfRoutes (route :: rest) cliPrompt)
                            (spawnedCommands new)
                  /\ match exit with
                     | Returned =>
                         exists route0 result0 earlier,
                           route0 ∈ route :: rest
                           /\ runResults new = (earlier ++ [result0])%list
                           /\ Forall (fun r => isSoftRun r = true) earlier
                           /\ isSuccessRun result0 = true
                           /\ last new
                              = Some (Spawn (buildRun route0 cliPrompt) cwd
                                            CLI_RUN_TIMEOUT_MS result0)
                           /\ OUTPUT st1
                              = (OUTPUT st
                                   ++ [successBox fixerId route0 cliPrompt result0])%list
                           /\ verdict st1 fixerId = KnownGood route0
                     | Fell failures' saw' =>
                         OUTPUT st1 = OUTPUT st
                         /\ (exists added,
                               failures' = (failures ++ added)%list
                               /\ length added = length (runResults new))
                         /\ (Forall (fun r => isSoftRun r = true) (runResults new)
                             \/ exists earlier hard,
                                  runResults new = (earlier ++ [hard])%list
                                  /\ Forall (fun r => isSoftRun r = true) earlier
                                  /\ isHardRun hard = true
                                  /\ saw' = false)
                     end).
    { intros failures0 saw0 Hsoft Hrest.
      apply IH in Hrest as (new & Hadv & Hgrow & Hcmd & Hexit).
      exists ((e0 ++ [Spawn (buildRun route cliPrompt) cwd CLI_RUN_TIMEOUT_MS result])
                ++ new)%list.
      split_and!.
      - eapply advances_trans; eassumption.
      - eapply probeCacheGrows_trans; eassumption.
      - rewrite spawnedCommands_app. apply Forall_app. auto.
      - rewrite !runResults_app, Hruns0, runResults_run. simpl.
        destruct exit as [| failures' saw'].
        + destruct Hexit
            as (r & res & earlier & Hin & Hruns & Hsofts & Hsucc & Hlast & Hout
                & Hverdict).
          exists r, res, (result :: earlier).
          split_and!; auto.
          * apply list_elem_of_further, Hin.
          * rewrite Hruns. reflexivity.
          * rewrite last_app, Hlast. reflexivity.
          * rewrite Hout, Hout02. reflexivity.
        + destruct Hexit as (Hout & (added & -> & Hlen) & Hshape).
          split_and!.
          * congruence.
          * exists (failures0 :: added). rewrite <- app_assoc. simpl.
            split; [reflexivity | congruence].
          * destruct Hshape as [Hall | (earlier & hard & Hruns & Hsofts & Hhard & Hsaw)].
            -- left. constructor; assumption.
            -- right. exists (result :: earlier), hard.
               rewrite Hruns. split_and!; auto. }
    destruct (isReadOnlySandboxNotice result) eqn:Hsandbox.
    { eapply Hcontinue; [| exact Hloop]. apply isSoftRun_sandbox, Hsandbox. }
    destruct (isProcessSuccess result) eqn:Hsuccess.
    { apply bind_Some in Hloop as (u1 & st3 & Hset & Hloop).
      apply bind_Some in Hloop as (u2 & st4 & Hbox & [= <- <-]).
      pose proof (setCachedCliRoute_frame _ _ _ _ _ Hset) as [Hout3 _].
      apply setCachedCliRoute_spec in Hset as (Hadv3 & Hroute3 & _ & Hcache3).
      pose proof (appendOutputBox_frame _ _ _ _ _ Hbox) as (Hout4 & Hcache4 & _).
      apply appendOutputBox_spec in Hbox as (Hadv4 & [Hroute4 _]).
      exists ((e0 ++ [Spawn (buildRun route cliPrompt) cwd CLI_RUN_TIMEOUT_MS result])
                ++ ([] ++ []))%list.
      split_and!.
      - eapply advances_trans; [eassumption |].
        eapply advances_trans; eassumption.
      - eapply probeCacheGrows_trans; [exact Hgrow02 |].
        eapply probeCacheGrows_trans; apply probeCacheGrows_same; eassumption.
      - simpl. rewrite app_nil_r. exact Hcmd02.
      - exists route, result, []. simpl. rewrite app_nil_r.
        rewrite !runResults_app, Hruns0, runResults_run.
        split_and!; auto.
        + apply list_elem_of_here.
        + unfold isSuccessRun. rewrite classifyRun_cases, Hsandbox, Hsuccess.
          reflexivity.
        + apply last_snoc.
        + rewrite Hout4, Hout3, Hout02. reflexivity.
        + unfold verdict. rewrite Hroute4, Hroute3, lookup_insert_eq. reflexivity. }
    destruct (isInvocationFailure result) eqn:Hinvocation; simpl in Hloop.
    2:{ injection Hloop as <- <-.
        exists (e0 ++ [Spawn (buildRun route cliPrompt) cwd CLI_RUN_TIMEOUT_MS result])%list.
        split; [exact Hadv02 |]. split; [exact Hgrow02 |].
        split; [exact Hcmd02 |].
        rewrite !runResults_app, Hruns0, runResults_run. simpl.
        split; [exact Hout02 |]. split.
        - eexists [_]. split; reflexivity.
        - right. exists [], result. split_and!; auto.
          unfold isHardRun. rewrite classifyRun_cases, Hsandbox, Hsuccess, Hinvocation.
          reflexivity. }
    eapply Hcontinue; [| exact Hloop].
    unfold isSoftRun. rewrite classifyRun_cases, Hsandbox, Hsuccess, Hinvocation.
    reflexivity.
Qed.

Lemma probeRoute_cached (route : CliRoute) (cwd : string) (st : State W)
      (ok : bool) :
  cliProbeCache st !! probeKey route cwd = Some ok ->
  probeRoute route cwd st = Some (ok, st).
Proof.
  intros Hcached. unfold probeRoute, bind, getState. rewrite Hcached. reflexivity.
Qed.

(** The steps of [runCliFix], with what it throws. *)
Lemma runCliFix_steps (args : RunFixerArgs) (prompt : string)
      (fixerId : CliFixerId) (st st' : State W) (out : Completion) :
  runCliFix args prompt fixerId st = Some (out, st') ->
  exists base st1,
    getCliRoute fixerId false st = Some (base, st1)
    /\ match base with
       | None =>
           st' = st1
           /\ out = Thrown (fixerLabel fixerId
                            +:+ " is enabled, but no working CLI route was found.")
       | Some baseRoute =>
           exists exit st2,
             runLoop fixerId (id baseRoute) (commandWorkingDirectory args)
                     (buildCliPrompt args prompt)
                     (runOrder st1 fixerId baseRoute) [] true st1
             = Some (exit, st2)
             /\ match exit with
                | Returned => st' = st2 /\ out = Resolved
                | Fell failures saw =>
                    exists st3 u u',
                      (if saw then setCachedCliRoute fixerId None else ret tt) st2
                      = Some (u, st3)
                      /\ appendOutputBox
                           (fixerLabel fixerId +:+ " Quick Fix Failed")
                           [ ("Prompt", buildCliPrompt args prompt);
                             ("Route Failures", summarizeFailures failures) ]
                           st3
                         = Some (u', st')
                      /\ out = Thrown (fixerLabel fixerId +:+ " failed: "
                                       +:+ match failures with
                                           | first :: _ => first
                                           | [] => "no executable command route was accepted."
                                           end)
                end
       end.
Proof.
  unfold runCliFix. intros Hrun.
  apply bind_Some in Hrun as (base & st1 & Hget & Hrun).
  exists base, st1. split; [exact Hget |].
  destruct base as [baseRoute |].
  - apply bind_Some in Hrun as (st0 & st1' & [= <- <-] & Hrun).
    apply bind_Some in Hrun as (exit & st2 & Hloop & Hrun).
    exists exit, st2. split; [exact Hloop |].
    destruct exit as [| failures saw].
    + injection Hrun as <- <-. auto.
    + apply bind_Some in Hrun as (u & st3 & Hclear & Hrun).
      apply bind_Some in Hrun as (u' & st4 & Hbox & [= <- <-]).
      exists st3, u, u'. auto.
  - injection Hrun as <- <-. auto.
Qed.

(** An invocation of the runner, seen from outside. *)
Lemma runCliFix_report (args : RunFixerArgs) (prompt : string)
      (fixerId : CliFixerId) (st st' : State W) (out : Completion) :
  runCliFix args prompt fixerId st = Some (out, st') ->
  probeCacheGrows st st'
  /\ Forall (commandOfRoutes (getCliRouteCandidates (configuration st) fixerId)
                             (buildCliPrompt args prompt))
            (spawnedCommands (newEffects st st'))
  /\ match out with
     | Resolved =>
         exists route result earlier,
           route ∈ getCliRouteCandidates (configuration st) fixerId
           /\ runResults (newEffects st st') = (earlier ++ [result])%list
           /\ Forall (fun r => isSoftRun r = true) earlier
           /\ isSuccessRun result = true
           /\ last (newEffects st st')
              = Some (Spawn (buildRun route (buildCliPrompt args prompt))
                            (commandWorkingDirectory args) CLI_RUN_TIMEOUT_MS
                            result)
           /\ OUTPUT st'
              = (OUTPUT st
                   ++ [successBox fixerId route (buildCliPrompt args prompt)
                                  result])%list
           /\ verdict st' fixerId = KnownGood route
     | Thrown message =>
         (message = fixerLabel fixerId
                    +:+ " is enabled, but no working CLI route was found."
          /\ OUTPUT st' = OUTPUT st
          /\ runResults (newEffects st st') = []
          /\ verdict st' fixerId = KnownBad)
         \/ exists failures,
              message = fixerLabel fixerId +:+ " failed: "
                        +:+ match failures with
                            | first :: _ => first
                            | [] => "no executable command route was accepted."
                            end
              /\ OUTPUT st'
                 = (OUTPUT st
                      ++ [failureBox fixerId (buildCliPrompt args prompt)
                                     failures])%list
              /\ length failures = length (runResults (newEffects st st'))
              /\ (Forall (fun r => isSoftRun r = true)
                         (runResults (newEffects st st'))
                  \/ exists earlier hard,
                       runResults (newEffects st st') = (earlier ++ [hard])%list
                       /\ Forall (fun r => isSoftRun r = true) earlier
                       /\ isHardRun hard = true)
     end.
Proof.
  intros Hrun.
  apply runCliFix_steps in Hrun as (base & st1 & Hget & Hrest).
  pose proof (getCliRoute_frame _ _ (buildCliPrompt args prompt) _ _ _ Hget)
    as (Hgrow1 & Hout1 & Hcmd1).
  apply getCliRoute_spec in Hget as (e1 & Hadv1 & Hruns1 & Hcache1 & _).
  rewrite (newEffects_advances _ _ _ Hadv1) in Hcmd1.
  destruct base as [baseRoute |].
  2:{ destruct Hrest as [-> ->].
      rewrite (newEffects_advances _ _ _ Hadv1).
      split; [exact Hgrow1 |]. split; [exact Hcmd1 |].
      left. split_and!; auto. unfold verdict. rewrite Hcache1. reflexivity. }
  destruct Hrest as (exit & st2 & Hloop & Hrest).
  apply runLoop_frame in Hloop as (e2 & Hadv2 & Hgrow2 & Hcmd2 & Hexit).
  assert (Hsub : forall route,
             route ∈ runOrder st1 fixerId baseRoute ->
             route ∈ getCliRouteCandidates (configuration st) fixerId).
  { intros route Hin. unfold runOrder in Hin.
    apply orderRoutesWithPreferred_subset in Hin.
    destruct Hadv1 as (_ & <- & _). exact Hin. }
  pose proof (commandOfRoutes_mono _ _ _ _ Hsub Hcmd2) as Hcmd2'.
  pose proof (advances_trans _ _ _ _ _ Hadv1 Hadv2) as Hadv12.
  destruct exit as [| failures saw].
  - destruct Hrest as [-> ->].
    rewrite (newEffects_advances _ _ _ Hadv12).
    split; [eapply probeCacheGrows_trans; eassumption |].
    split; [rewrite spawnedCommands_app; apply Forall_app; auto |].
    destruct Hexit
      as (route & result & earlier & Hin & Hruns & Hsoft & Hsucc & Hlast & Hout
          & Hverdict).
    exists route, result, earlier.
    rewrite runResults_app, Hruns1, last_app, Hlast, Hout, Hout1.
    split_and!; auto.
  - destruct Hrest as (st3 & u & u' & Hclear & Hbox & ->).
    destruct Hexit as (Hout2 & (added & Hadded & Hlen) & Hshape).
    simpl in Hadded. subst added.
    assert (Hstep3 : advances st2 st3 [] /\ OUTPUT st3 = OUTPUT st2
                     /\ cliProbeCache st3 = cliProbeCache st2).
    { destruct saw.
      - pose proof (setCachedCliRoute_frame _ _ _ _ _ Hclear) as [Ho _].
        apply setCachedCliRoute_spec in Hclear as (Ha & _ & _ & Hc). auto.
      - injection Hclear as _ <-. auto using advances_refl. }
    destruct Hstep3 as (Hadv3 & Hout3 & Hcache3).
    pose proof (appendOutputBox_frame _ _ _ _ _ Hbox) as (Hout4 & Hcache4 & _).
    apply appendOutputBox_spec in Hbox as (Hadv4 & _).
    pose proof (advances_trans _ _ _ _ _ Hadv12
                  (advances_trans _ _ _ _ _ Hadv3 Hadv4)) as Hadv.
    simpl in Hadv. rewrite app_nil_r in Hadv.
    rewrite (newEffects_advances _ _ _ Hadv).
    split.
    { eapply probeCacheGrows_trans; [exact Hgrow1 |].
      eapply probeCacheGrows_trans; [exact Hgrow2 |].
      eapply probeCacheGrows_trans; apply probeCacheGrows_same; eassumption. }
    split; [rewrite spawnedCommands_app; apply Forall_app; auto |].
    right. exists failures.
    rewrite runResults_app, Hruns1. simpl.
    split_and!; auto.
    + rewrite Hout4, Hout3, Hout2, Hout1. reflexivity.
    + destruct Hshape as [Hall | (earlier & hard & Hruns & Hsoft & Hhard & _)];
        [left | right]; eauto.
Qed.

Lemma getCliRoute_cached (fixerId : CliFixerId) (st : State W)
      (found : option CliRoute) :
  cliRouteCache st !! fixerKey fixerId = Some found ->
  (forall route, found = Some route ->
                 isRouteAvailable (configuration st) fixerId (id route) = true) ->
  getCliRoute fixerId false st = Some (found, st).
Proof.
  intros Hcache Havail. unfold getCliRoute, bind, getState. rewrite Hcache.
  destruct found as [route |]; [| reflexivity].
  rewrite (Havail route eq_refl). reflexivity.
Qed.

(** X10. A probe spawns at most one process, the probe command of its
    route, and only when no answer is stored under its key; the answer is
    then the success of that process.  From then on every probe with the
    same key, of the same or of another route, returns the stored answer
    without touching the host, also after any resolve, forced or not, and
    after any invocation of the runner: a failed probe is not retried. *)
Theorem probe_answers_are_memoized (route : CliRoute) (cwd : string)
        (st st1 : State W) (ok : bool) :
  probeRoute route cwd st = Some (ok, st1) ->
  (cliProbeCache st !! probeKey route cwd = Some ok /\ st1 = st
   \/ cliProbeCache st !! probeKey route cwd = None
      /\ exists result,
          newEffects st st1
          = [Spawn (probe route) cwd CLI_PROBE_TIMEOUT_MS result]
          /\ ok = isProcessSuccess result)
  /\ (forall other,
        probeKey other cwd = probeKey route cwd ->
        probeRoute other cwd st1 = Some (ok, st1))
  /\ (forall fixerId forceRefresh found st2,
        getCliRoute fixerId forceRefresh st1 = Some (found, st2) ->
        probeRoute route cwd st2 = Some (ok, st2))
  /\ (forall args prompt fixerId out st2,
        runCliFix args prompt fixerId st1 = Some (out, st2) ->
        probeRoute route cwd st2 = Some (ok, st2)).
Proof.
  intros Hprobe.
  apply probeRoute_frame in Hprobe as (Hanswer & _ & _ & Hhow).
  split_and!.
  - exact Hhow.
  - intros other Hkey. apply probeRoute_cached. rewrite Hkey. exact Hanswer.
  - intros fixerId forceRefresh found st2 Hget.
    apply (getCliRoute_frame _ _ "") in Hget as (Hgrow & _).
    apply probeRoute_cached, Hgrow, Hanswer.
  - intros args prompt fixerId out st2 Hrun.
    apply runCliFix_report in Hrun as (Hgrow & _).
    apply probeRoute_cached, Hgrow, Hanswer.
Qed.

(** X11. An unforced resolve that has returned is repeated for free: the
    same answer, [null] included, comes back with no change of state and
    no host interaction, also when the other kind was resolved in
    between. *)
Theorem resolve_is_idempotent (fixerId : CliFixerId) (st st1 : State W)
        (found : option CliRoute) :
  getCliRoute fixerId false st = Some (found, st1) ->
  getCliRoute fixerId false st1 = Some (found, st1)
  /\ (forall other found' st2,
        getCliRoute other false st1 = Some (found', st2) ->
        getCliRoute fixerId false st2 = Some (found, st2)).
Proof.
  intros Hget.
  apply getCliRoute_spec in Hget as (new & _ & _ & Hcache & Havail & _).
  pose proof (getCliRoute_cached _ _ _ Hcache Havail) as Hagain.
  split; [exact Hagain |].
  intros other found' st2 Hother.
  assert (Hcases : other = fixerId \/ other <> fixerId)
    by (destruct other, fixerId; auto; right; discriminate).
  destruct Hcases as [-> | Hne].
  - rewrite Hagain in Hother. injection Hother as <- <-. exact Hagain.
  - pose proof (getCliRoute_cache _ _ _ _ Hother) as [Hkeep _].
    apply getCliRoute_spec in Hother as (new' & (_ & Hconfig & _) & _).
    apply getCliRoute_cached.
    + destruct Hkeep as [-> | ->]; [exact Hcache |].
      rewrite lookup_insert_ne; [exact Hcache |].
      intros Hkey. apply fixerKey_inj in Hkey. contradiction.
    + rewrite Hconfig. exact Havail.
Qed.

(** X12. Discovery returns the first route, in its order, whose probe
    answers [true]; the probes of all the routes before it answered
    [false], and it returns [null] only when the probes of all routes
    did.  It spawns nothing but probes of candidates and writes no
    report. *)
Theorem discovery_returns_first_answering_route (fixerId : CliFixerId)
        (st st1 : State W) (found : option CliRoute) :
  discoverCliRoute fixerId st = Some (found, st1) ->
  match found with
  | Some route =>
      exists before after,
        discoveryOrder st fixerId = (before ++ route :: after)%list
        /\ cliProbeCache st1 !! probeKey route (probeWorkingDirectory st)
           = Some true
        /\ Forall (fun r => cliProbeCache st1
                              !! probeKey r (probeWorkingDirectory st)
                            = Some false) before
  | None =>
      Forall (fun r => cliProbeCache st1 !! probeKey r (probeWorkingDirectory st)
                       = Some false)
             (discoveryOrder st fixerId)
  end
  /\ Forall (fun e => exists route result,
                 route ∈ getCliRouteCandidates (configuration st) fixerId
                 /\ e = Spawn (probe route) (probeWorkingDirectory st)
                              CLI_PROBE_TIMEOUT_MS result)
            (newEffects st st1)
  /\ OUTPUT st1 = OUTPUT st.
Proof.
  intros Hrun.
  assert (Hprobes : forall routes st0 st2 found0,
             discoverLoop fixerId (probeWorkingDirectory st) routes st0
             = Some (found0, st2) ->
             Forall (fun e => exists route result,
                         route ∈ routes
                         /\ e = Spawn (probe route) (probeWorkingDirectory st)
                                      CLI_PROBE_TIMEOUT_MS result)
                    (newEffects st0 st2)).
  { induction routes as [| route rest IH]; intros st0 st2 found0 Hloop;
      simpl in Hloop.
    - apply bind_Some in Hloop as (u & st3 & Hset & [= <- <-]).
      apply setCachedCliRoute_frame in Hset as [_ ->]. constructor.
    - apply bind_Some in Hloop as (ok & st3 & Hprobe & Hloop).
      pose proof Hprobe as Hadv0.
      apply probeRoute_spec in Hadv0 as (e0 & Hadv0 & _).
      assert (Hfirst : Forall (fun e => exists r result,
                                   r ∈ route :: rest
                                   /\ e = Spawn (probe r) (probeWorkingDirectory st)
                                                CLI_PROBE_TIMEOUT_MS result)
                              (newEffects st0 st3)).
      { apply probeRoute_frame in Hprobe
          as (_ & _ & _ & [[_ ->] | (_ & result & -> & _)]).
        - rewrite newEffects_same. constructor.
        - repeat constructor. exists route, result.
          split; [apply list_elem_of_here | reflexivity]. }
      destruct ok.
      + apply bind_Some in Hloop as (u & st4 & Hset & [= <- <-]).
        pose proof (setCachedCliRoute_frame _ _ _ _ _ Hset) as [_ Hnew].
        apply setCachedCliRoute_spec in Hset as (Hadv & _).
        rewrite (newEffects_trans _ _ _ _ _ Hadv0 Hadv), Hnew, app_nil_r.
        exact Hfirst.
      + pose proof Hloop as Hadv.
        apply discoverLoop_spec in Hadv as (new & Hadv & _).
        apply IH in Hloop.
        rewrite (newEffects_trans _ _ _ _ _ Hadv0 Hadv).
        apply Forall_app. split; [exact Hfirst |].
        eapply Forall_impl; [exact Hloop |].
        intros e (r & result & Hin & ->). exists r, result.
        split; [apply list_elem_of_further, Hin | reflexivity]. }
  pose proof (Hprobes _ _ _ _ Hrun) as Hspawned.
  apply (discoverLoop_frame fixerId _ "") in Hrun as (_ & Hout & _ & Hfound).
  split_and!; [exact Hfound | | exact Hout].
  eapply Forall_impl; [exact Hspawned |].
  intros e (r & result & Hin & ->). exists r, result.
  split; [eapply orderRoutesWithPreferred_subset, Hin | reflexivity].
Qed.

(** X13. Storing a verdict and reading the persisted id back: after
    [setCachedCliRoute] the persisted id of the kind is the id of the
    stored route, or none for [null] and whenever the extension has no
    context; the cached verdict is the stored one; and neither the
    persisted id nor the cached verdict of the other kind changes. *)
Theorem stored_verdict_is_read_back (fixerId : CliFixerId)
        (route : option CliRoute) (st st1 : State W) (u : unit) :
  setCachedCliRoute fixerId route st = Some (u, st1) ->
  getPersistedRouteId st1 fixerId
  = match extensionContextRef st with
    | Some _ => option_map id route
    | None => None
    end
  /\ cliRouteCache st1 !! fixerKey fixerId = Some route
  /\ (forall other,
        other <> fixerId ->
        getPersistedRouteId st1 other = getPersistedRouteId st other
        /\ cliRouteCache st1 !! fixerKey other
           = cliRouteCache st !! fixerKey other).
Proof.
  intros Hset.
  apply setCachedCliRoute_spec in Hset as (_ & Hcache & Hctx & _).
  assert (Hkeys : forall other, other <> fixerId ->
                                fixerKey fixerId <> fixerKey other).
  { intros other Hne Hkey. apply fixerKey_inj in Hkey. congruence. }
  unfold getPersistedRouteId. rewrite Hctx, Hcache.
  destruct (extensionContextRef st) as [persisted |]; simpl.
  - split_and!.
    + destruct route as [r |]; simpl.
      * rewrite lookup_insert_eq. reflexivity.
      * rewrite lookup_delete_eq. reflexivity.
    + apply lookup_insert_eq.
    + intros other Hne. apply Hkeys in Hne.
      rewrite lookup_insert_ne by exact Hne. split; [| reflexivity].
      destruct route as [r |].
      * rewrite lookup_insert_ne by exact Hne. reflexivity.
      * rewrite lookup_delete_ne by exact Hne. reflexivity.
  - split_and!; [reflexivity | apply lookup_insert_eq |].
    intros other Hne. apply Hkeys in Hne.
    rewrite lookup_insert_ne by exact Hne. auto.
Qed.

(** X14. All the processes an invocation of the runner spawns are probe
    commands or run commands, for the prompt of the invocation, of
    candidates of the kind; with [enable-wsl-routes] off none of them
    starts [wsl]. *)
Theorem runner_spawns_candidate_commands_only (args : RunFixerArgs)
        (prompt : string) (fixerId : CliFixerId) (st st1 : State W)
        (out : Completion) :
  runCliFix args prompt fixerId st = Some (out, st1) ->
  Forall (commandOfRoutes (getCliRouteCandidates (configuration st) fixerId)
                          (buildCliPrompt args prompt))
         (spawnedCommands (newEffects st st1))
  /\ (enableWslRoutes (getCliSettings (configuration st)) = false ->
      Forall (fun spec => command spec <> "wsl")
             (spawnedCommands (newEffects st st1))).
Proof.
  intros Hrun. apply runCliFix_report in Hrun as (_ & Hcmd & _).
  split; [exact Hcmd |]. intros Hoff.
  eapply Forall_impl; [exact Hcmd |].
  intros spec (route & Hin & Hspec).
  rewrite (getCliRouteCandidates_disabled _ _ Hoff) in Hin.
  apply list_elem_of_filter in Hin as [Hid Hin].
  pose proof (bridge_prefix_iff_bridge_command fixerId (buildCliPrompt args prompt))
    as Hfacts.
  rewrite List.Forall_forall in Hfacts.
  apply list_elem_of_In, Hfacts in Hin as [Hprefix Hsame].
  rewrite Hprefix in Hid. unfold usesBridge in Hid.
  apply Is_true_true, negb_true_iff, String.eqb_neq in Hid.
  destruct Hspec as [-> | ->]; congruence.
Qed.

(** X15. The runs of an invocation stop at the first decisive result: a
    resolved invocation made one successful run, the last one, after soft
    runs only (sandbox notices and invocation failures); a thrown one made
    no successful run, and either all its runs were soft or the last one
    was a hard failure after soft runs only. *)
Theorem runs_stop_at_first_decisive_result (args : RunFixerArgs)
        (prompt : string) (fixerId : CliFixerId) (st st1 : State W)
        (out : Completion) :
  runCliFix args prompt fixerId st = Some (out, st1) ->
  match out with
  | Resolved =>
      exists earlier result,
        runResults (newEffects st st1) = (earlier ++ [result])%list
        /\ Forall (fun r => isSoftRun r = true) earlier
        /\ isSuccessRun result = true
  | Thrown _ =>
      Forall (fun r => isSoftRun r = true) (runResults (newEffects st st1))
      \/ exists earlier hard,
           runResults (newEffects st st1) = (earlier ++ [hard])%list
           /\ Forall (fun r => isSoftRun r = true) earlier
           /\ isHardRun hard = true
  end.
Proof.
  intros Hrun. apply runCliFix_report in Hrun as (_ & _ & Hout).
  destruct out as [| message].
  - destruct Hout as (route & result & earlier & _ & Hruns & Hsoft & Hsucc & _).
    eauto.
  - destruct Hout as [(_ & _ & -> & _) | (failures & _ & _ & _ & Hshape)].
    + left. constructor.
    + exact Hshape.
Qed.

(** X16. What an invocation reports.  Resolved: exactly one box is
    appended, the success box of the route whose run command was the last
    process spawned, with the output of that run, and this route is the
    cached verdict.  Thrown for want of a route: nothing is appended and
    nothing was run.  Thrown otherwise: exactly one box is appended, the
    failure box, with one failure line per run, and the message carries
    the first failure line, or a fixed text when nothing was run. *)
Theorem every_invocation_is_reported (args : RunFixerArgs) (prompt : string)
        (fixerId : CliFixerId) (st st1 : State W) (out : Completion) :
  runCliFix args prompt fixerId st = Some (out, st1) ->
  match out with
  | Resolved =>
      exists route result,
        route ∈ getCliRouteCandidates (configuration st) fixerId
        /\ OUTPUT st1
           = (OUTPUT st
                ++ [successBox fixerId route (buildCliPrompt args prompt)
                               result])%list
        /\ last (newEffects st st1)
           = Some (Spawn (buildRun route (buildCliPrompt args prompt))
                         (commandWorkingDirectory args) CLI_RUN_TIMEOUT_MS
                         result)
        /\ verdict st1 fixerId = KnownGood route
  | Thrown message =>
      (message = fixerLabel fixerId
                 +:+ " is enabled, but no working CLI route was found."
       /\ OUTPUT st1 = OUTPUT st
       /\ runResults (newEffects st st1) = []
       /\ verdict st1 fixerId = KnownBad)
      \/ exists failures,
           message = fixerLabel fixerId +:+ " failed: "
                     +:+ match failures with
                         | first :: _ => first
                         | [] => "no executable command route was accepted."
                         end
           /\ OUTPUT st1
              = (OUTPUT st
                   ++ [failureBox fixerId (buildCliPrompt args prompt)
                                  failures])%list
           /\ length failures = length (runResults (newEffects st st1))
  end.
Proof.
  intros Hrun. apply runCliFix_report in Hrun as (_ & _ & Hout).
  destruct out as [| message].
  - destruct Hout
      as (route & result & earlier & Hin & _ & _ & _ & Hlast & Hbox & Hverdict).
    eauto 10.
  - destruct Hout as [Hnone | (failures & Hmessage & Hbox & Hlen & _)].
    + left. exact Hnone.
    + right. eauto.
Qed.

Lemma optionalResolve_spec (flag : bool) (fixerId : CliFixerId)
      (st st1 : State W) (found : option CliRoute) :
  (if flag then getCliRoute fixerId false else ret None) st = Some (found, st1) ->
  (exists new, advances st st1 new /\ runResults new = [])
  /\ OUTPUT st1 = OUTPUT st
  /\ (flag = false -> st1 = st /\ found = None)
  /\ (flag = true -> cliRouteCache st1 !! fixerKey fixerId = Some found)
  /\ (forall other, other <> fixerId ->
                    cliRouteCache st1 !! fixerKey other
                    = cliRouteCache st !! fixerKey other).
Proof.
  destruct flag.
  - intros Hget.
    pose proof (getCliRoute_frame _ _ "" _ _ _ Hget) as (_ & Hout & _).
    pose proof (getCliRoute_cache _ _ _ _ Hget) as [Hkeep _].
    apply getCliRoute_spec in Hget as (new & Hadv & Hruns & Hcache & _).
    split_and!; eauto; [discriminate |].
    intros other Hne. destruct Hkeep as [-> | ->]; [reflexivity |].
    apply lookup_insert_ne. intros Hkey. apply fixerKey_inj in Hkey. congruence.
  - intros [= <- <-]. split_and!; eauto using advances_refl. discriminate.
Qed.

(** X17. The menu of fixers: [Codex] and [Claude] are listed exactly when
    their settings are on (the default); a CLI fixer is listed exactly
    when its setting is on (off by default) and a route is resolved for
    it, which is then the cached verdict.  Building the menu never runs a
    fix and writes no report, and with both CLI settings off it does not
    touch the state at all. *)
Theorem menu_lists_resolved_cli_fixers (st st1 : State W)
        (enabled : list FixerSpec) :
  getEnabledFixers st = Some (enabled, st1) ->
  (FIXERS Codex ∈ enabled
   <-> parseBoolean (configuration st !! "codex") true = true)
  /\ (FIXERS Claude ∈ enabled
      <-> parseBoolean (configuration st !! "claude") true = true)
  /\ (forall fixerId,
        FIXERS (cliFixer fixerId) ∈ enabled
        <-> parseBoolean (configuration st !! fixerKey fixerId) false = true
            /\ exists route, verdict st1 fixerId = KnownGood route)
  /\ runResults (newEffects st st1) = []
  /\ OUTPUT st1 = OUTPUT st
  /\ (parseBoolean (configuration st !! "codex-cli") false = false ->
      parseBoolean (configuration st !! "claude-cli") false = false ->
      st1 = st).
Proof.
  unfold getEnabledFixers. intros Hmenu.
  apply bind_Some in Hmenu as (st' & st0 & [= <- <-] & Hmenu).
  apply bind_Some in Hmenu as (codexRoute & st2 & Hcodex & Hmenu).
  apply bind_Some in Hmenu as (claudeRoute & st3 & Hclaude & [= <- <-]).
  apply optionalResolve_spec in Hcodex
    as ((e1 & Hadv1 & Hruns1) & Hout1 & Hoff1 & Hon1 & _).
  apply optionalResolve_spec in Hclaude
    as ((e2 & Hadv2 & Hruns2) & Hout2 & Hoff2 & Hon2 & Hother2).
  pose proof (advances_trans _ _ _ _ _ Hadv1 Hadv2) as Hadv.
  rewrite (newEffects_advances _ _ _ Hadv), runResults_app, Hruns1, Hruns2.
  split_and!.
  - clear. destruct (parseBoolean (configuration st !! "codex") true),
      (parseBoolean (configuration st !! "claude") true),
      codexRoute, claudeRoute;
      menu_case.
  - clear. destruct (parseBoolean (configuration st !! "codex") true),
      (parseBoolean (configuration st !! "claude") true),
      codexRoute, claudeRoute;
      menu_case.
  - intros fixerId. unfold verdict.
    assert (Hcodex : cliRouteCache st3 !! fixerKey CodexCli
                     = cliRouteCache st2 !! fixerKey CodexCli)
      by (apply Hother2; discriminate).
    destruct fixerId; cbn [fixerKey cliFixer] in *.
    + rewrite Hcodex.
      destruct (parseBoolean (configuration st !! "codex-cli") false).
      * rewrite (Hon1 eq_refl). clear.
        destruct (parseBoolean (configuration st !! "codex") true),
          (parseBoolean (configuration st !! "claude") true),
          codexRoute, claudeRoute;
          menu_case.
      * destruct (Hoff1 eq_refl) as [_ ->]. clear.
        destruct (parseBoolean (configuration st !! "codex") true),
          (parseBoolean (configuration st !! "claude") true),
          claudeRoute;
          menu_case.
    + destruct (parseBoolean (configuration st !! "claude-cli") false).
      * rewrite (Hon2 eq_refl). clear.
        destruct (parseBoolean (configuration st !! "codex") true),
          (parseBoolean (configuration st !! "claude") true),
          codexRoute, claudeRoute;
          menu_case.
      * destruct (Hoff2 eq_refl) as [_ ->]. clear.
        destruct (parseBoolean (configuration st !! "codex") true),
          (parseBoolean (configuration st !! "claude") true),
          codexRoute;
          menu_case.
  - reflexivity.
  - congruence.
  - intros Hcodex Hclaude.
    destruct (Hoff2 Hclaude) as [-> _]. destruct (Hoff1 Hcodex) as [-> _].
    reflexivity.
Qed.

End EngineFurther.

(* ===================================================================== *)
(** ** Properties of the code actions *)
(* ===================================================================== *)

Section ProviderProperties.

Context {W : Type} `{!Host W}.

(** The menu holds entries of [FIXERS] only. *)
Lemma getEnabledFixers_entries (st st1 : State W) (enabled : list FixerSpec) :
  getEnabledFixers st = Some (enabled, st1) ->
  Forall (fun fixer => fixer = FIXERS (specId fixer)) enabled.
Proof.
  unfold getEnabledFixers. intros Hmenu.
  apply bind_Some in Hmenu as (st' & st0 & [= <- <-] & Hmenu).
  apply bind_Some in Hmenu as (codexRoute & st2 & _ & Hmenu).
  apply bind_Some in Hmenu as (claudeRoute & st3 & _ & [= <- <-]).
  destruct (parseBoolean (configuration st !! "codex") true),
    (parseBoolean (configuration st !! "claude") true),
    codexRoute, claudeRoute; repeat constructor.
Qed.

(** The actions are made for the enabled fixers, diagnostic by
    diagnostic. *)
Lemma provideCodeActions_spec (uri : Uri) (range : Range)
      (diagnostics : list Diagnostic) (st st1 : State W)
      (actions : list CodeAction) :
  provideCodeActions uri range diagnostics st = Some (actions, st1) ->
  exists fixers,
    getEnabledFixers st = Some (fixers, st1)
    /\ Forall (fun fixer => fixer = FIXERS (specId fixer)) fixers
    /\ actions
       = flat_map (fun diagnostic =>
                     map (codeActionFor uri range diagnostic) fixers)
                  diagnostics.
Proof.
  unfold provideCodeActions. intros Hrun.
  apply bind_Some in Hrun as (fixers & st2 & Hmenu & Hrun).
  pose proof (getEnabledFixers_entries _ _ _ Hmenu) as Hentries.
  exists fixers.
  destruct fixers as [| fixer fixers]; simpl in Hrun.
  - injection Hrun as <- <-. split_and!; auto.
    clear. induction diagnostics as [| d ds IH]; [reflexivity | exact IH].
  - destruct diagnostics as [| d ds]; simpl in Hrun;
      injection Hrun as <- <-; auto.
Qed.

(** X20. The code actions offered for a selection: one per diagnostic
    and enabled fixer, and none when there is no diagnostic or no enabled
    fixer.  Each action carries one diagnostic, with its range (the
    selection's when it has none) and its message, is titled after its
    fixer, invokes [aiQuickFix.runFixer], and its argument leads
    [resolveFixerId] back to the fixer it was made for; every pair of a
    diagnostic and an enabled fixer has its action. *)
Theorem code_actions_lead_back_to_their_fixer (uri : Uri) (range : Range)
        (diagnostics : list Diagnostic) (st st1 : State W)
        (actions : list CodeAction) :
  provideCodeActions uri range diagnostics st = Some (actions, st1) ->
  exists fixers,
    getEnabledFixers st = Some (fixers, st1)
    /\ length actions = (length diagnostics * length fixers)%nat
    /\ Forall (fun action =>
                 exists diagnostic fixerId,
                   diagnostic ∈ diagnostics
                   /\ FIXERS fixerId ∈ fixers
                   /\ resolveFixerId (Some (request (commandArguments action)))
                      = Some fixerId
                   /\ actionTitle action
                      = "Fix With " +:+ doubleQuote +:+ label (FIXERS fixerId)
                          +:+ doubleQuote
                   /\ commandId action = "aiQuickFix.runFixer"
                   /\ actionDiagnostics action = [diagnostic]
                   /\ argumentUri (commandArguments action) = Some uri
                   /\ argumentRange (commandArguments action)
                      = Some (default range (diagnosticRange diagnostic))
                   /\ argumentDiagnosticMessage (commandArguments action)
                      = Some (diagnosticText diagnostic))
              actions
    /\ (forall diagnostic fixerId,
          diagnostic ∈ diagnostics -> FIXERS fixerId ∈ fixers ->
          exists action,
            action ∈ actions
            /\ actionDiagnostics action = [diagnostic]
            /\ resolveFixerId (Some (request (commandArguments action)))
               = Some fixerId).
Proof.
  intros Hrun.
  apply provideCodeActions_spec in Hrun as (fixers & Hmenu & Hentries & ->).
  rewrite Forall_forall in Hentries.
  exists fixers. split; [exact Hmenu |].
  split_and!.
  - induction diagnostics as [| d ds IH]; [reflexivity |].
    simpl. rewrite length_app, length_map, IH. reflexivity.
  - apply Forall_flat_map, Forall_forall. intros diagnostic Hd.
    apply Forall_fmap, Forall_forall. intros fixer Hf.
    exists diagnostic, (specId fixer).
    rewrite <- (Hentries fixer Hf). simpl.
    split_and!; auto. destruct (specId fixer); reflexivity.
  - intros diagnostic fixerId Hd Hf.
    exists (codeActionFor uri range diagnostic (FIXERS fixerId)).
    split_and!.
    + apply list_elem_of_In, in_flat_map. exists diagnostic.
      split; [apply list_elem_of_In, Hd |].
      apply in_map, list_elem_of_In, Hf.
    + reflexivity.
    + destruct fixerId; reflexivity.
Qed.

End ProviderProperties.

(** One diagnostic, with [claude] installed and both CLI fixers switched
    on: as many actions as the menu has fixers. *)
Lemma code_actions_lead_back_to_their_fixer_witness :
  exists fixers,
    getEnabledFixers menuRequested
    = Some (fixers,
            finalState (provideCodeActions sampleUri
                                           sampleRange [sampleDiagnostic])
                       menuRequested)
    /\ length (answer [] (provideCodeActions sampleUri
                                             sampleRange [sampleDiagnostic])
                       menuRequested)
       = (length [sampleDiagnostic] * length fixers)%nat.
Proof.
  destruct (code_actions_lead_back_to_their_fixer
              (W := Scripted) sampleUri sampleRange
              [sampleDiagnostic] menuRequested
              (finalState (provideCodeActions sampleUri
                                              sampleRange [sampleDiagnostic])
                          menuRequested)
              (answer [] (provideCodeActions sampleUri
                                             sampleRange [sampleDiagnostic])
                      menuRequested))
    as (fixers & Hmenu & Hlength & _).
  - vm_compute. reflexivity.
  - exists fixers. split; [exact Hmenu | exact Hlength].
Defined.

(* ===================================================================== *)
(** ** Further properties of result classification *)
(* ===================================================================== *)

Lemma missing_binary_is_soft (result : ProcessResult) :
  errorCode result = Some "ENOENT" \/ exitCode result = Some 127 ->
  isProcessSuccess result = false
  /\ isInvocationFailure result = true
  /\ isSoftRun result = true.
Proof.
  intros Hmissing.
  assert (Hfail : isProcessSuccess result = false).
  { unfold isProcessSuccess.
    destruct Hmissing as [-> | ->]; destruct (timedOut result); simpl;
      rewrite ?andb_false_r; reflexivity. }
  assert (Hinvocation : isInvocationFailure result = true).
  { unfold isInvocationFailure. destruct Hmissing as [-> | ->]; [reflexivity |].
    repeat (match goal with
            | |- match ?x with _ => _ end = _ => destruct x; try reflexivity
            end). }
  split_and!; auto.
  unfold isSoftRun. rewrite classifyRun_cases, Hfail, Hinvocation.
  destruct (isReadOnlySandboxNotice result); reflexivity.
Qed.

(** X18. A binary that is missing never stops the search for a route.
    Whether [spawn] throws [ENOENT], the child reports it with ['error'],
    or a shell exits with 127, [runCommand] resolves, with a result that
    is no success, so that a probe fails, and that the loop of [runCliFix]
    treats as soft, so that it goes on to the next candidate. *)
Theorem missing_binary_never_stops_the_search
        (before after : list ChildEvent) (message : string) :
  existsb isFinal before = false ->
  forall outcome,
    outcome = SpawnThrows message (Some "ENOENT")
    \/ outcome = Spawned (before ++ ErrorEvent message (Some "ENOENT") :: after)
    \/ outcome = Spawned (before ++ CloseEvent (Some 127) :: after) ->
    exists result,
      settle outcome = Some result
      /\ isProcessSuccess result = false
      /\ isInvocationFailure result = true
      /\ isSoftRun result = true.
Proof.
  intros Hbefore outcome [-> | [-> | ->]].
  - eexists. split; [reflexivity |]. apply missing_binary_is_soft. left. reflexivity.
  - rewrite settle_decided, (pending_locals before Hbefore).
    eexists. split; [reflexivity |]. apply missing_binary_is_soft. left. reflexivity.
  - rewrite settle_decided, (pending_locals before Hbefore).
    eexists. split; [reflexivity |]. apply missing_binary_is_soft. right. reflexivity.
Qed.

(** A shell that prints its complaint and exits with 127. *)
Lemma missing_binary_never_stops_the_search_witness :
  exists result,
    settle (Spawned ([StderrData "bash: codex: command not found"]
                       ++ CloseEvent (Some 127) :: []))
    = Some result
    /\ isProcessSuccess result = false
    /\ isInvocationFailure result = true
    /\ isSoftRun result = true.
Proof.
  apply (missing_binary_never_stops_the_search
           [StderrData "bash: codex: command not found"] [] "").
  - reflexivity.
  - right. right. reflexivity.
Defined.

Lemma prefix_app (name rest : string) : String.prefix name (name +:+ rest) = true.
Proof.
  induction name as [| c name IH].
  - change ("" +:+ rest) with rest. destruct rest; reflexivity.
  - change (String c name +:+ rest) with (String c (name +:+ rest)). simpl.
    destruct (ascii_dec c c); [exact IH | contradiction].
Qed.

Lemma substring_app_head (name rest : string) (k : nat) :
  String.substring 0 (String.length name + k) (name +:+ rest)
  = name +:+ String.substring 0 k rest.
Proof.
  induction name as [| c name IH]; [reflexivity |].
  change (String c name +:+ rest) with (String c (name +:+ rest)).
  simpl String.length. simpl String.substring. rewrite IH. reflexivity.
Qed.

(** X19. The text [getProcessOutputText] makes of a result is empty
    exactly when both streams are blank; otherwise it begins with the
    label of the first stream that is not blank.  So the success box of
    [runCliFix] shows [(command returned no output)] exactly when the
    command printed nothing but white space. *)
Theorem output_text_is_empty_only_for_blank_streams (result : ProcessResult) :
  (getProcessOutputText result = ""
   <-> Js.trim (stdout result) = "" /\ Js.trim (stderr result) = "")
  /\ (Js.trim (stdout result) <> "" ->
      Js.startsWith (getProcessOutputText result) "stdout:" = true)
  /\ (Js.trim (stdout result) = "" -> Js.trim (stderr result) <> "" ->
      Js.startsWith (getProcessOutputText result) "stderr:" = true)
  /\ (forall fixerId route cliPrompt,
        ("CLI Output", "(command returned no output)")
          ∈ sections (successBox fixerId route cliPrompt result)
        <-> Js.trim (stdout result) = "" /\ Js.trim (stderr result) = "").
Proof.
  assert (Hlabel : forall (name body more : string),
             String.length name = 7%nat ->
             Js.startsWith
               (truncateForBox ((name +:+ newline +:+ body) +:+ more)
                               MAX_BOX_CONTENT_CHARS) name = true).
  { intros name body more Hname. unfold truncateForBox, Js.startsWith.
    destruct (Z.leb (Js.strlen ((name +:+ newline +:+ body) +:+ more))
                    MAX_BOX_CONTENT_CHARS).
    - rewrite !string_app_assoc. apply prefix_app.
    - unfold Js.slice0.
      replace (Z.to_nat MAX_BOX_CONTENT_CHARS)
        with (String.length name + Z.to_nat (MAX_BOX_CONTENT_CHARS - 7))%nat
        by (rewrite Hname; reflexivity).
      rewrite !string_app_assoc, substring_app_head, !string_app_assoc.
      apply prefix_app. }
  assert (Hstdout : Js.trim (stdout result) <> "" ->
                    Js.startsWith (getProcessOutputText result) "stdout:" = true).
  { intros Hout. unfold getProcessOutputText.
    destruct (String.eqb_spec (Js.trim (stdout result)) ""); [contradiction |].
    destruct (String.eqb (Js.trim (stderr result)) ""); simpl.
    - rewrite <- (string_app_nil_r ("stdout:" +:+ newline +:+ Js.trim (stdout result))).
      apply Hlabel. reflexivity.
    - apply Hlabel. reflexivity. }
  assert (Hstderr : Js.trim (stdout result) = "" -> Js.trim (stderr result) <> "" ->
                    Js.startsWith (getProcessOutputText result) "stderr:" = true).
  { intros Hout Herr. unfold getProcessOutputText.
    destruct (String.eqb_spec (Js.trim (stdout result)) ""); [| contradiction].
    destruct (String.eqb_spec (Js.trim (stderr result)) ""); [contradiction |].
    simpl.
    rewrite <- (string_app_nil_r ("stderr:" +:+ newline +:+ Js.trim (stderr result))).
    apply Hlabel. reflexivity. }
  assert (Hother : forall text : string,
             Js.startsWith text "stdout:" = false ->
             Js.startsWith text "stderr:" = false ->
             getProcessOutputText result = text ->
             Js.trim (stdout result) = "" /\ Js.trim (stderr result) = "").
  { intros text Hno1 Hno2 Htext.
    destruct (String.eqb_spec (Js.trim (stdout result)) "") as [Hout | Hout].
    - split; [exact Hout |].
      destruct (String.eqb_spec (Js.trim (stderr result)) "") as [Herr | Herr];
        [exact Herr |].
      specialize (Hstderr Hout Herr). rewrite Htext in Hstderr. congruence.
    - specialize (Hstdout Hout). rewrite Htext in Hstdout. congruence. }
  assert (Hblank : getProcessOutputText result = ""
                   <-> Js.trim (stdout result) = "" /\ Js.trim (stderr result) = "").
  { split.
    - apply Hother; reflexivity.
    - intros [Hout Herr]. unfold getProcessOutputText. rewrite Hout, Herr.
      reflexivity. }
  split_and!; [exact Hblank | exact Hstdout | exact Hstderr |].
  intros fixerId route cliPrompt. rewrite <- Hblank. unfold successBox. simpl.
  rewrite !elem_of_cons, elem_of_nil.
  destruct (String.eqb_spec (getProcessOutputText result) "") as [Hempty | Hfull].
  - split; [intros _; exact Hempty | auto].
  - split; [| contradiction].
    intros [Heq | [Heq | [Heq | []]]]; try discriminate.
    injection Heq as Heq. apply Hblank.
    apply (Hother "(command returned no output)"); auto.
Qed.

(** Nothing but a line break on stdout and a warning on stderr. *)
Lemma output_text_is_empty_only_for_blank_streams_witness :
  Js.startsWith
    (getProcessOutputText (mkProcessResult (Some 0) newline "warning: slow" false None))
    "stderr:" = true.
Proof.
  apply (output_text_is_empty_only_for_blank_streams
           (mkProcessResult (Some 0) newline "warning: slow" false None)).
  - reflexivity.
  - discriminate.
Defined.

(* ===================================================================== *)
(** ** Properties of the command handler and of the editor fixers *)
(* ===================================================================== *)

Lemma string_app_inj_l (s a b : string) : s +:+ a = s +:+ b -> a = b.
Proof.
  induction s as [| c s IH]; intros Heq.
  - exact Heq.
  - change (String c (s +:+ a) = String c (s +:+ b)) in Heq.
    injection Heq as Heq. apply IH, Heq.
Qed.

Section HandlerProperties.

Context {W : Type} `{!Host W} `{!Editor W}.

Lemma andThen_Some {A B} (m : E W A) (k : A -> E W B) (d d2 : Desk W) (b : B) :
  andThen m k d = Some (b, d2)
  <-> exists a d1, m d = Some (a, d1) /\ k a d1 = Some (b, d2).
Proof.
  unfold andThen. destruct (m d) as [[a d1] |]; split.
  - eauto.
  - intros (a' & d1' & [= <- <-] & Hk). exact Hk.
  - discriminate.
  - intros (a' & d1' & Hm & _). discriminate.
Qed.

Lemma deskAdvances_refl (d : Desk W) : deskAdvances d d [] [] [].
Proof. unfold deskAdvances. rewrite !app_nil_r. auto. Qed.

Lemma deskAdvances_trans (d d1 d2 : Desk W) (x1 x2 : list Execution)
      (l1 l2 e1 e2 : list string) :
  deskAdvances d d1 x1 l1 e1 -> deskAdvances d1 d2 x2 l2 e2 ->
  deskAdvances d d2 (x1 ++ x2) (l1 ++ l2) (e1 ++ e2).
Proof.
  intros (Hx1 & Hl1 & He1) (Hx2 & Hl2 & He2). unfold deskAdvances.
  rewrite Hx2, Hx1, Hl2, Hl1, He2, He1, !app_assoc. auto.
Qed.

Lemma deskAdvances_new (d d1 : Desk W) (execs : list Execution)
      (lines errors : list string) :
  deskAdvances d d1 execs lines errors ->
  newExecutions d d1 = execs /\ newLines d d1 = lines /\ newErrors d d1 = errors.
Proof.
  intros (Hx & Hl & He). unfold newExecutions, newLines, newErrors.
  rewrite Hx, Hl, He, !drop_app_length. auto.
Qed.

Lemma liftEngine_Some {A} (m : M W A) (d d1 : Desk W) (a : A) :
  liftEngine m d = Some (a, d1) ->
  m (engine d) = Some (a, engine d1) /\ deskAdvances d d1 [] [] [].
Proof.
  unfold liftEngine. destruct (m (engine d)) as [[a' st] |]; [| discriminate].
  intros [= <- <-]. unfold deskAdvances. simpl. rewrite !app_nil_r. auto.
Qed.

Lemma execute_spec (command : string) (arguments : list Argument)
      (d d1 : Desk W) (rejection : option string) :
  execute command arguments d = Some (rejection, d1) ->
  deskAdvances d d1 [mkExecution command arguments rejection] [] []
  /\ commandAvailabilityCache (engine d1) = commandAvailabilityCache (engine d).
Proof.
  unfold execute.
  destruct (executeCommand (host (engine d)) command arguments)
    as [[[] | message |] w]; [| | discriminate];
    intros [= <- <-]; unfold deskAdvances; simpl; rewrite !app_nil_r; auto.
Qed.

Lemma makeClaudeSessionId_spec (d d1 : Desk W) (sessionId : string) :
  makeClaudeSessionId d = Some (sessionId, d1) ->
  deskAdvances d d1 [] [] []
  /\ commandAvailabilityCache (engine d1) = commandAvailabilityCache (engine d).
Proof.
  unfold makeClaudeSessionId.
  destruct (dateNow (host (engine d))) as [timestamp w1].
  destruct (randomMillion w1) as [nonce w2].
  intros [= _ <-]. unfold deskAdvances. simpl. rewrite !app_nil_r. auto.
Qed.

Lemma appendLine_spec (text : string) (d d1 : Desk W) (u : unit) :
  appendLine text d = Some (u, d1) ->
  deskAdvances d d1 [] [text] [] /\ engine d1 = engine d.
Proof.
  unfold appendLine. intros [= _ <-]. unfold deskAdvances. simpl.
  rewrite !app_nil_r. auto.
Qed.

Lemma showErrorMessage_spec (text : string) (d d1 : Desk W) (u : unit) :
  showErrorMessage text d = Some (u, d1) ->
  deskAdvances d d1 [] [] [text] /\ engine d1 = engine d.
Proof.
  unfold showErrorMessage. intros [= _ <-]. unfold deskAdvances. simpl.
  rewrite !app_nil_r. auto.
Qed.

Lemma isCommandAvailable_seen (command : string) (st st1 : State W) :
  isCommandAvailable command st = Some (true, st1) ->
  is_Some (commandAvailabilityCache st1 !! command).
Proof.
  unfold isCommandAvailable. intros Hcall.
  apply bind_Some in Hcall as (st0 & st0' & [= <- <-] & Hcall).
  destruct (commandAvailabilityCache st !! command) as [v |] eqn:Hcached.
  - injection Hcall as <-. rewrite Hcached. eauto.
  - destruct (getCommands (host st)) as [commands w].
    destruct (existsb (String.eqb command) commands); [| discriminate].
    injection Hcall as <-. simpl. rewrite lookup_insert_eq. eauto.
Qed.

(** The two flows of [runClaudeFix]. *)
Lemma claudeEditorFlow_spec (prompt : string) (failures : list string)
      (d d1 : Desk W) (left : unit + list string) :
  claudeEditorFlow prompt failures d = Some (left, d1) ->
  commandAvailabilityCache (engine d1) = commandAvailabilityCache (engine d)
  /\ exists sessionId rejection,
       let e := mkExecution CLAUDE_EDITOR_COMMAND
                            [ArgString sessionId; ArgString prompt] rejection in
       match left with
       | inl _ =>
           rejection = None
           /\ deskAdvances d d1 [e]
                ["[claude] Opened Claude chat and submitted prompt."] []
       | inr failures' =>
           isRejected e = true
           /\ failures' = (failures ++ [claudeFailure e])%list
           /\ deskAdvances d d1 [e] [] []
       end.
Proof.
  unfold claudeEditorFlow. intros Hflow.
  apply andThen_Some in Hflow as (sessionId & d2 & Hid & Hflow).
  apply andThen_Some in Hflow as (rejection & d3 & Hexec & Hflow).
  apply makeClaudeSessionId_spec in Hid as [Hadv2 Hcache2].
  apply execute_spec in Hexec as [Hadv3 Hcache3].
  pose proof (deskAdvances_trans _ _ _ _ _ _ _ _ _ Hadv2 Hadv3) as Hadv.
  destruct rejection as [message |].
  - injection Hflow as <- <-. split; [congruence |].
    exists sessionId, (Some message). simpl. auto.
  - apply andThen_Some in Hflow as (u & d4 & Hline & [= <- <-]).
    apply appendLine_spec in Hline as [Hadv4 Hengine].
    split; [rewrite Hengine; congruence |].
    exists sessionId, None. simpl. split; [reflexivity |].
    apply (deskAdvances_trans _ _ _ _ _ _ _ _ _ Hadv Hadv4).
Qed.

Lemma claudeTerminalFlow_spec (prompt : string) (failures : list string)
      (d d1 : Desk W) (left : unit + list string) :
  claudeTerminalFlow prompt failures d = Some (left, d1) ->
  commandAvailabilityCache (engine d1) = commandAvailabilityCache (engine d)
  /\ exists rejection,
       let e := mkExecution CLAUDE_TERMINAL_COMMAND
                            [ArgString prompt; ArgStrings ["-p"];
                             ArgString "beside"] rejection in
       match left with
       | inl _ =>
           rejection = None
           /\ deskAdvances d d1 [e]
                ["[claude] Submitted prompt through Claude terminal fallback."]
                []
       | inr failures' =>
           isRejected e = true
           /\ failures' = (failures ++ [claudeFailure e])%list
           /\ deskAdvances d d1 [e] [] []
       end.
Proof.
  unfold claudeTerminalFlow. intros Hflow.
  apply andThen_Some in Hflow as (rejection & d3 & Hexec & Hflow).
  apply execute_spec in Hexec as [Hadv Hcache3].
  destruct rejection as [message |].
  - injection Hflow as <- <-. split; [congruence |].
    exists (Some message). simpl. auto.
  - apply andThen_Some in Hflow as (u & d4 & Hline & [= <- <-]).
    apply appendLine_spec in Hline as [Hadv4 Hengine].
    split; [rewrite Hengine; congruence |].
    exists None. simpl. split; [reflexivity |].
    apply (deskAdvances_trans _ _ _ _ _ _ _ _ _ Hadv Hadv4).
Qed.

(** The ways [runClaudeFix] can end. *)
Lemma runClaudeFix_cases (prompt : string) (d d1 : Desk W) (out : Completion) :
  runClaudeFix prompt d = Some (out, d1) ->
  exists execs lines,
    deskAdvances d d1 execs lines []
    /\ Forall (fun e => seenRegistered d1 (executedCommand e)) execs
    /\ exists sessionId,
         let viaEditor :=
           mkExecution CLAUDE_EDITOR_COMMAND
                       [ArgString sessionId; ArgString prompt] in
         let viaTerminal :=
           mkExecution CLAUDE_TERMINAL_COMMAND
                       [ArgString prompt; ArgStrings ["-p"]; ArgString "beside"] in
         (execs = [] /\ lines = [] /\ out = Thrown claudeMissing)
         \/ (out = Resolved
             /\ (execs = [viaEditor None]
                 /\ lines = ["[claude] Opened Claude chat and submitted prompt."]
                 \/ (execs = [viaTerminal None]
                     \/ exists message,
                          execs = [viaEditor (Some message); viaTerminal None])
                    /\ lines
                       = ["[claude] Submitted prompt through Claude terminal fallback."]))
         \/ (lines = []
             /\ out = Thrown ("Claude quick fix failed. "
                                +:+ orElse (Js.join " | " (map claudeFailure execs))
                                           "No executable route was available.")
             /\ ((exists message, execs = [viaEditor (Some message)])
                 \/ (exists message, execs = [viaTerminal (Some message)])
                 \/ exists message message',
                      execs = [viaEditor (Some message);
                               viaTerminal (Some message')])).
Proof.
  unfold runClaudeFix. intros Hrun.
  apply andThen_Some in Hrun as (editorAvailable & d2 & Heditor & Hrun).
  apply andThen_Some in Hrun as (terminalAvailable & d3 & Hterminal & Hrun).
  apply liftEngine_Some in Heditor as [Heditor Hadv2].
  apply liftEngine_Some in Hterminal as [Hterminal Hadv3].
  pose proof (deskAdvances_trans _ _ _ _ _ _ _ _ _ Hadv2 Hadv3) as Hadv23.
  simpl in Hadv23.
  assert (Hseen : (editorAvailable = true ->
                   seenRegistered d3 CLAUDE_EDITOR_COMMAND)
                  /\ (terminalAvailable = true ->
                      seenRegistered d3 CLAUDE_TERMINAL_COMMAND)).
  { split.
    - intros ->. unfold seenRegistered.
      eapply isCommandAvailable_monotone; [exact Hterminal |].
      eapply isCommandAvailable_seen, Heditor.
    - intros ->. eapply isCommandAvailable_seen, Hterminal. }
  destruct Hseen as [HseenEditor HseenTerminal].
  destruct editorAvailable, terminalAvailable; simpl in Hrun.
  - (* both *)
    apply andThen_Some in Hrun as (viaEditor & d4 & Hflow & Hrun).
    apply claudeEditorFlow_spec in Hflow as (Hcache4 & sessionId & rejection & Hflow).
    destruct viaEditor as [[] | failures].
    + injection Hrun as <- <-. destruct Hflow as [-> Hadv4].
      eexists _, _. split; [apply (deskAdvances_trans _ _ _ _ _ _ _ _ _ Hadv23 Hadv4) |].
      split.
      { repeat constructor. unfold seenRegistered. rewrite Hcache4.
        apply HseenEditor. reflexivity. }
      exists sessionId. right. left. auto.
    + destruct Hflow as (Hrejected & -> & Hadv4).
      destruct rejection as [message |]; [| discriminate].
      apply andThen_Some in Hrun as (viaTerminal & d5 & Hflow & Hrun).
      apply claudeTerminalFlow_spec in Hflow as (Hcache5 & rejection' & Hflow).
      pose proof (deskAdvances_trans _ _ _ _ _ _ _ _ _ Hadv23 Hadv4) as Hadv234.
      assert (Hboth : Forall (fun e => seenRegistered d5 (executedCommand e))
                             [mkExecution CLAUDE_EDITOR_COMMAND
                                          [ArgString sessionId; ArgString prompt]
                                          (Some message);
                              mkExecution CLAUDE_TERMINAL_COMMAND
                                          [ArgString prompt; ArgStrings ["-p"];
                                           ArgString "beside"] rejection']).
      { repeat constructor; unfold seenRegistered; rewrite Hcache5, Hcache4;
          [apply HseenEditor | apply HseenTerminal]; reflexivity. }
      destruct viaTerminal as [[] | failures'].
      * injection Hrun as <- <-. destruct Hflow as [-> Hadv5].
        eexists _, _.
        split; [apply (deskAdvances_trans _ _ _ _ _ _ _ _ _ Hadv234 Hadv5) |].
        split; [exact Hboth |].
        exists sessionId. right. left. split; [reflexivity |]. right. eauto.
      * injection Hrun as <- <-. destruct Hflow as (Hrejected' & -> & Hadv5).
        destruct rejection' as [message' |]; [| discriminate].
        eexists _, _.
        split; [apply (deskAdvances_trans _ _ _ _ _ _ _ _ _ Hadv234 Hadv5) |].
        split; [exact Hboth |].
        exists sessionId. right. right. split_and!; [reflexivity | reflexivity |].
        right. right. eauto.
  - (* the editor only *)
    apply andThen_Some in Hrun as (viaEditor & d4 & Hflow & Hrun).
    apply claudeEditorFlow_spec in Hflow as (Hcache4 & sessionId & rejection & Hflow).
    assert (Hone : Forall (fun e => seenRegistered d4 (executedCommand e))
                          [mkExecution CLAUDE_EDITOR_COMMAND
                                       [ArgString sessionId; ArgString prompt]
                                       rejection]).
    { repeat constructor. unfold seenRegistered. rewrite Hcache4.
      apply HseenEditor. reflexivity. }
    destruct viaEditor as [[] | failures].
    + injection Hrun as <- <-. destruct Hflow as [-> Hadv4].
      eexists _, _. split; [apply (deskAdvances_trans _ _ _ _ _ _ _ _ _ Hadv23 Hadv4) |].
      split; [exact Hone |].
      exists sessionId. right. left. auto.
    + apply andThen_Some in Hrun as (viaTerminal & d5 & [= <- <-] & [= <- <-]).
      destruct Hflow as (Hrejected & -> & Hadv4).
      destruct rejection as [message |]; [| discriminate].
      eexists _, _. split; [apply (deskAdvances_trans _ _ _ _ _ _ _ _ _ Hadv23 Hadv4) |].
      split; [exact Hone |].
      exists sessionId. right. right. split_and!; [reflexivity | reflexivity |].
      left. eauto.
  - (* the terminal only *)
    apply andThen_Some in Hrun as (viaEditor & d4 & [= <- <-] & Hrun).
    apply andThen_Some in Hrun as (viaTerminal & d5 & Hflow & Hrun).
    apply claudeTerminalFlow_spec in Hflow as (Hcache5 & rejection & Hflow).
    assert (Hone : Forall (fun e => seenRegistered d5 (executedCommand e))
                          [mkExecution CLAUDE_TERMINAL_COMMAND
                                       [ArgString prompt; ArgStrings ["-p"];
                                        ArgString "beside"] rejection]).
    { repeat constructor. unfold seenRegistered. rewrite Hcache5.
      apply HseenTerminal. reflexivity. }
    destruct viaTerminal as [[] | failures'].
    + injection Hrun as <- <-. destruct Hflow as [-> Hadv5].
      eexists _, _. split; [apply (deskAdvances_trans _ _ _ _ _ _ _ _ _ Hadv23 Hadv5) |].
      split; [exact Hone |].
      exists "". right. left. split; [reflexivity |]. right. auto.
    + injection Hrun as <- <-. destruct Hflow as (Hrejected & -> & Hadv5).
      destruct rejection as [message |]; [| discriminate].
      eexists _, _. split; [apply (deskAdvances_trans _ _ _ _ _ _ _ _ _ Hadv23 Hadv5) |].
      split; [exact Hone |].
      exists "". right. right. split_and!; [reflexivity | reflexivity |].
      right. left. eauto.
  - (* neither *)
    injection Hrun as <- <-. exists [], [].
    split; [exact Hadv23 |]. split; [constructor |].
    exists "". left. auto.
Qed.

Lemma orElse_app (c : ascii) (name rest fallback : string) :
  orElse (String c name +:+ rest) fallback = String c name +:+ rest.
Proof. reflexivity. Qed.

Lemma not_a_prefix (name rest text : string) :
  String.prefix name text = false -> name +:+ rest <> text.
Proof. intros Hno <-. rewrite prefix_app in Hno. discriminate. Qed.

(** X21. [runClaudeFix] tries the editor flow, then the terminal flow,
    and nothing else.  It executes only commands it has seen registered,
    the editor command with a session id and the prompt, the terminal
    command with the prompt, [-p] and [beside], at most once each and in
    this order.  It stops at the first execution that is fulfilled and
    resolves exactly then, appending one line; every execution before the
    last was rejected.  It throws for want of the extension exactly when
    it executes nothing; any other error lists one failure per rejected
    execution, so that the text provided for an empty list of failures is
    never part of a message.  It shows no error message itself. *)
Theorem claude_fix_tries_the_editor_then_the_terminal
        (prompt : string) (d d1 : Desk W) (out : Completion) :
  runClaudeFix prompt d = Some (out, d1) ->
  Forall (fun e => seenRegistered d1 (executedCommand e)) (newExecutions d d1)
  /\ (exists sessionId,
        Forall (fun e =>
                  executedCommand e = CLAUDE_EDITOR_COMMAND
                  /\ executedArguments e = [ArgString sessionId; ArgString prompt]
                  \/ executedCommand e = CLAUDE_TERMINAL_COMMAND
                     /\ executedArguments e
                        = [ArgString prompt; ArgStrings ["-p"]; ArgString "beside"])
               (newExecutions d d1))
  /\ map executedCommand (newExecutions d d1)
       ∈ [ []; [CLAUDE_EDITOR_COMMAND]; [CLAUDE_TERMINAL_COMMAND];
           [CLAUDE_EDITOR_COMMAND; CLAUDE_TERMINAL_COMMAND] ]
  /\ (forall earlier last,
        newExecutions d d1 = (earlier ++ [last])%list ->
        forallb isRejected earlier = true
        /\ (out = Resolved <-> isRejected last = false))
  /\ (newExecutions d d1 = [] <-> out = Thrown claudeMissing)
  /\ match out with
     | Resolved => exists text, newLines d d1 = [text]
     | Thrown message =>
         newLines d d1 = []
         /\ (newExecutions d d1 <> [] ->
             message = "Claude quick fix failed. "
                         +:+ Js.join " | " (map claudeFailure (newExecutions d d1)))
         /\ message
            <> "Claude quick fix failed. No executable route was available."
     end
  /\ newErrors d d1 = [].
Proof.
  intros Hrun.
  apply runClaudeFix_cases in Hrun
    as (execs & lines & Hadv & Hseen & sessionId & Hcases).
  apply deskAdvances_new in Hadv as (-> & -> & ->).
  assert (Hlast1 : forall (x last : Execution) (earlier : list Execution),
             [x] = (earlier ++ [last])%list -> earlier = [] /\ last = x).
  { intros x last earlier Heq. apply (app_inj_tail [] earlier x last) in Heq.
    destruct Heq; auto. }
  assert (Hlast2 : forall (x y last : Execution) (earlier : list Execution),
             [x; y] = (earlier ++ [last])%list -> earlier = [x] /\ last = y).
  { intros x y last earlier Heq. apply (app_inj_tail [x] earlier y last) in Heq.
    destruct Heq; auto. }
  assert (Hmissing : forall rest : string,
             "Claude quick fix failed. " +:+ rest <> claudeMissing).
  { intros rest. apply not_a_prefix. reflexivity. }
  assert (Hfallback : forall (name rest : string),
             String.prefix name "No executable route was available." = false ->
             "Claude quick fix failed. " +:+ (name +:+ rest)
             <> "Claude quick fix failed. No executable route was available.").
  { intros name rest Hno Heq.
    change "Claude quick fix failed. No executable route was available."
      with ("Claude quick fix failed. " +:+ "No executable route was available.")
      in Heq.
    apply string_app_inj_l in Heq. revert Heq. apply not_a_prefix, Hno. }
  split; [exact Hseen |].
  split.
  { exists sessionId.
    destruct Hcases
      as [(-> & _) | [(_ & [[-> _] | [[-> | (m & ->)] _]])
                     | (_ & _ & [(m & ->) | [(m & ->) | (m & m' & ->)]])]];
      repeat (apply List.Forall_cons; [simpl; auto |]); apply List.Forall_nil. }
  split.
  { destruct Hcases
      as [(-> & _) | [(_ & [[-> _] | [[-> | (m & ->)] _]])
                     | (_ & _ & [(m & ->) | [(m & ->) | (m & m' & ->)]])]];
      simpl; rewrite !elem_of_cons; auto 10. }
  destruct Hcases
    as [(-> & -> & ->)
       | [(-> & [[-> ->] | [[-> | (m & ->)] ->]])
         | (-> & -> & [(m & ->) | [(m & ->) | (m & m' & ->)]])]].
  - (* nothing executed *)
    split; [intros earlier last Heq; destruct earlier; discriminate |].
    split; [split; reflexivity |].
    split; [| reflexivity].
    split; [reflexivity |]. split; [congruence | discriminate].
  - (* the editor flow fulfilled *)
    split.
    { intros earlier last [-> ->]%Hlast1. split; [reflexivity |]. split; auto. }
    split; [split; discriminate |].
    split; [eauto | reflexivity].
  - (* the terminal flow fulfilled, alone *)
    split.
    { intros earlier last [-> ->]%Hlast1. split; [reflexivity |]. split; auto. }
    split; [split; discriminate |].
    split; [eauto | reflexivity].
  - (* the terminal flow fulfilled after the editor flow was rejected *)
    split.
    { intros earlier last [-> ->]%Hlast2. split; [reflexivity |]. split; auto. }
    split; [split; discriminate |].
    split; [eauto | reflexivity].
  - (* the editor flow rejected *)
    split.
    { intros earlier last [-> ->]%Hlast1. split; [reflexivity |].
      split; discriminate. }
    split.
    { split; [discriminate |]. intros Heq. exfalso.
      match type of Heq with
      | Thrown (_ +:+ ?rest) = _ => apply (Hmissing rest)
      end.
      congruence. }
    split; [| reflexivity].
    unfold claudeFailure. simpl. rewrite orElse_app.
    split; [reflexivity |]. split; [reflexivity |].
    apply (Hfallback "editor flow failed: "). reflexivity.
  - (* the terminal flow rejected, alone *)
    split.
    { intros earlier last [-> ->]%Hlast1. split; [reflexivity |].
      split; discriminate. }
    split.
    { split; [discriminate |]. intros Heq. exfalso.
      match type of Heq with
      | Thrown (_ +:+ ?rest) = _ => apply (Hmissing rest)
      end.
      congruence. }
    split; [| reflexivity].
    unfold claudeFailure. simpl. rewrite orElse_app.
    split; [reflexivity |]. split; [reflexivity |].
    apply (Hfallback "terminal fallback failed: "). reflexivity.
  - (* both flows rejected *)
    split.
    { intros earlier last [-> ->]%Hlast2. split; [reflexivity |].
      split; discriminate. }
    split.
    { split; [discriminate |]. intros Heq. exfalso.
      match type of Heq with
      | Thrown (_ +:+ ?rest) = _ => apply (Hmissing rest)
      end.
      congruence. }
    split; [| reflexivity].
    unfold claudeFailure. simpl. rewrite string_app_assoc, orElse_app.
    split; [reflexivity |].
    split; [intros _; reflexivity |].
    apply (Hfallback "editor flow failed: "). reflexivity.
Qed.

Lemma assertCommandAvailable_cases (command missingMessage : string)
      (st st1 : State W) (out : Completion) :
  assertCommandAvailable command missingMessage st = Some (out, st1) ->
  out = Resolved /\ is_Some (commandAvailabilityCache st1 !! command)
  \/ out = Thrown (missingMessage +:+ " Missing command: " +:+ command).
Proof.
  unfold assertCommandAvailable. intros Hcall.
  apply bind_Some in Hcall as (available & st0 & Hcheck & Hcall).
  destruct available; injection Hcall as <- <-; [left | right; reflexivity].
  split; [reflexivity |]. eapply isCommandAvailable_seen, Hcheck.
Qed.

(** The ways [runCodexFix] can end. *)
Lemma runCodexFix_cases (uri : Uri) (promptSpec : PromptSpec) (d d1 : Desk W)
      (out : Completion) :
  runCodexFix uri promptSpec d = Some (out, d1) ->
  exists execs lines,
    deskAdvances d d1 execs lines []
    /\ (execs = [] /\ lines = []
        /\ out = Thrown (codexMissing +:+ " Missing command: " +:+ CODEX_COMMAND)
        \/ seenRegistered d1 CODEX_COMMAND
           /\ exists rejection,
                execs = [mkExecution CODEX_COMMAND
                                     [ArgTodo (encodedFsPath uri) (line promptSpec)
                                              (prompt promptSpec)] rejection]
                /\ match rejection with
                   | None =>
                       out = Resolved
                       /\ lines = ["[codex] Sent minimal prompt to line "
                                     +:+ Js.showZ (line promptSpec) +:+ "."]
                   | Some message => out = Thrown message /\ lines = []
                   end).
Proof.
  unfold runCodexFix. intros Hrun.
  apply andThen_Some in Hrun as (available & d2 & Hcheck & Hrun).
  apply liftEngine_Some in Hcheck as [Hcheck Hadv2].
  apply assertCommandAvailable_cases in Hcheck as [[-> Hseen] | ->].
  - apply andThen_Some in Hrun as (rejection & d3 & Hexec & Hrun).
    apply execute_spec in Hexec as [Hadv3 Hcache3].
    pose proof (deskAdvances_trans _ _ _ _ _ _ _ _ _ Hadv2 Hadv3) as Hadv.
    destruct rejection as [message |].
    + injection Hrun as <- <-. eexists _, _. split; [exact Hadv |].
      right. split; [unfold seenRegistered; rewrite Hcache3; exact Hseen |].
      exists (Some message). auto.
    + apply andThen_Some in Hrun as (u & d4 & Hline & [= <- <-]).
      apply appendLine_spec in Hline as [Hadv4 Hengine].
      eexists _, _.
      split; [apply (deskAdvances_trans _ _ _ _ _ _ _ _ _ Hadv Hadv4) |].
      right.
      split; [unfold seenRegistered; rewrite Hengine, Hcache3; exact Hseen |].
      exists None. auto.
  - injection Hrun as <- <-. exists [], []. split; [exact Hadv2 |]. left. auto.
Qed.

(** X22. [runCodexFix] executes the Codex command only after it has seen
    it registered, once, with the encoded path of the file, the reported
    line and the prompt; it resolves, after appending one line that names
    the line, exactly when that execution is fulfilled, and throws what
    the execution was rejected with otherwise.  When the command is not
    registered it executes nothing and throws the message that names the
    missing command. *)
Theorem codex_fix_executes_the_registered_command
        (uri : Uri) (promptSpec : PromptSpec) (d d1 : Desk W) (out : Completion) :
  runCodexFix uri promptSpec d = Some (out, d1) ->
  newErrors d d1 = []
  /\ (newExecutions d d1 = [] /\ newLines d d1 = []
      /\ out = Thrown ("Codex quick fix requires the OpenAI ChatGPT VS Code extension. Missing command: chatgpt.implementTodo")
      \/ seenRegistered d1 CODEX_COMMAND
         /\ exists rejection,
              newExecutions d d1
              = [mkExecution CODEX_COMMAND
                             [ArgTodo (encodedFsPath uri) (line promptSpec)
                                      (prompt promptSpec)] rejection]
              /\ (out = Resolved <-> rejection = None)
              /\ (forall message,
                    rejection = Some message ->
                    out = Thrown message /\ newLines d d1 = [])
              /\ (rejection = None ->
                  newLines d d1
                  = ["[codex] Sent minimal prompt to line "
                       +:+ Js.showZ (line promptSpec) +:+ "."])).
Proof.
  intros Hrun.
  apply runCodexFix_cases in Hrun as (execs & lines & Hadv & Hcases).
  apply deskAdvances_new in Hadv as (-> & -> & ->).
  split; [reflexivity |].
  destruct Hcases as [(-> & -> & ->) | (Hseen & rejection & -> & Hout)].
  - left. auto.
  - right. split; [exact Hseen |]. exists rejection.
    split; [reflexivity |].
    destruct rejection as [message |].
    + destruct Hout as [-> ->]. split_and!.
      * split; discriminate.
      * intros message' [= <-]. auto.
      * discriminate.
    + destruct Hout as [-> ->]. split_and!.
      * split; reflexivity.
      * discriminate.
      * reflexivity.
Qed.

(** Opening the document and building the prompt leave the records of
    the desk as they are. *)
Lemma openAndBuildPrompt_spec (uri : Uri) (range : Range)
      (diagnosticMessage : option string) (d d1 : Desk W)
      (built : PromptSpec + string) :
  openAndBuildPrompt uri range diagnosticMessage d = Some (built, d1) ->
  deskAdvances d d1 [] [] [].
Proof.
  unfold openAndBuildPrompt.
  destruct (openTextDocument (host (engine d)) uri) as [[document | message |] w];
    [| | discriminate].
  - destruct (buildPrompt document (startLine range) diagnosticMessage);
      intros [= _ <-]; unfold deskAdvances; simpl; rewrite !app_nil_r; auto.
  - intros [= _ <-]. unfold deskAdvances. simpl. rewrite !app_nil_r. auto.
Qed.

(** No fixer shows an error message itself. *)
Lemma runVsCodeCommandFixer_errors (uri : Uri) (range : Range)
      (diagnosticMessage : option string) (fixerId : FixerId) (d d1 : Desk W)
      (completion : Completion) :
  runVsCodeCommandFixer uri range diagnosticMessage fixerId d
  = Some (completion, d1) ->
  errorsShown d1 = errorsShown d.
Proof.
  unfold runVsCodeCommandFixer. intros Hrun.
  apply andThen_Some in Hrun as (built & d2 & Hbuilt & Hrun).
  apply openAndBuildPrompt_spec in Hbuilt as (_ & _ & Herrors2).
  rewrite app_nil_r in Herrors2.
  destruct built as [promptSpec | message].
  2:{ injection Hrun as _ <-. exact Herrors2. }
  destruct fixerId.
  - apply runCodexFix_cases in Hrun as (execs & lines & (_ & _ & Herrors) & _).
    rewrite app_nil_r in Herrors. congruence.
  - apply runClaudeFix_cases in Hrun as (execs & lines & (_ & _ & Herrors) & _).
    rewrite app_nil_r in Herrors. congruence.
  - apply liftEngine_Some in Hrun as [_ (_ & _ & Herrors)].
    rewrite app_nil_r in Herrors. congruence.
  - apply liftEngine_Some in Hrun as [_ (_ & _ & Herrors)].
    rewrite app_nil_r in Herrors. congruence.
Qed.

Lemma runFixerCommand_rejected (args : option CommandArguments) (d : Desk W) :
  acceptedArguments args = None ->
  runFixerCommand args d = showErrorMessage invalidArguments d.
Proof.
  unfold acceptedArguments, runFixerCommand.
  destruct args as [a |]; [| reflexivity].
  destruct (resolveFixerId (option_map request (Some a))); [| reflexivity].
  destruct (argumentUri a), (argumentRange a); try reflexivity. discriminate.
Qed.

Lemma runFixerCommand_accepted (args : option CommandArguments) (uri : Uri)
      (range : Range) (diagnosticMessage : option string) (fixerId : FixerId)
      (d : Desk W) :
  acceptedArguments args = Some (uri, range, diagnosticMessage, fixerId) ->
  runFixerCommand args d
  = (do! completion :=
       runVsCodeCommandFixer uri range diagnosticMessage fixerId in
     match completion with
     | Resolved => done tt
     | Thrown msg =>
         do! _ := appendLine ("[error] " +:+ msg) in
         showErrorMessage ("AI Quick Fix failed: " +:+ msg)
     end) d.
Proof.
  unfold acceptedArguments, runFixerCommand.
  destruct args as [a |]; [| discriminate].
  destruct (resolveFixerId (option_map request (Some a))); [| discriminate].
  destruct (argumentUri a), (argumentRange a); try discriminate.
  intros [= <- <- <- <-]. reflexivity.
Qed.

(** X23. The handler of [aiQuickFix.runFixer] shows at most one error
    message per invocation.  It shows the message about invalid
    arguments exactly when the arguments are missing, name no fixer, or
    lack [uri] or [range], and then it does nothing else: no document is
    opened, nothing is executed or spawned, nothing is logged.  Otherwise
    it runs the fixer once; when the fixer resolves nothing is shown, and
    when the fixer throws, the message is logged as the last line, after
    [[error]], and shown after [AI Quick Fix failed:]. *)
Theorem handler_reports_every_failure_once (args : option CommandArguments)
        (d d1 : Desk W) (u : unit) :
  runFixerCommand args d = Some (u, d1) ->
  (length (newErrors d d1) <= 1)%nat
  /\ (newErrors d d1 = [invalidArguments] <-> acceptedArguments args = None)
  /\ (acceptedArguments args = None ->
      engine d1 = engine d /\ newExecutions d d1 = [] /\ newLines d d1 = [])
  /\ (forall uri range diagnosticMessage fixerId,
        acceptedArguments args = Some (uri, range, diagnosticMessage, fixerId) ->
        exists completion d0,
          runVsCodeCommandFixer uri range diagnosticMessage fixerId d
          = Some (completion, d0)
          /\ engine d1 = engine d0
          /\ executions d1 = executions d0
          /\ match completion with
             | Resolved => d1 = d0 /\ newErrors d d1 = []
             | Thrown msg =>
                 newErrors d d1 = ["AI Quick Fix failed: " +:+ msg]
                 /\ channelLines d1 = (channelLines d0 ++ ["[error] " +:+ msg])%list
             end).
Proof.
  intros Hrun.
  destruct (acceptedArguments args) as [[[[uri range] diagnosticMessage] fixerId] |]
    eqn:Haccepted.
  - rewrite (runFixerCommand_accepted _ _ _ _ _ _ Haccepted) in Hrun.
    apply andThen_Some in Hrun as (completion & d0 & Hfix & Hrun).
    pose proof (runVsCodeCommandFixer_errors _ _ _ _ _ _ _ Hfix) as Herrors0.
    assert (Hshown : match completion with
                     | Resolved => d1 = d0 /\ newErrors d d1 = []
                     | Thrown msg =>
                         newErrors d d1 = ["AI Quick Fix failed: " +:+ msg]
                         /\ channelLines d1
                            = (channelLines d0 ++ ["[error] " +:+ msg])%list
                     end
                     /\ engine d1 = engine d0 /\ executions d1 = executions d0).
    { destruct completion as [| msg].
      - injection Hrun as Heq. subst d1. split_and!; auto.
        unfold newErrors. rewrite Herrors0. apply drop_all.
      - apply andThen_Some in Hrun as (u1 & d2 & Hline & Hshow).
        apply appendLine_spec in Hline as [(Hx2 & Hl2 & He2) Hengine2].
        apply showErrorMessage_spec in Hshow as [(Hx3 & Hl3 & He3) Hengine3].
        rewrite app_nil_r in *.
        split_and!; try congruence.
        unfold newErrors. rewrite He3, He2, Herrors0. apply drop_app_length. }
    destruct Hshown as (Hshown & Hengine & Hexecs).
    split_and!.
    + destruct completion; destruct Hshown as [H1 H2];
        [rewrite H2 | rewrite H1]; simpl; lia.
    + split; [| discriminate]. intros Hinvalid. exfalso.
      destruct completion as [| msg]; destruct Hshown as [H1 H2].
      * rewrite H2 in Hinvalid. discriminate.
      * rewrite H1 in Hinvalid.
        assert (Htext : "AI Quick Fix failed: " +:+ msg = invalidArguments)
          by congruence.
        revert Htext. apply not_a_prefix. reflexivity.
    + discriminate.
    + intros uri' range' diagnosticMessage' fixerId' [= <- <- <- <-].
      exists completion, d0. auto.
  - rewrite (runFixerCommand_rejected _ _ Haccepted) in Hrun.
    apply showErrorMessage_spec in Hrun as [Hadv Hengine].
    apply deskAdvances_new in Hadv as (Hx & Hl & He).
    rewrite He. split_and!; auto.
    + split; auto.
    + discriminate.
Qed.

(** X24. Every action [provideCodeActions] offers is accepted by the
    handler: its argument passes the check for invalid arguments, with
    the document, the range and the message of its diagnostic and the
    fixer of its title, so that invoking it never shows the message about
    invalid arguments and runs that fixer. *)
Theorem offered_actions_are_accepted (uri : Uri) (range : Range)
        (diagnostics : list Diagnostic) (st st1 : State W)
        (actions : list CodeAction) :
  provideCodeActions uri range diagnostics st = Some (actions, st1) ->
  Forall (fun action =>
            exists diagnostic fixerId,
              diagnostic ∈ diagnostics
              /\ actionTitle action
                 = "Fix With " +:+ doubleQuote +:+ label (FIXERS fixerId)
                     +:+ doubleQuote
              /\ acceptedArguments (Some (commandArguments action))
                 = Some (uri, default range (diagnosticRange diagnostic),
                         Some (diagnosticText diagnostic), fixerId)
              /\ forall (d d1 : Desk W) (u : unit),
                   runFixerCommand (Some (commandArguments action)) d
                   = Some (u, d1) ->
                   newErrors d d1 <> [invalidArguments]
                   /\ exists completion d0,
                        runVsCodeCommandFixer
                          uri (default range (diagnosticRange diagnostic))
                          (Some (diagnosticText diagnostic)) fixerId d
                        = Some (completion, d0))
         actions.
Proof.
  intros Hrun.
  apply provideCodeActions_spec in Hrun as (fixers & _ & Hentries & ->).
  rewrite Forall_forall in Hentries.
  apply Forall_flat_map, Forall_forall. intros diagnostic Hd.
  apply Forall_fmap, Forall_forall. intros fixer Hf.
  exists diagnostic, (specId fixer).
  assert (Haccepted :
            acceptedArguments
              (Some (commandArguments (codeActionFor uri range diagnostic fixer)))
            = Some (uri, default range (diagnosticRange diagnostic),
                    Some (diagnosticText diagnostic), specId fixer)).
  { unfold acceptedArguments. simpl. destruct (specId fixer); reflexivity. }
  split_and!; auto.
  - rewrite <- (Hentries fixer Hf). reflexivity.
  - intros d d1 u Hhandle.
    rewrite (runFixerCommand_accepted _ _ _ _ _ _ Haccepted) in Hhandle.
    apply andThen_Some in Hhandle as (completion & d0 & Hfix & Hhandle).
    split; [| eauto].
    pose proof (runVsCodeCommandFixer_errors _ _ _ _ _ _ _ Hfix) as Herrors0.
    destruct completion as [| msg].
    + injection Hhandle as Heq. subst d1. unfold newErrors.
      rewrite Herrors0, drop_all. discriminate.
    + apply andThen_Some in Hhandle as (u1 & d2 & Hline & Hshow).
      apply appendLine_spec in Hline as [(_ & _ & He2) _].
      apply showErrorMessage_spec in Hshow as [(_ & _ & He3) _].
      rewrite app_nil_r in He2. unfold newErrors.
      rewrite He3, He2, Herrors0, drop_app_length. intros Htext.
      assert (Hsame : "AI Quick Fix failed: " +:+ msg = invalidArguments)
        by congruence.
      revert Hsame. apply not_a_prefix. reflexivity.
Qed.

End HandlerProperties.

(** The editor flow is rejected and the terminal flow fulfilled: both
    commands executed had been seen registered. *)
Lemma claude_fix_tries_the_editor_then_the_terminal_witness :
  Forall (fun e =>
            seenRegistered
              (finalDesk (runClaudeFix samplePrompt) (atDesk editorFlowBroken))
              (executedCommand e))
         (newExecutions
            (atDesk editorFlowBroken)
            (finalDesk (runClaudeFix samplePrompt) (atDesk editorFlowBroken))).
Proof.
  apply (claude_fix_tries_the_editor_then_the_terminal
           (W := Office) samplePrompt (atDesk editorFlowBroken)
           (finalDesk (runClaudeFix samplePrompt) (atDesk editorFlowBroken))
           Resolved).
  vm_compute. reflexivity.
Defined.

(** The Codex command is registered and fulfilled. *)
Lemma codex_fix_executes_the_registered_command_witness :
  newErrors (atDesk editorFlowBroken)
            (finalDesk (runCodexFix sampleUri (mkPromptSpec samplePrompt 3))
                       (atDesk editorFlowBroken))
  = [].
Proof.
  apply (codex_fix_executes_the_registered_command
           (W := Office) sampleUri (mkPromptSpec samplePrompt 3)
           (atDesk editorFlowBroken)
           (finalDesk (runCodexFix sampleUri (mkPromptSpec samplePrompt 3))
                      (atDesk editorFlowBroken))
           Resolved).
  vm_compute. reflexivity.
Defined.

(** Invoked without arguments, the handler shows the message about
    invalid arguments. *)
Lemma handler_reports_every_failure_once_witness :
  newErrors (atDesk editorFlowBroken)
            (finalDesk (runFixerCommand None) (atDesk editorFlowBroken))
  = [invalidArguments].
Proof.
  apply (handler_reports_every_failure_once
           (W := Office) None (atDesk editorFlowBroken)
           (finalDesk (runFixerCommand None) (atDesk editorFlowBroken)) tt).
  - vm_compute. reflexivity.
  - reflexivity.
Defined.

(** With the default settings two actions are offered for a diagnostic;
    both are accepted. *)
Lemma offered_actions_are_accepted_witness :
  Forall (fun action =>
            exists diagnostic fixerId,
              diagnostic ∈ [sampleDiagnostic]
              /\ actionTitle action
                 = "Fix With " +:+ doubleQuote +:+ label (FIXERS fixerId)
                     +:+ doubleQuote
              /\ acceptedArguments (Some (commandArguments action))
                 = Some (sampleUri,
                         default sampleRange (diagnosticRange diagnostic),
                         Some (diagnosticText diagnostic), fixerId)
              /\ forall (d d1 : Desk Office) (u : unit),
                   runFixerCommand (Some (commandArguments action)) d
                   = Some (u, d1) ->
                   newErrors d d1 <> [invalidArguments]
                   /\ exists completion d0,
                        runVsCodeCommandFixer
                          sampleUri
                          (default sampleRange (diagnosticRange diagnostic))
                          (Some (diagnosticText diagnostic)) fixerId d
                        = Some (completion, d0))
         (answer [] (provideCodeActions sampleUri sampleRange [sampleDiagnostic])
                 (activated ∅ editorFlowBroken)).
Proof.
  apply (offered_actions_are_accepted
           (W := Office) sampleUri sampleRange [sampleDiagnostic]
           (activated ∅ editorFlowBroken)
           (finalState (provideCodeActions sampleUri sampleRange
                                           [sampleDiagnostic])
                       (activated ∅ editorFlowBroken))).
  vm_compute. reflexivity.
Defined.

(* ===================================================================== *)
(** ** Further concrete runs *)
(* ===================================================================== *)

(** [codex] cannot be started: the probe of one direct route fails, and
    the probe of another direct route, which has the same key, fails
    without a second attempt. *)
Lemma probe_answers_are_memoized_witness :
  probeRoute codexFullAuto "/work"
             (finalState (probeRoute codexWorkspaceWrite "/work") shellOnly)
  = Some (false, finalState (probeRoute codexWorkspaceWrite "/work") shellOnly).
Proof.
  destruct (probe_answers_are_memoized
              (W := Scripted) codexWorkspaceWrite "/work" shellOnly
              (finalState (probeRoute codexWorkspaceWrite "/work") shellOnly)
              false)
    as (_ & Hother & _).
  - vm_compute. reflexivity.
  - apply Hother. vm_compute. reflexivity.
Defined.

(** [claude] is resolved through [bash]; resolving again changes nothing. *)
Lemma resolve_is_idempotent_witness :
  getCliRoute ClaudeCli false (finalState (getCliRoute ClaudeCli false) shellOnly)
  = Some (Some claudeThroughShell,
          finalState (getCliRoute ClaudeCli false) shellOnly).
Proof.
  apply (resolve_is_idempotent (W := Scripted) ClaudeCli shellOnly).
  vm_compute. reflexivity.
Defined.

(** Discovery passes the two direct routes, whose probes fail, and
    returns the route through [bash]. *)
Lemma discovery_returns_first_answering_route_witness :
  exists before after,
    discoveryOrder shellOnly ClaudeCli
    = (before ++ claudeThroughShell :: after)%list
    /\ cliProbeCache (finalState (discoverCliRoute ClaudeCli) shellOnly)
         !! probeKey claudeThroughShell "/work" = Some true
    /\ Forall (fun r => cliProbeCache (finalState (discoverCliRoute ClaudeCli)
                                                  shellOnly)
                          !! probeKey r "/work" = Some false) before.
Proof.
  apply (discovery_returns_first_answering_route
           (W := Scripted) ClaudeCli shellOnly
           (finalState (discoverCliRoute ClaudeCli) shellOnly)
           (Some claudeThroughShell)).
  vm_compute. reflexivity.
Defined.

(** A stored route is read back by its id. *)
Lemma stored_verdict_is_read_back_witness :
  getPersistedRouteId
    (finalState (setCachedCliRoute CodexCli (Some codexFullAuto)) freshlyActivated)
    CodexCli
  = Some "native:codex:exec:auto-skipgit".
Proof.
  apply (stored_verdict_is_read_back
           (W := Scripted) CodexCli (Some codexFullAuto) freshlyActivated
           (finalState (setCachedCliRoute CodexCli (Some codexFullAuto))
                       freshlyActivated) tt).
  vm_compute. reflexivity.
Defined.

(** With the bridge switched off, a fix that goes through [bash] starts
    [codex] and [bash] only. *)
Lemma runner_spawns_candidate_commands_only_witness :
  Forall (fun spec => command spec <> "wsl")
         (spawnedCommands
            (newEffects bridgeDisabled
               (finalState (runCliFix sampleArgs samplePrompt CodexCli)
                           bridgeDisabled))).
Proof.
  apply (runner_spawns_candidate_commands_only
           (W := Scripted) sampleArgs samplePrompt CodexCli bridgeDisabled
           (finalState (runCliFix sampleArgs samplePrompt CodexCli) bridgeDisabled)
           Resolved).
  - vm_compute. reflexivity.
  - vm_compute. reflexivity.
Defined.

(** [codex] is gone after the probe: the invocation throws after soft
    runs only, or after a hard one that came last. *)
Lemma runs_stop_at_first_decisive_result_witness :
  Forall (fun r => isSoftRun r = true)
         (runResults
            (newEffects freshlyActivated
               (finalState (runCliFix sampleArgs samplePrompt CodexCli)
                           freshlyActivated)))
  \/ exists earlier hard,
       runResults
         (newEffects freshlyActivated
            (finalState (runCliFix sampleArgs samplePrompt CodexCli)
                        freshlyActivated))
       = (earlier ++ [hard])%list
       /\ Forall (fun r => isSoftRun r = true) earlier
       /\ isHardRun hard = true.
Proof.
  apply (runs_stop_at_first_decisive_result
           (W := Scripted) sampleArgs samplePrompt CodexCli freshlyActivated
           (finalState (runCliFix sampleArgs samplePrompt CodexCli) freshlyActivated)
           (Thrown "Codex CLI failed: codex exec (--sandbox workspace-write --skip-git-repo-check): spawn failed (ENOENT)")).
  vm_compute. reflexivity.
Defined.

(** The run that meets the sandbox and then succeeds appends one box,
    for the route that succeeded. *)
Lemma every_invocation_is_reported_witness :
  exists route result,
    route ∈ getCliRouteCandidates ∅ ClaudeCli
    /\ OUTPUT sandboxedFirstDone
       = ([] ++ [successBox ClaudeCli route
                            (buildCliPrompt sampleArgs samplePrompt) result])%list
    /\ last (newEffects sandboxedFirst sandboxedFirstDone)
       = Some (Spawn (buildRun route (buildCliPrompt sampleArgs samplePrompt))
                     "/work" CLI_RUN_TIMEOUT_MS result)
    /\ verdict sandboxedFirstDone ClaudeCli = KnownGood route.
Proof.
  apply (every_invocation_is_reported
           (W := Scripted) sampleArgs samplePrompt ClaudeCli sandboxedFirst
           sandboxedFirstDone Resolved).
  vm_compute. reflexivity.
Defined.

(** With [codex] not installed and [claude] installed, the menu lists the
    Claude CLI fixer and not the Codex CLI fixer. *)
Lemma menu_lists_resolved_cli_fixers_witness :
  FIXERS (cliFixer ClaudeCli) ∈ answer [] getEnabledFixers menuRequested
  /\ ~ FIXERS (cliFixer CodexCli) ∈ answer [] getEnabledFixers menuRequested.
Proof.
  destruct (menu_lists_resolved_cli_fixers
              (W := Scripted) menuRequested
              (finalState getEnabledFixers menuRequested)
              (answer [] getEnabledFixers menuRequested))
    as (_ & _ & Hcli & _).
  - vm_compute. reflexivity.
  - split.
    + apply (Hcli ClaudeCli). split; [reflexivity |].
      exists (nth 0 getClaudeCliRoutes noRoute). vm_compute. reflexivity.
    + intros Hin. apply (Hcli CodexCli) in Hin as [_ [route Hroute]].
      assert (Hbad : verdict (finalState getEnabledFixers menuRequested) CodexCli
                     = KnownBad) by (vm_compute; reflexivity).
      rewrite Hbad in Hroute. discriminate Hroute.
Defined.
